(** * The resilient API client of the miniapps

    A shallow embedding of the two API clients of the repository:
    [PicnicAPI] (start-up, authenticated requests with token refresh and
    retries, the deletion of a picnic with its documents, the WebSocket
    channel with its reconnect schedule, the subscription registry and the
    event emitter), the subscriptions that [PicnicApp] makes on it, and the
    statistics and filters of [TodoAPI].

    JavaScript values are modelled by the types the code uses them at:
    strings as [string], counters as [nat], millisecond delays as [Z]
    (products of 1000 and powers of two, exact as doubles), [Map] and [Set]
    objects by their ECMAScript entry lists, [Set] objects by reference,
    exceptions and [try]/[catch] by a completion monad. An [async] method is
    the sequence of its steps: one call runs at a time. The server, the
    token provider and the callbacks of the callers are parameters; what a
    call does to them is recorded as a trace of events. Loops and retries
    take fuel, and the theorems say how much is enough. *)

From Stdlib Require Import ZArith Lia Bool Ascii String DecimalString.
From stdpp Require Import base gmap strings list.

Local Open Scope string_scope.
Local Open Scope list_scope.

(** ** JavaScript strings *)

Module JsString.

(** [s.startsWith(p)]. *)
Fixpoint startsWith (s p : string) : bool :=
  match p, s with
  | EmptyString, _ => true
  | String _ _, EmptyString => false
  | String a p', String b s' => Ascii.eqb a b && startsWith s' p'
  end.

(** [s.includes(needle)]. *)
Fixpoint includes (s needle : string) : bool :=
  startsWith s needle ||
  match s with
  | EmptyString => false
  | String _ s' => includes s' needle
  end.

(** [s.split(sep)] for a separator of one character. *)
Fixpoint split (s : string) (sep : ascii) : list string :=
  match s with
  | EmptyString => [EmptyString]
  | String c s' =>
      if Ascii.eqb c sep then EmptyString :: split s' sep
      else match split s' sep with
           | [] => [String c EmptyString]
           | piece :: pieces => String c piece :: pieces
           end
  end.

(** The character does not occur in the string. *)
Fixpoint lacks (s : string) (c : ascii) : bool :=
  match s with
  | EmptyString => true
  | String a s' => negb (Ascii.eqb a c) && lacks s' c
  end.

(** [String(n)] for a non-negative integer. *)
Definition ofNat (n : nat) : string := NilZero.string_of_uint (Nat.to_uint n).

(** A string is truthy unless it is empty. *)
Definition truthy (s : string) : bool :=
  match s with EmptyString => false | String _ _ => true end.

End JsString.

(** ** Exceptions *)

(** An [Error] object, by the two fields the client inspects. *)
Record JsError := mkError { name : string; message : string }.

(** [new Error(msg)]. *)
Definition Error (msg : string) : JsError := mkError "Error" msg.

(** The [TypeError] that the engine throws. *)
Definition TypeError (msg : string) : JsError := mkError "TypeError" msg.

(** The text of the [TypeError] for reading a property of [null], in the
    words of V8. The clients look at the name of such an error, and at its
    text only for ["fetch"], ["404"] and ["not found"], which the words of
    no engine contain. *)
Definition nullRead (property : string) : string :=
  "Cannot read properties of null (reading '" +:+ property +:+ "')".

(** The text of the [TypeError] for calling [map] on the result of an
    [await] that has no such method. *)
Definition noMap : string := "(intermediate value).map is not a function".

(** ** [Map] and [Set] objects

  ECMAScript keeps the entries of a [Map] in insertion order. Deleting an
  entry empties its slot and leaves the list as long as it was; [forEach]
  walks the list by index and reads it afresh at every step, so it skips
  the slots emptied before it reaches them and visits the entries
  appended while it runs. *)

(** The contents of the slots that are not emptied, in order. *)
Fixpoint present {X : Type} (slots : list (option X)) : list X :=
  match slots with
  | [] => []
  | None :: slots' => present slots'
  | Some x :: slots' => x :: present slots'
  end.

Module JsMap.
Section Entries.
Context {K V : Type} `{EqDecision K}.

Definition MapData : Type := list (option (K * V)).

(** [new Map()]. *)
Definition empty : MapData := [].

(** [m.get(k)], [None] for [undefined]. *)
Fixpoint get (m : MapData) (k : K) : option V :=
  match m with
  | [] => None
  | None :: m' => get m' k
  | Some (k', v) :: m' => if decide (k' = k) then Some v else get m' k
  end.

(** [m.has(k)]. *)
Definition has (m : MapData) (k : K) : bool :=
  match get m k with Some _ => true | None => false end.

(** [m.set(k, v)]: an existing entry keeps its place. *)
Fixpoint set (m : MapData) (k : K) (v : V) : MapData :=
  match m with
  | [] => [Some (k, v)]
  | None :: m' => None :: set m' k v
  | Some (k', v') :: m' =>
      if decide (k' = k) then Some (k', v) :: m'
      else Some (k', v') :: set m' k v
  end.

(** [m.delete(k)]: the slot is emptied. *)
Fixpoint delete (m : MapData) (k : K) : MapData :=
  match m with
  | [] => []
  | None :: m' => None :: delete m' k
  | Some (k', v') :: m' =>
      if decide (k' = k) then None :: m'
      else Some (k', v') :: delete m' k
  end.

(** [m.clear()]: every slot is emptied. *)
Definition clear (m : MapData) : MapData := map (fun _ => None) m.

(** [m.size]. *)
Definition size (m : MapData) : nat := length (present m).

(** No key is held by two slots: the invariant of every [Map]. *)
Definition wf (m : MapData) : Prop := NoDup (map fst (present m)).

End Entries.
End JsMap.

Arguments JsMap.MapData : clear implicits.

Module JsSet.
Section Entries.
Context {A : Type} `{EqDecision A}.

Definition SetData : Type := list (option A).

(** [new Set()]. *)
Definition empty : SetData := [].

(** [s.has(x)]. *)
Fixpoint has (s : SetData) (x : A) : bool :=
  match s with
  | [] => false
  | None :: s' => has s' x
  | Some y :: s' => if decide (y = x) then true else has s' x
  end.

(** [s.add(x)]: a value already present keeps its place. *)
Definition add (s : SetData) (x : A) : SetData :=
  if has s x then s else s ++ [Some x].

(** [s.delete(x)]: the slot is emptied. *)
Fixpoint delete (s : SetData) (x : A) : SetData :=
  match s with
  | [] => []
  | None :: s' => None :: delete s' x
  | Some y :: s' => if decide (y = x) then None :: s' else Some y :: delete s' x
  end.

End Entries.
End JsSet.

Arguments JsSet.SetData : clear implicits.

(** ** The picnic planner's client, [PicnicAPI] *)

Module PicnicAPI.

(** A function object, known by its identity. *)
Definition Callback : Type := nat.

(** *** The WebSocket *)

Inductive ReadyState := CONNECTING | OPEN | CLOSING | CLOSED.

(** A control frame [{type, collection, eventType}], before
    [JSON.stringify]. *)
Record Frame := mkFrame {
  frame_type : string;
  frame_collection : string;
  frame_eventType : option string
}.

(** A socket, with the frames handed to its [send]. *)
Record WebSocket := mkWebSocket {
  url : string;
  readyState : ReadyState;
  sent : list Frame
}.

(** An inbound message [{type, collection?, data?, id?}] after
    [JSON.parse]; [None] stands for [undefined]. *)
Record Message := mkMessage {
  msg_type : string;
  msg_collection : option string;
  msg_data : option string;
  msg_id : option string
}.

(** What a callback is called with. *)
Inductive Payload :=
| NoData
| ErrorData (error : JsError)
| TypeData (collection : option string) (data : option string) (id : option string)
| CollectionData (data : option string) (id : option string)
| MessageData (type : string) (collection : option string)
    (data : option string) (id : option string)
| OtherData (data : string).

(** *** The object built by the constructor *)

Record t := mkPicnicAPI {
  baseUrl : string;
  wsUrl : string;
  auth : option string;
  ws : option WebSocket;
  retryAttempts : nat;
  retryDelay : Z;
  wsReconnectAttempts : nat;
  maxWsReconnectAttempts : nat;
  wsReconnectDelay : Z;
  subscriptions : JsMap.MapData string Callback;
  eventHandlers : JsMap.MapData string nat
}.

(** [new PicnicAPI()]. The values of [eventHandlers] are [Set] objects, held
    by reference: the index of the object in the store of the [World]. *)
Definition constructor : t :=
  {| baseUrl := "/api";
     wsUrl := "/ws";
     auth := None;
     ws := None;
     retryAttempts := 3;
     retryDelay := 1000;
     wsReconnectAttempts := 0;
     maxWsReconnectAttempts := 10;
     wsReconnectDelay := 1000;
     subscriptions := JsMap.empty;
     eventHandlers := JsMap.empty |}.

Definition set_auth (api : t) (token : option string) : t :=
  {| baseUrl := baseUrl api; wsUrl := wsUrl api; auth := token; ws := ws api;
     retryAttempts := retryAttempts api; retryDelay := retryDelay api;
     wsReconnectAttempts := wsReconnectAttempts api;
     maxWsReconnectAttempts := maxWsReconnectAttempts api;
     wsReconnectDelay := wsReconnectDelay api;
     subscriptions := subscriptions api; eventHandlers := eventHandlers api |}.

Definition set_ws (api : t) (socket : option WebSocket) : t :=
  {| baseUrl := baseUrl api; wsUrl := wsUrl api; auth := auth api; ws := socket;
     retryAttempts := retryAttempts api; retryDelay := retryDelay api;
     wsReconnectAttempts := wsReconnectAttempts api;
     maxWsReconnectAttempts := maxWsReconnectAttempts api;
     wsReconnectDelay := wsReconnectDelay api;
     subscriptions := subscriptions api; eventHandlers := eventHandlers api |}.

Definition set_wsReconnectAttempts (api : t) (n : nat) : t :=
  {| baseUrl := baseUrl api; wsUrl := wsUrl api; auth := auth api; ws := ws api;
     retryAttempts := retryAttempts api; retryDelay := retryDelay api;
     wsReconnectAttempts := n;
     maxWsReconnectAttempts := maxWsReconnectAttempts api;
     wsReconnectDelay := wsReconnectDelay api;
     subscriptions := subscriptions api; eventHandlers := eventHandlers api |}.

Definition set_subscriptions (api : t)
    (m : JsMap.MapData string Callback) : t :=
  {| baseUrl := baseUrl api; wsUrl := wsUrl api; auth := auth api; ws := ws api;
     retryAttempts := retryAttempts api; retryDelay := retryDelay api;
     wsReconnectAttempts := wsReconnectAttempts api;
     maxWsReconnectAttempts := maxWsReconnectAttempts api;
     wsReconnectDelay := wsReconnectDelay api;
     subscriptions := m; eventHandlers := eventHandlers api |}.

Definition set_eventHandlers (api : t) (m : JsMap.MapData string nat) : t :=
  {| baseUrl := baseUrl api; wsUrl := wsUrl api; auth := auth api; ws := ws api;
     retryAttempts := retryAttempts api; retryDelay := retryDelay api;
     wsReconnectAttempts := wsReconnectAttempts api;
     maxWsReconnectAttempts := maxWsReconnectAttempts api;
     wsReconnectDelay := wsReconnectDelay api;
     subscriptions := subscriptions api; eventHandlers := m |}.

(** *** The runtime around the object *)

(** The task handed to [setTimeout] by [scheduleReconnect]. *)
Inductive Task := Reconnect.

(** The object, the [Set] objects it refers to and the pending timers. *)
Record World := mkWorld {
  this : t;
  sets : list (JsSet.SetData Callback);
  timers : list (Z * Task)
}.

Definition set_this (w : World) (api : t) : World :=
  {| this := api; sets := sets w; timers := timers w |}.

Definition set_sets (w : World) (s : list (JsSet.SetData Callback)) : World :=
  {| this := this w; sets := s; timers := timers w |}.

Definition set_timers (w : World) (q : list (Z * Task)) : World :=
  {| this := this w; sets := sets w; timers := q |}.

(** *** The network and the platform *)

(** The arguments of a [fetch]. *)
Record Request := mkRequest {
  req_url : string;
  req_method : string;
  req_token : option string;
  req_body : option string
}.

(** A parsed JSON body: [null], or any other value, by its [message]
    field ([None] for [undefined]) and its text. *)
Inductive Body :=
| JsonNull
| mkBody (body_message : option string) (body_text : string).

Inductive JsonOutcome := JsonResolves (body : Body) | JsonRejects (error : JsError).

Record Response := mkResponse {
  status : nat;
  ok : bool;
  statusText : string;
  json : JsonOutcome
}.

Inductive FetchOutcome :=
| FetchResolves (response : Response)
| FetchRejects (error : JsError).

Inductive RefreshOutcome :=
| RefreshResolves (token : string)
| RefreshRejects (error : JsError).

(** What a run does that the outside can see, in order. *)
Inductive Event :=
| Fetched (request : Request) (outcome : FetchOutcome)
| Refreshed (outcome : RefreshOutcome)
| Slept (ms : Z)
| HandlerCalled (event : string) (callback : Callback) (data : Payload)
| SubscriberCalled (key : string) (callback : Callback) (data : Payload)
| Console (level : string) (text : string).

(** The server and [window.olamoAuth]: how the n-th call is answered may
    depend on everything that happened before it. *)
Record Platform := mkPlatform {
  fetch : list Event -> Request -> FetchOutcome;
  refreshToken : option (list Event -> RefreshOutcome);
  wsOrigin : string;
  webSocketError : string -> option JsError
}.

(** What [getAuthToken] reads from [window]: [olamoAuth.getToken], when the
    platform provides it, returns a token or throws. *)
Inductive TokenOutcome :=
| TokenReturns (token : string)
| TokenThrows (error : JsError).

Record Window := mkWindow {
  getToken : option TokenOutcome;
  hostname : string
}.

(** *** The data of queries and batches *)

(** An entry of the [operations] of a batch:
    [{ operation: 'delete', collection, id }]; the [id] is [None] when it
    is [undefined]. *)
Inductive Operation := DeleteDocument (collection : string) (id : option string).

(** An element of an array of documents: [null], or a value by its [id],
    [None] for [undefined]. *)
Inductive Document := NullDocument | Stored (id : option string).

(** A truthy value of the [results] of a body: an array of documents, or
    something that is no array. *)
Inductive Listing := Documents (documents : list Document) | NotAnArray.

(** The objects that the client sends with a query for the documents of
    a picnic, [{ filters: [{ field: 'picnic_id', operator: '==', value }],
    sort }] with the pairs of [field] and [order] of its [sort] (none when
    the object has no [sort]), and with a batch, [{ operations }]. *)
Inductive Data :=
| PicnicQuery (picnicId : string) (sort : list (string * string))
| BatchData (operations : list Operation).

(** *** Completions *)

Record Run := mkRun { world : World; trace : list Event }.

(** How a call ends: it returns, it throws, or the model runs out of
    fuel. *)
Inductive Completion (A : Type) :=
| Normal (a : A) (r : Run)
| Throw (e : JsError) (r : Run)
| Exhausted.

Arguments Normal {A} a r.
Arguments Throw {A} e r.
Arguments Exhausted {A}.

Definition Js (A : Type) : Type := Run -> Completion A.

Definition ret {A} (a : A) : Js A := fun r => Normal a r.

Definition bind {A B} (c : Js A) (k : A -> Js B) : Js B :=
  fun r =>
    match c r with
    | Normal a r' => k a r'
    | Throw e r' => Throw e r'
    | Exhausted => Exhausted
    end.

Definition throw {A} (e : JsError) : Js A := fun r => Throw e r.

(** [try { body } catch (error) { handler }]. *)
Definition try_catch {A} (body : Js A) (handler : JsError -> Js A) : Js A :=
  fun r =>
    match body r with
    | Normal a r' => Normal a r'
    | Throw e r' => handler e r'
    | Exhausted => Exhausted
    end.

Definition exhausted {A} : Js A := fun _ => Exhausted.

Definition getThis : Js t := fun r => Normal (this (world r)) r.

Definition getWorld : Js World := fun r => Normal (world r) r.

Definition modify (f : World -> World) : Js unit :=
  fun r => Normal tt {| world := f (world r); trace := trace r |}.

Definition record (ev : Event) : Js unit :=
  fun r => Normal tt {| world := world r; trace := trace r ++ [ev] |}.

Definition console (level text : string) : Js unit := record (Console level text).

Notation "x <- c1 ;; c2" := (bind c1 (fun x => c2))
  (at level 100, c1 at next level, right associativity).
Notation "c1 ;; c2" := (bind c1 (fun _ => c2))
  (at level 100, right associativity).

Section Client.

(** The server and the authentication provider the client talks to. *)
Variable platform : Platform.

(** What each callback does when it is called: it may change the object
    (a callback can call [subscribe], [unsubscribe], [on], [off] ...) and it
    may throw. *)
Variable call : Callback -> Payload -> World -> World * option JsError.

(** *** Requests *)

(** [await fetch(url, options)]. *)
Definition awaitFetch (options : Request) : Js Response :=
  fun r =>
    let outcome := fetch platform (trace r) options in
    let r' := {| world := world r; trace := trace r ++ [Fetched options outcome] |} in
    match outcome with
    | FetchResolves response => Normal response r'
    | FetchRejects error => Throw error r'
    end.

(** [await response.json()]. *)
Definition awaitJson (response : Response) : Js Body :=
  match json response with
  | JsonResolves body => ret body
  | JsonRejects error => throw error
  end.

(** [await window.olamoAuth.refreshToken()]. *)
Definition awaitRefresh (refresh : list Event -> RefreshOutcome) : Js string :=
  fun r =>
    let outcome := refresh (trace r) in
    let r' := {| world := world r; trace := trace r ++ [Refreshed outcome] |} in
    match outcome with
    | RefreshResolves token => Normal token r'
    | RefreshRejects error => Throw error r'
    end.

(** [await new Promise(resolve => setTimeout(resolve, ms))]. *)
Definition sleep (ms : Z) : Js unit := record (Slept ms).

(** [handleAuthError()]; the token is refreshed when
    [window.olamoAuth.refreshToken] exists. *)
Definition handleAuthError : Js unit :=
  try_catch
    (match refreshToken platform with
     | Some refresh =>
         token <- awaitRefresh refresh ;;
         modify (fun w => set_this w (set_auth (this w) (Some token))) ;;
         console "log" "Token refreshed successfully"
     | None => ret tt
     end)
    (fun error =>
       console "error" "Failed to refresh token:" ;;
       throw (Error "Authentication failed. Please login again.")).

(** How one pass through the body of [makeRequest] ends: with the value it
    returns, or with [return this.makeRequest(endpoint, method, data,
    retryCount + 1)], whose promise is returned as it is and so is not
    covered by the [catch] around it. What the pass throws inside the
    [try], the [TypeError] of reading [errorData.message] of a [null] body
    included, goes through the [catch]. *)
Inductive Attempt := Returned (body : Body) | Again.

Definition carriesBody (method : string) : bool :=
  String.eqb method "POST" || String.eqb method "PUT" || String.eqb method "PATCH".

(** [error.name === 'TypeError' || error.message.includes('fetch')]. *)
Definition isNetworkError (error : JsError) : bool :=
  String.eqb (name error) "TypeError" || JsString.includes (message error) "fetch".

(** [errorData.message]: reading a property of [null] throws. *)
Definition readMessage (errorData : Body) : Js (option string) :=
  match errorData with
  | JsonNull => throw (TypeError (nullRead "message"))
  | mkBody message _ => ret message
  end.

(** [message || `HTTP ${response.status}: ${response.statusText}`]. *)
Definition errorMessage (message : option string) (response : Response) : string :=
  let fallback :=
    "HTTP " +:+ JsString.ofNat (status response) +:+ ": " +:+ statusText response in
  match message with
  | Some m => if JsString.truthy m then m else fallback
  | None => fallback
  end.

(** The value of [await response.json().catch(() => ({}))]. *)
Definition errorDataOf (response : Response) : Body :=
  match json response with
  | JsonResolves body => body
  | JsonRejects _ => mkBody None "{}"
  end.

(** The [url] and the [options] of the request, built with the token the
    object holds at that moment. *)
Definition buildOptions (api : t) (endpoint method : string)
    (data : option string) : Request :=
  {| req_url := baseUrl api +:+ endpoint;
     req_method := method;
     req_token := auth api;
     req_body := if carriesBody method then data else None |}.

(** One pass through the body of [makeRequest]. *)
Definition attempt (endpoint method : string) (data : option string)
    (retryCount : nat) : Js Attempt :=
  api <- getThis ;;
  let options := buildOptions api endpoint method data in
  try_catch
    (response <- awaitFetch options ;;
     replay <- (if Nat.eqb (status response) 401 then
                  handleAuthError ;;
                  api' <- getThis ;;
                  ret (Nat.ltb retryCount (retryAttempts api'))
                else ret false) ;;
     if (replay : bool) then ret Again
     else if negb (ok response) then
       errorData <- try_catch (awaitJson response)
                      (fun _ => ret (mkBody None "{}")) ;;
       message <- readMessage errorData ;;
       throw (Error (errorMessage message response))
     else
       body <- awaitJson response ;;
       ret (Returned body))
    (fun error =>
       api' <- getThis ;;
       if Nat.ltb retryCount (retryAttempts api') && isNetworkError error then
         sleep (retryDelay api' * (Z.of_nat retryCount + 1)) ;;
         ret Again
       else throw error).

(** [makeRequest(endpoint, method, data, retryCount)]; every pass uses up
    one unit of fuel. *)
Fixpoint makeRequest (fuel : nat) (endpoint method : string)
    (data : option string) (retryCount : nat) : Js Body :=
  match fuel with
  | O => exhausted
  | S fuel' =>
      outcome <- attempt endpoint method data retryCount ;;
      match outcome with
      | Returned body => ret body
      | Again => makeRequest fuel' endpoint method data (retryCount + 1)
      end
  end.

(** *** The event emitter *)

(** [on(event, callback)]; [new Set()] makes a fresh object at the end of
    the store. *)
Definition on (event : string) (callback : Callback) (w : World) : World :=
  let w1 :=
    if negb (JsMap.has (eventHandlers (this w)) event) then
      set_sets
        (set_this w (set_eventHandlers (this w)
           (JsMap.set (eventHandlers (this w)) event (length (sets w)))))
        (sets w ++ [JsSet.empty])
    else w in
  match JsMap.get (eventHandlers (this w1)) event with
  | Some ref => set_sets w1 (alter (fun s => JsSet.add s callback) ref (sets w1))
  | None => w1
  end.

(** [off(event, callback)]. *)
Definition off (event : string) (callback : Callback) (w : World) : World :=
  if JsMap.has (eventHandlers (this w)) event then
    match JsMap.get (eventHandlers (this w)) event with
    | Some ref => set_sets w (alter (fun s => JsSet.delete s callback) ref (sets w))
    | None => w
    end
  else w.

(** [Map.prototype.forEach] and [Set.prototype.forEach]: the entries are
    read from the object as it is when the index reaches them. *)
Fixpoint forEach {X : Type} (fuel : nat) (entries : World -> list (option X))
    (callbackfn : X -> Js unit) (index : nat) : Js unit :=
  match fuel with
  | O => exhausted
  | S fuel' =>
      fun r =>
        match entries (world r) !! index with
        | None => Normal tt r
        | Some None => forEach fuel' entries callbackfn (S index) r
        | Some (Some x) =>
            (callbackfn x ;; forEach fuel' entries callbackfn (S index)) r
        end
  end.

(** The same loop over a list of entries that is fixed beforehand. *)
Fixpoint visitAll {X : Type} (callbackfn : X -> Js unit) (xs : list X)
    : Js unit :=
  match xs with
  | [] => ret tt
  | x :: xs' => callbackfn x ;; visitAll callbackfn xs'
  end.

(** [callback(data)] for a handler of [event]. *)
Definition callHandler (event : string) (callback : Callback) (data : Payload)
    : Js unit :=
  fun r =>
    let (w', thrown) := call callback data (world r) in
    let r' := {| world := w'; trace := trace r ++ [HandlerCalled event callback data] |} in
    match thrown with
    | None => Normal tt r'
    | Some error => Throw error r'
    end.

(** [callback({ type, collection, data, id })] for a subscription. *)
Definition callSubscriber (key : string) (callback : Callback) (data : Payload)
    : Js unit :=
  fun r =>
    let (w', thrown) := call callback data (world r) in
    let r' := {| world := w'; trace := trace r ++ [SubscriberCalled key callback data] |} in
    match thrown with
    | None => Normal tt r'
    | Some error => Throw error r'
    end.

(** The entries of the [Set] object behind a reference. *)
Definition setEntries (ref : nat) (w : World) : list (option Callback) :=
  default [] (sets w !! ref).

(** The body of the arrow function given to [forEach] by [emit]. *)
Definition invokeHandler (event : string) (data : Payload)
    (callback : Callback) : Js unit :=
  try_catch (callHandler event callback data)
    (fun error =>
       console "error" ("Error in event handler for " +:+ event +:+ ":")).

(** [emit(event, data)]; the fuel bounds the steps of the loop. *)
Definition emit (fuel : nat) (event : string) (data : Payload) : Js unit :=
  api <- getThis ;;
  if JsMap.has (eventHandlers api) event then
    match JsMap.get (eventHandlers api) event with
    | Some ref => forEach fuel (setEntries ref) (invokeHandler event data) 0
    | None => ret tt
    end
  else ret tt.

(** *** The WebSocket channel *)

Definition isOpen (socket : WebSocket) : bool :=
  match readyState socket with OPEN => true | _ => false end.

(** [if (this.ws && this.ws.readyState === WebSocket.OPEN)
      this.ws.send(JSON.stringify(frame))]. *)
Definition sendIfOpen (frame : Frame) (w : World) : World :=
  match ws (this w) with
  | Some socket =>
      if isOpen socket then
        set_this w (set_ws (this w)
          (Some {| url := url socket; readyState := readyState socket;
                   sent := sent socket ++ [frame] |}))
      else w
  | None => w
  end.

Definition sendWebSocketMessage (message : Frame) (w : World) : World :=
  sendIfOpen message w.

(** [eventType ? `${collection}:${eventType}` : collection]. *)
Definition subscriptionKey (collection : string) (eventType : option string)
    : string :=
  match eventType with
  | Some e => if JsString.truthy e then collection +:+ ":" +:+ e else collection
  | None => collection
  end.

(** [unsubscribe(collection, eventType)]. *)
Definition unsubscribe (collection : string) (eventType : option string)
    (w : World) : World :=
  let key := subscriptionKey collection eventType in
  let w1 := set_this w (set_subscriptions (this w)
                          (JsMap.delete (subscriptions (this w)) key)) in
  sendIfOpen (mkFrame "unsubscribe" collection eventType) w1.

(** [subscribe(collection, callback, eventType)]; the second component
    is the function that it returns. *)
Definition subscribe (collection : string) (callback : Callback)
    (eventType : option string) (w : World) : World * (World -> World) :=
  let key := subscriptionKey collection eventType in
  let w1 := set_this w (set_subscriptions (this w)
                          (JsMap.set (subscriptions (this w)) key callback)) in
  (sendIfOpen (mkFrame "subscribe" collection eventType) w1,
   unsubscribe collection eventType).

(** [collection === subCollection && (!subType || subType === type)] after
    [const [subCollection, subType] = subscriptionKey.split(':')]. *)
Definition matches (message : Message) (subscriptionKey : string) : bool :=
  let parts := JsString.split subscriptionKey ":" in
  let subCollection := parts !! 0 in
  let subType := parts !! 1 in
  match msg_collection message, subCollection with
  | Some collection, Some subCollection => String.eqb collection subCollection
  | _, _ => false
  end
  &&
  match subType with
  | None => true
  | Some subType => negb (JsString.truthy subType) || String.eqb subType (msg_type message)
  end.

(** [{ type, collection, data, id }]. *)
Definition messagePayload (message : Message) : Payload :=
  MessageData (msg_type message) (msg_collection message)
    (msg_data message) (msg_id message).

(** The body of the arrow function given to [this.subscriptions.forEach]. *)
Definition notifySubscriber (message : Message)
    (entry : string * Callback) : Js unit :=
  let '(subscriptionKey, callback) := entry in
  if matches message subscriptionKey then
    callSubscriber subscriptionKey callback (messagePayload message)
  else ret tt.

(** [this.subscriptions.forEach(...)], from the entry at [index] on. *)
Definition notifySubscribers (fuel : nat) (message : Message) (index : nat)
    : Js unit :=
  forEach fuel (fun w => subscriptions (this w)) (notifySubscriber message) index.

(** [this.emit(`ws:${type}`, { collection, data, id })]. *)
Definition emitForType (fuel : nat) (message : Message) : Js unit :=
  emit fuel ("ws:" +:+ msg_type message)
    (TypeData (msg_collection message) (msg_data message) (msg_id message)).

(** [if (collection) this.emit(`ws:${collection}:${type}`, { data, id })]. *)
Definition emitForCollection (fuel : nat) (message : Message) : Js unit :=
  match msg_collection message with
  | Some collection =>
      if JsString.truthy collection then
        emit fuel ("ws:" +:+ collection +:+ ":" +:+ msg_type message)
          (CollectionData (msg_data message) (msg_id message))
      else ret tt
  | None => ret tt
  end.

(** [handleWebSocketMessage(message)]. *)
Definition handleWebSocketMessage (fuel : nat) (message : Message) : Js unit :=
  emitForType fuel message ;;
  emitForCollection fuel message ;;
  notifySubscribers fuel message 0.

(** [scheduleReconnect()]; [setTimeout] puts the task in the queue. *)
Definition scheduleReconnect (w : World) : World :=
  if Nat.ltb (wsReconnectAttempts (this w)) (maxWsReconnectAttempts (this w)) then
    let delay :=
      (wsReconnectDelay (this w) * 2 ^ Z.of_nat (wsReconnectAttempts (this w)))%Z in
    set_timers w (timers w ++ [(delay, Reconnect)])
  else w.

(** [`${...}//${window.location.host}${this.wsUrl}?token=${this.auth}`]. *)
Definition wsAddress (api : t) : string :=
  wsOrigin platform +:+ wsUrl api +:+ "?token=" +:+ default "null" (auth api).

(** [connectWebSocket()]; [new WebSocket(wsUrl)] throws when the platform
    says so. *)
Definition connectWebSocket : Js unit :=
  api <- getThis ;;
  if match ws api with Some socket => isOpen socket | None => false end then ret tt
  else
    try_catch
      (match webSocketError platform (wsAddress api) with
       | Some error => throw error
       | None =>
           modify (fun w => set_this w (set_ws (this w)
             (Some {| url := wsAddress api; readyState := CONNECTING; sent := [] |})))
       end)
      (fun error =>
         console "error" "Failed to connect WebSocket:" ;;
         modify scheduleReconnect).

(** The handlers the client installs on its socket. *)
Definition onopen (fuel : nat) : Js unit :=
  console "log" "WebSocket connected" ;;
  modify (fun w => set_this w (set_wsReconnectAttempts (this w) 0)) ;;
  emit fuel "ws:connected" NoData.

(** [parsed] is the result of [JSON.parse(event.data)], [None] when it
    throws. *)
Definition onmessage (fuel : nat) (parsed : option Message) : Js unit :=
  try_catch
    (match parsed with
     | Some message => handleWebSocketMessage fuel message
     | None => throw (mkError "SyntaxError" "Unexpected token")
     end)
    (fun error => console "error" "Failed to parse WebSocket message:").

Definition onclose (fuel : nat) : Js unit :=
  console "log" "WebSocket disconnected:" ;;
  emit fuel "ws:disconnected" NoData ;;
  modify scheduleReconnect.

Definition onerror (fuel : nat) (error : JsError) : Js unit :=
  console "error" "WebSocket error:" ;;
  emit fuel "ws:error" (ErrorData error).

(** The browser changes the state of the socket in [this.ws] and then runs
    the handler. *)
Definition setReadyState (state : ReadyState) (w : World) : World :=
  match ws (this w) with
  | Some socket =>
      set_this w (set_ws (this w)
        (Some {| url := url socket; readyState := state; sent := sent socket |}))
  | None => w
  end.

Definition socketOpens (fuel : nat) : Js unit :=
  modify (setReadyState OPEN) ;; onopen fuel.

Definition socketCloses (fuel : nat) : Js unit :=
  modify (setReadyState CLOSED) ;; onclose fuel.

(** The task given to [setTimeout] by [scheduleReconnect]:
    [this.wsReconnectAttempts++; this.connectWebSocket()]. *)
Definition runTask (task : Task) : Js unit :=
  match task with
  | Reconnect =>
      modify (fun w => set_this w
        (set_wsReconnectAttempts (this w) (wsReconnectAttempts (this w) + 1))) ;;
      connectWebSocket
  end.

(** The oldest pending timer fires. *)
Definition timerFires : Js unit :=
  fun r =>
    match timers (world r) with
    | [] => Normal tt r
    | (_, task) :: rest =>
        runTask task {| world := set_timers (world r) rest; trace := trace r |}
    end.

(** An outage: the socket closes, the pending reconnect fires and opens a
    socket that closes in its turn, for at most [rounds] closes or until no
    reconnect is pending. The result lists the delays of the timers that
    were set, in order. *)
Fixpoint outage (fuel rounds : nat) : Js (list Z) :=
  match rounds with
  | O => ret []
  | S rounds' =>
      socketCloses fuel ;;
      w <- getWorld ;;
      match timers w with
      | [] => ret []
      | _ :: _ =>
          timerFires ;;
          later <- outage fuel rounds' ;;
          ret (map fst (timers w) ++ later)
      end
  end.

(** [destroy()]. *)
Definition destroy (w : World) : World :=
  let w1 := match ws (this w) with
            | Some _ => set_this w (set_ws (this w) None)
            | None => w
            end in
  let w2 := set_this w1 (set_subscriptions (this w1)
                           (JsMap.clear (subscriptions (this w1)))) in
  set_this w2 (set_eventHandlers (this w2) (JsMap.clear (eventHandlers (this w2)))).

(** *** Collections and start-up *)

(** [getCollectionInfo(name)]. *)
Definition getCollectionInfo (fuel : nat) (name : string) : Js Body :=
  makeRequest fuel ("/collections/" +:+ name) "GET" None 0.

(** [createCollection(config)]; the configuration is known by its JSON
    text. *)
Definition createCollection (fuel : nat) (config : string) : Js Body :=
  makeRequest fuel "/collections" "POST" (Some config) 0.

(** [listCollections()]. *)
Definition listCollections (fuel : nat) : Js Body :=
  makeRequest fuel "/collections" "GET" None 0.

(** The names in [this.collections], in the order of the configurations
    that [initializeCollections] lists. *)
Definition collectionNames : list string :=
  ["picnics"; "picnic_participants"; "picnic_items"; "picnic_expenses"].

Section Startup.

(** [window.olamoAuth.getToken] and [window.location.hostname]. *)
Variable window : Window.

(** The JSON text of the configuration that [initializeCollections] writes
    out for the collection of a name: description, schema, permissions. *)
Variable configOf : string -> string.

(** [getAuthToken()]. *)
Definition getAuthToken : Js string :=
  match getToken window with
  | Some (TokenReturns token) => ret token
  | Some (TokenThrows error) => throw error
  | None =>
      if String.eqb (hostname window) "localhost" ||
         String.eqb (hostname window) "127.0.0.1"
      then ret "mock-jwt-token-for-development"
      else throw (Error "No authentication token available")
  end.

(** The body of the loop of [initializeCollections], for one
    configuration. *)
Definition ensureCollection (fuel : nat) (name : string) : Js unit :=
  try_catch
    (getCollectionInfo fuel name ;;
     console "log" ("Collection " +:+ name +:+ " already exists"))
    (fun error =>
       if JsString.includes (message error) "404" ||
          JsString.includes (message error) "not found"
       then
         createCollection fuel (configOf name) ;;
         console "log" ("Created collection: " +:+ name)
       else console "error" ("Error checking collection " +:+ name +:+ ":")).

(** [initializeCollections()]. *)
Definition initializeCollections (fuel : nat) : Js unit :=
  visitAll (ensureCollection fuel) collectionNames.

(** [initialize()]. *)
Definition initialize (fuel : nat) : Js bool :=
  try_catch
    (token <- getAuthToken ;;
     modify (fun w => set_this w (set_auth (this w) (Some token))) ;;
     initializeCollections fuel ;;
     connectWebSocket ;;
     console "log" "PicnicAPI initialized successfully" ;;
     ret true)
    (fun error =>
       console "error" "Failed to initialize PicnicAPI:" ;;
       throw (Error "Failed to connect to backend services")).

End Startup.

(** *** The documents of a picnic *)

Section Documents.

(** [JSON.stringify] of the data of a request. *)
Variable stringify : Data -> string.

(** The [results] of a body that is not [null]; [None] when the body has
    no [results] or a falsy one. *)
Variable resultsOf : Body -> option Listing.

(** [response.results || []]: reading a property of [null] throws. *)
Definition readResults (response : Body) : Js Listing :=
  match response with
  | JsonNull => throw (TypeError (nullRead "results"))
  | mkBody _ _ => ret (default (Documents []) (resultsOf response))
  end.

(** [getParticipantsByPicnic(picnicId)]. *)
Definition getParticipantsByPicnic (fuel : nat) (picnicId : string) : Js Listing :=
  response <- makeRequest fuel ("/" +:+ "picnic_participants" +:+ "/query") "POST"
                (Some (stringify (PicnicQuery picnicId []))) 0 ;;
  readResults response.

(** [getItemsByPicnic(picnicId)]. *)
Definition getItemsByPicnic (fuel : nat) (picnicId : string) : Js Listing :=
  response <- makeRequest fuel ("/" +:+ "picnic_items" +:+ "/query") "POST"
                (Some (stringify
                   (PicnicQuery picnicId
                      [("priority", "desc"); ("created_at", "asc")]))) 0 ;;
  readResults response.

(** [getExpensesByPicnic(picnicId)]. *)
Definition getExpensesByPicnic (fuel : nat) (picnicId : string) : Js Listing :=
  response <- makeRequest fuel ("/" +:+ "picnic_expenses" +:+ "/query") "POST"
                (Some (stringify (PicnicQuery picnicId [("date", "desc")]))) 0 ;;
  readResults response.

(** [batchOperations(operations)]. *)
Definition batchOperations (fuel : nat) (operations : list Operation) : Js Body :=
  makeRequest fuel "/batch" "POST" (Some (stringify (BatchData operations))) 0.

(** [p => ({ operation: 'delete', collection, id: p.id })]: reading the
    [id] of [null] throws. *)
Definition deletionOf (collection : string) (p : Document) : Js Operation :=
  match p with
  | NullDocument => throw (TypeError (nullRead "id"))
  | Stored id => ret (DeleteDocument collection id)
  end.

(** [Array.prototype.map], from left to right. *)
Fixpoint mapAll {X Y : Type} (callbackfn : X -> Js Y) (xs : list X) : Js (list Y) :=
  match xs with
  | [] => ret []
  | x :: xs' =>
      y <- callbackfn x ;;
      ys <- mapAll callbackfn xs' ;;
      ret (y :: ys)
  end.

(** [listing.map(p => ({ operation: 'delete', collection, id: p.id }))]:
    a value that is no array has no [map]. *)
Definition deletionsOf (collection : string) (listing : Listing)
    : Js (list Operation) :=
  match listing with
  | Documents documents => mapAll (deletionOf collection) documents
  | NotAnArray => throw (TypeError noMap)
  end.

(** [deletePicnic(id)]; the elements of the array of operations are
    evaluated from left to right, each listing and its [map] before the
    next listing. *)
Definition deletePicnic (fuel : nat) (id : string) : Js Body :=
  participants <- getParticipantsByPicnic fuel id ;;
  ofParticipants <- deletionsOf "picnic_participants" participants ;;
  items <- getItemsByPicnic fuel id ;;
  ofItems <- deletionsOf "picnic_items" items ;;
  expenses <- getExpensesByPicnic fuel id ;;
  ofExpenses <- deletionsOf "picnic_expenses" expenses ;;
  batchOperations fuel
    (DeleteDocument "picnics" (Some id) :: ofParticipants ++ ofItems ++ ofExpenses).

End Documents.

(** The pending reconnects fire one after the other, at most [rounds] of
    them; the result lists the delays of the timers that fired. *)
Fixpoint reconnects (rounds : nat) : Js (list Z) :=
  match rounds with
  | O => ret []
  | S rounds' =>
      w <- getWorld ;;
      match timers w with
      | [] => ret []
      | (delay, _) :: _ =>
          timerFires ;;
          later <- reconnects rounds' ;;
          ret (delay :: later)
      end
  end.

End Client.

(** *** What a run shows *)

(** The events that a call adds to the run it starts from. *)
Definition added {A} (r : Run) (c : Completion A) : list Event :=
  match c with
  | Normal _ r' => drop (length (trace r)) (trace r')
  | Throw _ r' => drop (length (trace r)) (trace r')
  | Exhausted => []
  end.

(** A property of the run in which a call ends, if it ends. *)
Definition ends {A} (Q : Run -> Prop) (c : Completion A) : Prop :=
  match c with
  | Normal _ r' => Q r'
  | Throw _ r' => Q r'
  | Exhausted => True
  end.

(** [r'] continues [r] with events that all satisfy [P]. *)
Definition extends (P : Event -> Prop) (r r' : Run) : Prop :=
  exists delta, trace r' = trace r ++ delta /\ Forall P delta.

(** An event that [emit(event, data)] can add: the call of a handler of
    that event with that data, or a line on the console. *)
Definition emitted (event : string) (data : Payload) (ev : Event) : Prop :=
  (exists level text, ev = Console level text) \/
  (exists callback, ev = HandlerCalled event callback data).

(** The events of the three passes of a dispatch. *)
Definition typePass (message : Message) : Event -> Prop :=
  emitted ("ws:" +:+ msg_type message)
    (TypeData (msg_collection message) (msg_data message) (msg_id message)).

Definition collectionPass (message : Message) (ev : Event) : Prop :=
  exists collection,
    msg_collection message = Some collection /\
    emitted ("ws:" +:+ collection +:+ ":" +:+ msg_type message)
      (CollectionData (msg_data message) (msg_id message)) ev.

Definition subscriberPass (message : Message) (ev : Event) : Prop :=
  exists key callback,
    ev = SubscriberCalled key callback (messagePayload message) /\
    matches message key = true.

(** A call that keeps [Inv] on the world and adds only events that
    satisfy [P], however it ends. *)
Definition keeps {A} (Inv : World -> Prop) (P : Event -> Prop) (c : Js A) : Prop :=
  forall r, Inv (world r) ->
    ends (fun r' => Inv (world r') /\ extends P r r') (c r).

(** The fuel covers every [Map] and [Set] of the world. *)
Definition enough (fuel : nat) (w : World) : Prop :=
  length (subscriptions (this w)) < fuel /\
  forall ref, length (setEntries ref w) < fuel.

(** Several calls of [unsubscribe], one after the other. *)
Definition unsubscribeAll (removals : list (string * option string))
    (w : World) : World :=
  foldl (fun w '(collection, eventType) => unsubscribe collection eventType w)
    w removals.

(** Several calls of [off], one after the other. *)
Definition offAll (removals : list (string * Callback)) (w : World) : World :=
  foldl (fun w '(event, callback) => off event callback w) w removals.

(** The run a call starts from: nothing has happened yet. *)
Definition start (w : World) : Run := {| world := w; trace := [] |}.

Definition traceOf {A} (c : Completion A) : list Event :=
  match c with
  | Normal _ r => trace r
  | Throw _ r => trace r
  | Exhausted => []
  end.

(** The number of [fetch] calls. *)
Fixpoint fetches (events : list Event) : nat :=
  match events with
  | [] => 0
  | Fetched _ _ :: rest => S (fetches rest)
  | _ :: rest => fetches rest
  end.

(** The number of calls of [window.olamoAuth.refreshToken]. *)
Fixpoint refreshes (events : list Event) : nat :=
  match events with
  | [] => 0
  | Refreshed _ :: rest => S (refreshes rest)
  | _ :: rest => refreshes rest
  end.

(** The number of responses with status 401. *)
Fixpoint unauthorized (events : list Event) : nat :=
  match events with
  | [] => 0
  | Fetched _ (FetchResolves response) :: rest =>
      if Nat.eqb (status response) 401 then S (unauthorized rest)
      else unauthorized rest
  | _ :: rest => unauthorized rest
  end.

(** The waits between attempts, in order. *)
Fixpoint delays (events : list Event) : list Z :=
  match events with
  | [] => []
  | Slept ms :: rest => ms :: delays rest
  | _ :: rest => delays rest
  end.

(** The callbacks called, in order, without the console lines. *)
Fixpoint calls (events : list Event) : list Event :=
  match events with
  | [] => []
  | HandlerCalled event callback data :: rest =>
      HandlerCalled event callback data :: calls rest
  | SubscriberCalled key callback data :: rest =>
      SubscriberCalled key callback data :: calls rest
  | _ :: rest => calls rest
  end.

(** The number of calls of handlers of an event. *)
Fixpoint notifications (event : string) (events : list Event) : nat :=
  match events with
  | [] => 0
  | HandlerCalled event' _ _ :: rest =>
      if String.eqb event' event then S (notifications event rest)
      else notifications event rest
  | _ :: rest => notifications event rest
  end.

(** The handlers registered for an event, in the order of registration. *)
Definition handlersOf (w : World) (event : string) : list Callback :=
  match JsMap.get (eventHandlers (this w)) event with
  | Some ref => present (setEntries ref w)
  | None => []
  end.

(** The frames sent on the socket held by the object. *)
Definition framesSent (w : World) : list Frame :=
  match ws (this w) with
  | Some socket => sent socket
  | None => []
  end.

(** What one pass through the body of [makeRequest] adds to a run: one
    [fetch], and one refresh for a response with status 401. *)
Record pass (platform : Platform) (r r' : Run) (delta : list Event) : Prop := {
  pass_trace : trace r' = trace r ++ delta;
  pass_fetches : fetches delta = 1;
  pass_refreshes : refreshes delta <= unauthorized delta;
  pass_refreshes_eq :
    refreshToken platform <> None -> refreshes delta = unauthorized delta;
  pass_attempts : retryAttempts (this (world r')) = retryAttempts (this (world r));
  pass_delay : retryDelay (this (world r')) = retryDelay (this (world r))
}.

(** What a whole call adds to a run when it starts at [retryCount]. *)
Record summary (platform : Platform) (retryCount : nat) (r r' : Run)
    (delta : list Event) : Prop := {
  sum_trace : trace r' = trace r ++ delta;
  sum_fetches : fetches delta + retryCount <= retryAttempts (this (world r)) + 1;
  sum_refreshes : refreshes delta <= unauthorized delta;
  sum_refreshes_eq :
    refreshToken platform <> None -> refreshes delta = unauthorized delta
}.

(** The three passes of a dispatch, one after the other. *)
Definition threePasses (message : Message) (r r' : Run) : Prop :=
  exists byType byCollection bySubscription,
    trace r' = trace r ++ byType ++ byCollection ++ bySubscription /\
    Forall (typePass message) byType /\
    Forall (collectionPass message) byCollection /\
    Forall (subscriberPass message) bySubscription.

(** The calls of each pass when no callback changes the object. *)
Definition handlerCalls (w : World) (event : string) (data : Payload)
    : list Event :=
  map (fun cb => HandlerCalled event cb data) (handlersOf w event).

Definition typeCalls (message : Message) (w : World) : list Event :=
  handlerCalls w ("ws:" +:+ msg_type message)
    (TypeData (msg_collection message) (msg_data message) (msg_id message)).

Definition collectionCalls (message : Message) (w : World) : list Event :=
  match msg_collection message with
  | Some c =>
      if JsString.truthy c then
        handlerCalls w ("ws:" +:+ c +:+ ":" +:+ msg_type message)
          (CollectionData (msg_data message) (msg_id message))
      else []
  | None => []
  end.

Definition subscriberCalls (message : Message)
    (entries : list (string * Callback)) : list Event :=
  map (fun entry => SubscriberCalled (fst entry) (snd entry) (messagePayload message))
    (List.filter (fun entry => matches message (fst entry)) entries).

(** An event that is not the call of the callback as a handler of the
    event. *)
Definition notBy (event : string) (callback : Callback) (ev : Event) : Prop :=
  forall data, ev <> HandlerCalled event callback data.

(** An event that is not the call of a subscriber under the key. *)
Definition notFor (key : string) (ev : Event) : Prop :=
  forall callback data, ev <> SubscriberCalled key callback data.

(** No subscriber is called under the key. *)
Definition silent (key : string) (events : list Event) : Prop :=
  forall callback data, ~ In (SubscriberCalled key callback data) events.

(** The key has no subscription. *)
Definition absent (key : string) (w : World) : Prop :=
  JsMap.get (subscriptions (this w)) key = None.

(** [w] has the slots of the subscriptions and the [Set] objects of
    [w0]. *)
Definition shaped (w0 w : World) : Prop :=
  length (subscriptions (this w)) = length (subscriptions (this w0)) /\
  sets w = sets w0.

(** The delay of the reconnect that follows the [k]-th close. *)
Definition backoff (w : World) (k : nat) : Z :=
  (wsReconnectDelay (this w) * 2 ^ Z.of_nat k)%Z.

(** What an outage keeps of the world [w0] it starts in, when [attempts]
    reconnects were made. *)
Record during (w0 : World) (attempts : nat) (w : World) : Prop := {
  during_timers : timers w = [];
  during_attempts : wsReconnectAttempts (this w) = attempts;
  during_max : maxWsReconnectAttempts (this w) = maxWsReconnectAttempts (this w0);
  during_delay : wsReconnectDelay (this w) = wsReconnectDelay (this w0);
  during_handlers : eventHandlers (this w) = eventHandlers (this w0);
  during_sets : sets w = sets w0
}.

(** The requests handed to [fetch], in order. *)
Fixpoint requests (events : list Event) : list Request :=
  match events with
  | [] => []
  | Fetched request _ :: rest => request :: requests rest
  | _ :: rest => requests rest
  end.

(** The token that the object holds after the refreshes of a run that it
    starts with [token]. *)
Fixpoint lastToken (token : option string) (events : list Event) : option string :=
  match events with
  | [] => token
  | Refreshed (RefreshResolves token') :: rest => lastToken (Some token') rest
  | _ :: rest => lastToken token rest
  end.

(** Every request of the run is the request of the call with the token of
    the latest refresh before it, or with [token] when there was none. *)
Fixpoint carries (api : t) (endpoint method : string) (data : option string)
    (token : option string) (events : list Event) : Prop :=
  match events with
  | [] => True
  | Fetched request _ :: rest =>
      request = buildOptions (set_auth api token) endpoint method data /\
      carries api endpoint method data token rest
  | Refreshed (RefreshResolves token') :: rest =>
      carries api endpoint method data (Some token') rest
  | _ :: rest => carries api endpoint method data token rest
  end.

(** What a call keeps of a run that starts from the object [api] with
    [token]: the requests so far carry the latest token, and the object
    holds it. *)
Definition tokenKept (api : t) (endpoint method : string) (data : option string)
    (token : option string) (r : Run) : Prop :=
  carries api endpoint method data token (trace r) /\
  auth (this (world r)) = lastToken token (trace r) /\
  baseUrl (this (world r)) = baseUrl api.

(** The request by which [initializeCollections] checks a collection. *)
Definition checkOf (api : t) (token : string) (name : string) : Request :=
  buildOptions (set_auth api (Some token)) ("/collections/" +:+ name) "GET" None.

(** The request by which it creates one. *)
Definition creationOf (api : t) (token : string) (config : string) : Request :=
  buildOptions (set_auth api (Some token)) "/collections" "POST" (Some config).

(** A response that [makeRequest] returns the body of, and a response
    that it throws as an error without another attempt. *)
Definition accepted (response : Response) (body : Body) : Prop :=
  status response <> 401 /\ ok response = true /\ json response = JsonResolves body.

(** The error that [makeRequest] makes of a response that is not [ok]:
    [new Error(...)] with the [message] of the body or the status line, or
    the [TypeError] of reading the [message] of a [null] body. *)
Definition failureOf (response : Response) : JsError :=
  match errorDataOf response with
  | JsonNull => TypeError (nullRead "message")
  | mkBody message _ => Error (errorMessage message response)
  end.

Definition refused (response : Response) : Prop :=
  status response <> 401 /\ ok response = false /\
  isNetworkError (failureOf response) = false.

(** The request of a query for the documents of a picnic, and of a
    batch. *)
Definition queryOf (stringify : Data -> string) (api : t) (collection : string)
    (picnicId : string) (sort : list (string * string)) : Request :=
  buildOptions api ("/" +:+ collection +:+ "/query") "POST"
    (Some (stringify (PicnicQuery picnicId sort))).

Definition batchOf (stringify : Data -> string) (api : t)
    (operations : list Operation) : Request :=
  buildOptions api "/batch" "POST" (Some (stringify (BatchData operations))).

(** The three listings of [deletePicnic], in order. *)
Definition listings (stringify : Data -> string) (api : t) (picnicId : string)
    : list Request :=
  [queryOf stringify api "picnic_participants" picnicId [];
   queryOf stringify api "picnic_items" picnicId
     [("priority", "desc"); ("created_at", "asc")];
   queryOf stringify api "picnic_expenses" picnicId [("date", "desc")]].

(** The ids of the documents of an array, when none of them is
    [null]. *)
Fixpoint idsOf (documents : list Document) : option (list (option string)) :=
  match documents with
  | [] => Some []
  | NullDocument :: _ => None
  | Stored id :: rest =>
      match idsOf rest with
      | Some ids => Some (id :: ids)
      | None => None
      end
  end.

(** What [deletePicnic] makes of the body of a listing: the ids of the
    documents listed, or the [TypeError] of a body that does not list
    documents. *)
Definition listed (resultsOf : Body -> option Listing) (body : Body)
    : JsError + list (option string) :=
  match body with
  | JsonNull => inl (TypeError (nullRead "results"))
  | mkBody _ _ =>
      match resultsOf body with
      | None => inr []
      | Some NotAnArray => inl (TypeError noMap)
      | Some (Documents documents) =>
          match idsOf documents with
          | Some ids => inr ids
          | None => inl (TypeError (nullRead "id"))
          end
      end
  end.

(** How [deletePicnic] ends at a listing that fails: the server refuses
    it, or its body does not list documents. *)
Definition unlisted (resultsOf : Body -> option Listing) (response : Response)
    (error : JsError) : Prop :=
  (refused response /\ error = failureOf response) \/
  (exists body, accepted response body /\ listed resultsOf body = inl error).

(** The operations of the batch for a picnic and the documents listed. *)
Definition cascade (picnicId : string)
    (participants items expenses : list (option string)) : list Operation :=
  DeleteDocument "picnics" (Some picnicId) ::
  map (DeleteDocument "picnic_participants") participants ++
  map (DeleteDocument "picnic_items") items ++
  map (DeleteDocument "picnic_expenses") expenses.

(** [w'] is [w] with another token, or [w] itself. *)
Definition differsInToken (w w' : World) : Prop :=
  exists token, w' = set_this w (set_auth (this w) token).

(** How a step that sends requests ends: it ends, and the client differs
    from what it was in the token at most. *)
Definition settled {A} (r : Run) (c : Completion A) : Prop :=
  match c with
  | Normal _ r' => differsInToken (world r) (world r')
  | Throw _ r' => differsInToken (world r) (world r')
  | Exhausted => False
  end.

(** The socket of the object is open. *)
Definition connected (w : World) : bool :=
  match ws (this w) with
  | Some socket => isOpen socket
  | None => false
  end.

(** The [Set] objects of the handlers are in the store, one for each event,
    and hold no callback twice: what [on] and [off] keep of the world the
    constructor makes. *)
Record linked (w : World) : Prop := {
  linked_events : JsMap.wf (eventHandlers (this w));
  linked_refs : NoDup (map snd (present (eventHandlers (this w))));
  linked_store : forall event ref,
    JsMap.get (eventHandlers (this w)) event = Some ref -> ref < length (sets w);
  linked_sets : forall ref, NoDup (present (setEntries ref w))
}.

(** What a loop over the handlers of [event] keeps after the callback was
    taken off in the world [w0]. *)
Record withdrawn (w0 : World) (event : string) (callback : Callback)
    (w : World) : Prop := {
  withdrawn_linked : linked w;
  withdrawn_gone : ~ In callback (handlersOf w event);
  withdrawn_events : eventHandlers (this w) = eventHandlers (this w0);
  withdrawn_slots : forall ref, length (setEntries ref w) = length (setEntries ref w0)
}.

(** *** What callbacks may be assumed to do *)

Section Callbacks.
Variable call : Callback -> Payload -> World -> World * option JsError.

(** Callbacks that leave the object as it is and do not throw. *)
Definition quiet : Prop := forall callback data w, call callback data w = (w, None).

(** Callbacks that leave the object as it is; they may throw. *)
Definition still : Prop := forall callback data w, fst (call callback data w) = w.

(** Callbacks that do nothing to the object but unsubscribe; they may
    throw. *)
Definition unsubscribing : Prop :=
  forall callback data w,
    exists removals, fst (call callback data w) = unsubscribeAll removals w.

(** Callbacks that do nothing to the object but take handlers off;
    they may throw. *)
Definition removing : Prop :=
  forall callback data w,
    exists removals, fst (call callback data w) = offAll removals w.

(** Callbacks that leave the [Set] behind a reference as it is. *)
Definition keepsHandlers (ref : nat) : Prop :=
  forall callback data w, setEntries ref (fst (call callback data w)) = setEntries ref w.

(** Callbacks that keep a property of the world. *)
Definition preserved (Inv : World -> Prop) : Prop :=
  forall callback data w, Inv w -> Inv (fst (call callback data w)).

(** An error that some callback throws. *)
Definition thrownByCallback (error : JsError) : Prop :=
  exists callback data w, snd (call callback data w) = Some error.

End Callbacks.

End PicnicAPI.

(** ** The registry of subscriptions, as the specification words it *)

Module Registry.
Import PicnicAPI.

(** A call of [subscribe] or of [unsubscribe]. *)
Inductive Op :=
| Subscribe (collection : string) (callback : Callback) (eventType : option string)
| Unsubscribe (collection : string) (eventType : option string).

(** In the words of the specification: a subscription is a (collection
    name, optional event type) pair mapped to a callback; the last
    registration under a key wins and [unsubscribe] removes exactly that
    key. *)
Definition specStep (registry : gmap (string * option string) Callback)
    (op : Op) : gmap (string * option string) Callback :=
  match op with
  | Subscribe collection callback eventType =>
      <[(collection, eventType) := callback]> registry
  | Unsubscribe collection eventType => delete (collection, eventType) registry
  end.

Definition netEffect (ops : list Op) : gmap (string * option string) Callback :=
  foldl specStep ∅ ops.

(** The same calls made on the client. *)
Definition perform (w : World) (op : Op) : World :=
  match op with
  | Subscribe collection callback eventType =>
      fst (subscribe collection callback eventType w)
  | Unsubscribe collection eventType => unsubscribe collection eventType w
  end.

Definition performAll (w : World) (ops : list Op) : World := foldl perform w ops.

(** The callbacks that are active after the calls, by key. *)
Definition active (w : World) : list (string * Callback) :=
  present (subscriptions (this w)).

(** The names that the key of the code keeps apart: a collection name
    without [":"] and an event type that, when given, is not empty. *)
Definition plain (collection : string) (eventType : option string) : bool :=
  JsString.lacks collection ":" &&
  match eventType with
  | Some e => JsString.truthy e
  | None => true
  end.

Definition plainOp (op : Op) : bool :=
  match op with
  | Subscribe collection _ eventType => plain collection eventType
  | Unsubscribe collection eventType => plain collection eventType
  end.

(** The entries of the client agree with the registry of the
    specification on the plain names, and hold nothing else. *)
Record agrees (m : JsMap.MapData string Callback)
    (registry : gmap (string * option string) Callback) : Prop := {
  agrees_wf : JsMap.wf m;
  agrees_get : forall c e, plain c e = true ->
    JsMap.get m (subscriptionKey c e) = registry !! (c, e);
  agrees_key : forall key callback, JsMap.get m key = Some callback ->
    exists c e, plain c e = true /\ key = subscriptionKey c e
}.

(** The control frame that a call sends when the socket is open. *)
Definition frameOf (op : Op) : Frame :=
  match op with
  | Subscribe collection _ eventType => mkFrame "subscribe" collection eventType
  | Unsubscribe collection eventType => mkFrame "unsubscribe" collection eventType
  end.

End Registry.

(** ** The application, [PicnicApp], where it uses the client *)

Module PicnicApp.
Import PicnicAPI.

(** The arrow functions that [setupRealTimeFeatures] hands to the client. *)
Record Handlers := mkHandlers {
  picnicUpdate : Callback;
  participantUpdate : Callback;
  itemUpdate : Callback;
  expenseUpdate : Callback;
  connectedToast : Callback;
  disconnectedToast : Callback
}.

(** [setupRealTimeFeatures()]. *)
Definition setupRealTimeFeatures (handlers : Handlers) (w : World) : World :=
  let w1 := fst (subscribe "picnics" (picnicUpdate handlers) None w) in
  let w2 := fst (subscribe "picnic_participants" (participantUpdate handlers) None w1) in
  let w3 := fst (subscribe "picnic_items" (itemUpdate handlers) None w2) in
  let w4 := fst (subscribe "picnic_expenses" (expenseUpdate handlers) None w3) in
  let w5 := on "ws:connected" (connectedToast handlers) w4 in
  on "ws:disconnected" (disconnectedToast handlers) w5.

(** The subscriptions that [setupRealTimeFeatures] makes, in order. *)
Definition feeds (handlers : Handlers) : list (string * Callback) :=
  [("picnics", picnicUpdate handlers);
   ("picnic_participants", participantUpdate handlers);
   ("picnic_items", itemUpdate handlers);
   ("picnic_expenses", expenseUpdate handlers)].

End PicnicApp.

(** ** The todo app's client, [TodoAPI] *)

Module TodoAPI.

(** The values a field of a document can hold. *)
Inductive JsValue :=
| Undefined
| Null
| Boolean (b : bool)
| Number (n : Z)
| NaN
| Text (s : string)
| Object.

(** [ToBoolean]. *)
Definition truthy (v : JsValue) : bool :=
  match v with
  | Undefined | Null | NaN => false
  | Boolean b => b
  | Number n => negb (Z.eqb n 0)
  | Text s => JsString.truthy s
  | Object => true
  end.

Module Todo.
Record t := mk {
  id : string;
  title : string;
  completed : JsValue;
  priority : string
}.
End Todo.

(** A parsed body: [null], or any other value, by the fields the client
    reads. *)
Inductive Body :=
| JsonNull
| mkBody (body_message : option string) (documents : option (list Todo.t)).

Inductive JsonOutcome := JsonResolves (body : Body) | JsonRejects (error : JsError).

Record Response := mkResponse {
  status : nat;
  ok : bool;
  statusText : string;
  json : JsonOutcome
}.

Inductive FetchOutcome :=
| FetchResolves (response : Response)
| FetchRejects (error : JsError).

(** A settled promise. *)
Inductive Promise (A : Type) := Resolved (a : A) | Rejected (error : JsError).

Arguments Resolved {A} a.
Arguments Rejected {A} error.

Definition andThen {A B} (p : Promise A) (k : A -> Promise B) : Promise B :=
  match p with
  | Resolved a => k a
  | Rejected error => Rejected error
  end.

(** The number of elements of a list that satisfy a test. *)
Fixpoint countWhere {A : Type} (test : A -> bool) (l : list A) : nat :=
  match l with
  | [] => 0
  | x :: l' => (if test x then 1 else 0) + countWhere test l'
  end.

(** The object returned by [getTodoStats]. *)
Record Stats := mkStats { total : nat; completed : nat; pending : nat }.

Section Client.

(** How the server answers the request. *)
Variable fetch : string -> string -> FetchOutcome.

Definition collectionName : string := "todos".
Definition baseUrl : string := "/api".

Definition makeRequest (endpoint method : string) : Promise Body :=
  match fetch (baseUrl +:+ endpoint) method with
  | FetchRejects error => Rejected error
  | FetchResolves response =>
      if negb (ok response) then
        let errorData :=
          match json response with
          | JsonResolves body => body
          | JsonRejects _ => mkBody None None
          end in
        let fallback :=
          "HTTP " +:+ JsString.ofNat (status response) +:+ ": " +:+ statusText response in
        match errorData with
        | JsonNull => Rejected (TypeError (nullRead "message"))
        | mkBody message _ =>
            Rejected (Error (match message with
                             | Some m => if JsString.truthy m then m else fallback
                             | None => fallback
                             end))
        end
      else
        match json response with
        | JsonResolves body => Resolved body
        | JsonRejects error => Rejected error
        end
  end.

(** [response.documents || []]: reading a property of [null] throws. *)
Definition getTodos : Promise (list Todo.t) :=
  andThen (makeRequest ("/collections/" +:+ collectionName +:+ "/documents") "GET")
    (fun response =>
       match response with
       | JsonNull => Rejected (TypeError (nullRead "documents"))
       | mkBody _ documents => Resolved (default [] documents)
       end).

Definition getTodoStats : Promise Stats :=
  andThen getTodos (fun todos =>
    Resolved
      {| total := length todos;
         completed :=
           length (List.filter (fun todo => truthy (Todo.completed todo)) todos);
         pending :=
           length (List.filter (fun todo => negb (truthy (Todo.completed todo))) todos) |}).

(** [getFilteredTodos(filter)]. *)
Definition getFilteredTodos (filter : string) : Promise (list Todo.t) :=
  andThen getTodos (fun todos =>
    Resolved
      (if String.eqb filter "completed" then
         List.filter (fun todo => truthy (Todo.completed todo)) todos
       else if String.eqb filter "pending" then
         List.filter (fun todo => negb (truthy (Todo.completed todo))) todos
       else todos)).

End Client.

End TodoAPI.

(** ** Scenarios *)

Import PicnicAPI.

(** The world of a client that was just built. *)
Definition blank : World := {| this := constructor; sets := []; timers := [] |}.

(** Callbacks that do nothing. *)
Definition inert : Callback -> Payload -> World -> World * option JsError :=
  fun _ _ w => (w, None).

Definition unauthorizedResponse : Response :=
  {| status := 401; ok := false; statusText := "Unauthorized";
     json := JsonResolves (mkBody None "{}") |}.

Definition okResponse : Response :=
  {| status := 200; ok := true; statusText := "OK";
     json := JsonResolves (mkBody None "[]") |}.

(** The server rejects every token; the provider hands out a new token at
    every refresh. *)
Definition expired : Platform :=
  {| fetch := fun _ _ => FetchResolves unauthorizedResponse;
     refreshToken :=
       Some (fun history =>
               RefreshResolves ("token-" +:+ JsString.ofNat (refreshes history)));
     wsOrigin := "ws://localhost";
     webSocketError := fun _ => None |}.

(** The server rejects the first two tokens and accepts the third. *)
Definition twiceRejected : Platform :=
  {| fetch := fun history _ =>
       if Nat.ltb (fetches history) 2 then FetchResolves unauthorizedResponse
       else FetchResolves okResponse;
     refreshToken :=
       Some (fun history =>
               RefreshResolves ("token-" +:+ JsString.ofNat (refreshes history)));
     wsOrigin := "ws://localhost";
     webSocketError := fun _ => None |}.

(** The network is down: [fetch] rejects as browsers do. *)
Definition offline : Platform :=
  {| fetch := fun _ _ => FetchRejects (mkError "TypeError" "Failed to fetch");
     refreshToken := None;
     wsOrigin := "ws://localhost";
     webSocketError := fun _ => None |}.

(** The network fails twice and then the server answers. *)
Definition unsteady : Platform :=
  {| fetch := fun history _ =>
       if Nat.ltb (fetches history) 2
       then FetchRejects (mkError "TypeError" "Failed to fetch")
       else FetchResolves okResponse;
     refreshToken := None;
     wsOrigin := "ws://localhost";
     webSocketError := fun _ => None |}.

(** The network is down, and the error of each attempt says which attempt
    it was. *)
Definition shaky : Platform :=
  {| fetch := fun history _ =>
       FetchRejects
         (mkError "TypeError"
            ("Failed to fetch (attempt " +:+ JsString.ofNat (fetches history + 1) +:+ ")"));
     refreshToken := None;
     wsOrigin := "ws://localhost";
     webSocketError := fun _ => None |}.

(** A client whose socket is still connecting, with one subscription and
    one handler of ["ws:disconnected"]. *)
Definition connecting : World :=
  on "ws:disconnected" 7
    (fst (subscribe "picnics" 1 None
       (set_this blank (set_ws constructor
          (Some {| url := "ws://localhost/ws?token=null";
                   readyState := CONNECTING; sent := [] |}))))).

(** The message of the example in the specification. *)
Definition deletion : Message :=
  {| msg_type := "document_deleted"; msg_collection := Some "todos";
     msg_data := None; msg_id := Some "abc" |}.

(** Two registrations whose keys are the same string. *)
Definition colliding : list Registry.Op :=
  [Registry.Subscribe "picnics:document_created" 1 None;
   Registry.Subscribe "picnics" 2 (Some "document_created")].

(** A registration with an empty event type and a removal without one:
    the same key again. *)
Definition emptyType : list Registry.Op :=
  [Registry.Subscribe "picnics" 1 (Some "");
   Registry.Unsubscribe "picnics" None].

(** Registrations and removals under plain names. *)
Definition ordinary : list Registry.Op :=
  [Registry.Subscribe "picnics" 1 None;
   Registry.Subscribe "picnics" 2 (Some "document_created");
   Registry.Subscribe "picnics" 3 None;
   Registry.Unsubscribe "picnics" (Some "document_created");
   Registry.Subscribe "picnic_items" 4 None].

(** Callback 1 removes the subscription of callback 2 when it is called. *)
Definition pruning : Callback -> Payload -> World -> World * option JsError :=
  fun callback _ w =>
    if Nat.eqb callback 1 then (unsubscribe "todos" (Some "document_deleted") w, None)
    else (w, None).

(** Subscriptions of callbacks 1, 2 and 3, in this order. *)
Definition watched : World :=
  fst (subscribe "todos" 3 (Some "document_updated")
    (fst (subscribe "todos" 2 (Some "document_deleted")
       (fst (subscribe "todos" 1 None blank))))).

(** Callback 1 throws. *)
Definition faulty : Callback -> Payload -> World -> World * option JsError :=
  fun callback _ w =>
    if Nat.eqb callback 1 then (w, Some (Error "handler failed")) else (w, None).

(** Handlers of the two events of [deletion] and subscriptions to two
    collections. *)
Definition observed : World :=
  on "ws:todos:document_deleted" 20
    (on "ws:document_deleted" 10
       (fst (subscribe "picnics" 2 None (fst (subscribe "todos" 1 None blank))))).

(** Handlers 1, 2 and 3 of the event ["changed"]. *)
Definition listened : World := on "changed" 3 (on "changed" 2 (on "changed" 1 blank)).

(** Three todos, one of them done. *)
Definition sampleTodos : string -> string -> TodoAPI.FetchOutcome :=
  fun _ _ =>
    TodoAPI.FetchResolves
      {| TodoAPI.status := 200; TodoAPI.ok := true; TodoAPI.statusText := "OK";
         TodoAPI.json :=
           TodoAPI.JsonResolves
             (TodoAPI.mkBody None
                (Some [TodoAPI.Todo.mk "1" "milk" (TodoAPI.Boolean true) "low";
                       TodoAPI.Todo.mk "2" "bread" (TodoAPI.Boolean false) "high";
                       TodoAPI.Todo.mk "3" "eggs" TodoAPI.Undefined "medium"])) |}.

(** The server of the todos answers with the body [null]. *)
Definition nullTodos : string -> string -> TodoAPI.FetchOutcome :=
  fun _ _ =>
    TodoAPI.FetchResolves
      {| TodoAPI.status := 200; TodoAPI.ok := true; TodoAPI.statusText := "OK";
         TodoAPI.json := TodoAPI.JsonResolves TodoAPI.JsonNull |}.

(** The server rejects every token and the provider cannot renew it. *)
Definition lapsed : Platform :=
  {| fetch := fun _ _ => FetchResolves unauthorizedResponse;
     refreshToken := Some (fun _ => RefreshRejects (Error "Session expired"));
     wsOrigin := "ws://localhost";
     webSocketError := fun _ => None |}.

(** The server rejects every token and the platform has no
    [refreshToken]. *)
Definition unattended : Platform :=
  {| fetch := fun _ _ => FetchResolves unauthorizedResponse;
     refreshToken := None;
     wsOrigin := "ws://localhost";
     webSocketError := fun _ => None |}.

(** A gateway that cannot reach the server says so in the text of its
    error. *)
Definition gatewayResponse : Response :=
  {| status := 502; ok := false; statusText := "Bad Gateway";
     json := JsonResolves (mkBody (Some "upstream fetch failed") "{}") |}.

Definition gateway : Platform :=
  {| fetch := fun _ _ => FetchResolves gatewayResponse;
     refreshToken := None;
     wsOrigin := "ws://localhost";
     webSocketError := fun _ => None |}.

(** A server that fails, with a body that is not JSON. *)
Definition failingResponse : Response :=
  {| status := 500; ok := false; statusText := "Internal Server Error";
     json := JsonRejects (mkError "SyntaxError" "Unexpected end of JSON input") |}.

Definition failing : Platform :=
  {| fetch := fun _ _ => FetchResolves failingResponse;
     refreshToken := None;
     wsOrigin := "ws://localhost";
     webSocketError := fun _ => None |}.

(** A server that fails, with the body [null]. *)
Definition voidResponse : Response :=
  {| status := 500; ok := false; statusText := "Internal Server Error";
     json := JsonResolves JsonNull |}.

Definition void : Platform :=
  {| fetch := fun _ _ => FetchResolves voidResponse;
     refreshToken := None;
     wsOrigin := "ws://localhost";
     webSocketError := fun _ => None |}.

(** A server that rejects every token with the body [null]; the provider
    hands out a new token at every refresh. *)
Definition bareResponse : Response :=
  {| status := 401; ok := false; statusText := "Unauthorized";
     json := JsonResolves JsonNull |}.

Definition bare : Platform :=
  {| fetch := fun _ _ => FetchResolves bareResponse;
     refreshToken :=
       Some (fun history =>
               RefreshResolves ("token-" +:+ JsString.ofNat (refreshes history)));
     wsOrigin := "ws://localhost";
     webSocketError := fun _ => None |}.

(** A server without collections that says so with the body [null]. *)
Definition hollowResponse : Response :=
  {| status := 404; ok := false; statusText := "Not Found";
     json := JsonResolves JsonNull |}.

Definition hollow : Platform :=
  {| fetch := fun _ _ => FetchResolves hollowResponse;
     refreshToken := None;
     wsOrigin := "ws://localhost";
     webSocketError := fun _ => None |}.

(** A server that knows every collection. *)
Definition known : Platform :=
  {| fetch := fun _ _ => FetchResolves okResponse;
     refreshToken := None;
     wsOrigin := "ws://localhost";
     webSocketError := fun _ => None |}.

(** A server without collections that lets nobody create one. *)
Definition missingResponse : Response :=
  {| status := 404; ok := false; statusText := "Not Found";
     json := JsonResolves (mkBody None "{}") |}.

Definition forbiddenResponse : Response :=
  {| status := 403; ok := false; statusText := "Forbidden";
     json := JsonResolves (mkBody (Some "Insufficient permissions") "{}") |}.

Definition readOnly : Platform :=
  {| fetch := fun _ request =>
       FetchResolves
         (if String.eqb (req_method request) "GET" then missingResponse
          else forbiddenResponse);
     refreshToken := None;
     wsOrigin := "ws://localhost";
     webSocketError := fun _ => None |}.

(** A browser that refuses to make the socket. *)
Definition walled : Platform :=
  {| fetch := fun _ _ => FetchResolves okResponse;
     refreshToken := None;
     wsOrigin := "ws://localhost";
     webSocketError :=
       fun _ => Some (mkError "SecurityError" "The operation is insecure.") |}.

(** The platform hands out a token. *)
Definition provided : Window :=
  {| getToken := Some (TokenReturns "token-of-the-platform");
     hostname := "app.olamo.example" |}.

(** No token from the platform, and the page is not served from the
    developer's machine. *)
Definition unprovided : Window :=
  {| getToken := None; hostname := "app.olamo.example" |}.

(** A client that has reconnected three times; its socket is not open
    yet. *)
Definition worn : World :=
  set_this blank
    (set_wsReconnectAttempts
       (set_ws constructor
          (Some {| url := "ws://localhost/ws?token=null"; readyState := CONNECTING;
                   sent := [] |}))
       3).

(** The same client with two subscriptions and a handler of
    ["ws:connected"]. *)
Definition resumed : World :=
  on "ws:connected" 9
    (fst (subscribe "picnic_items" 2 (Some "document_updated")
       (fst (subscribe "picnics" 1 None worn)))).

(** Configurations, told apart by the name of the collection. *)
Definition sampleConfig : string -> string := fun name => "config:" +:+ name.

(** A client right after [connectWebSocket]: the socket is there and not
    open yet. *)
Definition dialing : World :=
  set_this blank (set_ws constructor
    (Some {| url := "ws://localhost/ws?token=null";
             readyState := CONNECTING; sent := [] |})).

(** The callbacks of the application. *)
Definition appHandlers : PicnicApp.Handlers := PicnicApp.mkHandlers 1 2 3 4 5 6.

(** A message about an item. *)
Definition itemAssigned : Message :=
  {| msg_type := "document_updated"; msg_collection := Some "picnic_items";
     msg_data := Some "assigned"; msg_id := Some "item-7" |}.

(** Calls on a socket: two registrations under one key and a removal of
    a key that was never registered. *)
Definition repeated : list Registry.Op :=
  [Registry.Subscribe "picnics" 1 None;
   Registry.Subscribe "picnics" 2 None;
   Registry.Unsubscribe "picnic_items" None].

(** A way to write the data of a request, and to read the [results] of a
    body from its text: the ids of the documents, separated by commas,
    where [null] stands for a document that is [null]; an empty text for
    a body without [results]; and [{}] for [results] that are an object
    and no array. *)
Definition render (data : Data) : string :=
  match data with
  | PicnicQuery picnicId _ => "query:" +:+ picnicId
  | BatchData operations => "batch:" +:+ JsString.ofNat (length operations)
  end.

Definition documentsOf (body : Body) : option Listing :=
  match body with
  | JsonNull => None
  | mkBody _ text =>
      if String.eqb text "{}" then Some NotAnArray
      else if JsString.truthy text then
        Some (Documents
                (map (fun id => if String.eqb id "null" then NullDocument
                                else Stored (Some id))
                   (JsString.split text ",")))
      else None
  end.

Definition found (text : string) : Response :=
  {| status := 200; ok := true; statusText := "OK";
     json := JsonResolves (mkBody None text) |}.

(** A server with two participants and one expense of the picnic; its
    answer about the items has no [results]. *)
Definition archive (request : Request) : Response :=
  if JsString.includes (req_url request) "picnic_participants" then found "p1,p2"
  else if JsString.includes (req_url request) "picnic_items" then found ""
  else if JsString.includes (req_url request) "picnic_expenses" then found "e1"
  else found "deleted".

Definition archived : Platform :=
  {| fetch := fun _ request => FetchResolves (archive request);
     refreshToken := None;
     wsOrigin := "ws://localhost";
     webSocketError := fun _ => None |}.

(** The same server when it does not let the items be listed. *)
Definition guarded (request : Request) : Response :=
  if JsString.includes (req_url request) "picnic_items" then forbiddenResponse
  else archive request.

Definition guardedArchive : Platform :=
  {| fetch := fun _ request => FetchResolves (guarded request);
     refreshToken := None;
     wsOrigin := "ws://localhost";
     webSocketError := fun _ => None |}.

(** The same server when it answers the listing of the items with the
    body [null]. *)
Definition emptied (request : Request) : Response :=
  if JsString.includes (req_url request) "picnic_items" then
    {| status := 200; ok := true; statusText := "OK"; json := JsonResolves JsonNull |}
  else archive request.

Definition emptiedArchive : Platform :=
  {| fetch := fun _ request => FetchResolves (emptied request);
     refreshToken := None;
     wsOrigin := "ws://localhost";
     webSocketError := fun _ => None |}.

(** The same server when the [results] of the expenses are an object, and
    when the second participant is [null]. *)
Definition muddled (request : Request) : Response :=
  if JsString.includes (req_url request) "picnic_expenses" then found "{}"
  else archive request.

Definition muddledArchive : Platform :=
  {| fetch := fun _ request => FetchResolves (muddled request);
     refreshToken := None;
     wsOrigin := "ws://localhost";
     webSocketError := fun _ => None |}.

Definition torn (request : Request) : Response :=
  if JsString.includes (req_url request) "picnic_participants" then found "p1,null"
  else archive request.

Definition tornArchive : Platform :=
  {| fetch := fun _ request => FetchResolves (torn request);
     refreshToken := None;
     wsOrigin := "ws://localhost";
     webSocketError := fun _ => None |}.

(** Callback 1 takes callback 2 off the event when it is called. *)
Definition withdrawing : Callback -> Payload -> World -> World * option JsError :=
  fun callback _ w =>
    if Nat.eqb callback 1 then (off "changed" 2 w, None) else (w, None).

(** ** The claims that fail, as the specification states them *)

(** One refresh and one replay at most for each original call. *)
Definition refreshesOnce (platform : Platform) (w : World)
    (endpoint method : string) (data : option string) : Prop :=
  forall fuel,
    let out := makeRequest platform fuel endpoint method data 0 (start w) in
    refreshes (traceOf out) <= 1 /\ fetches (traceOf out) <= 2.

(** Three attempts in all for a call that fails in transport. *)
Definition threeAttemptsInAll (platform : Platform) (w : World)
    (endpoint method : string) (data : option string) : Prop :=
  forall fuel,
    fetches (traceOf (makeRequest platform fuel endpoint method data 0 (start w))) <= 3.

(** When the socket opens, one frame is sent for each subscription. *)
Definition resendsSubscriptions
    (call : Callback -> Payload -> World -> World * option JsError)
    (fuel : nat) (w : World) : Prop :=
  ends (fun r' =>
          length (framesSent (world r')) =
          length (framesSent w) + JsMap.size (subscriptions (this w)))
    (socketOpens call fuel (start w)).

(** In an outage that uses up the reconnects, the handlers of
    ["ws:disconnected"] are notified once. *)
Definition notifiedOnce (platform : Platform)
    (call : Callback -> Payload -> World -> World * option JsError)
    (fuel : nat) (w : World) : Prop :=
  ends (fun r' => notifications "ws:disconnected" (trace r') = 1)
    (outage platform call fuel (S (maxWsReconnectAttempts (this w))) (start w)).

(** The active callbacks are those of the registry of the specification,
    for all names. *)
Definition refinesRegistry (w : World) (ops : list Registry.Op) : Prop :=
  forall key callback,
    In (key, callback) (Registry.active (Registry.performAll w ops)) <->
    exists collection eventType,
      key = subscriptionKey collection eventType /\
      Registry.netEffect ops !! (collection, eventType) = Some callback.

(** The callback registered by [subscribe(collection, callback, eventType)]
    is called only for messages of that collection and, when an event type
    is given, of that type. *)
Definition firesOnlyOnMatch
    (call : Callback -> Payload -> World -> World * option JsError)
    (fuel : nat) (w : World) (collection : string) (eventType : option string)
    (callback : Callback) (message : Message) : Prop :=
  let w' := fst (subscribe collection callback eventType w) in
  let out := handleWebSocketMessage call fuel message (start w') in
  forall data,
    In (SubscriberCalled (subscriptionKey collection eventType) callback data)
      (added (start w') out) ->
    msg_collection message = Some collection /\
    (eventType = None \/ eventType = Some (msg_type message)).

(** * Proofs *)

Import Registry.

(** ** Strings *)

Lemma split_nonempty s sep : JsString.split s sep <> [].
Proof.
  destruct s as [|c s]; simpl; [discriminate|].
  destruct (Ascii.eqb c sep); [discriminate|].
  destruct (JsString.split s sep); discriminate.
Qed.

Lemma split_lacks s sep : JsString.lacks s sep = true -> JsString.split s sep = [s].
Proof.
  induction s as [|c s IH]; simpl; [reflexivity|].
  intros H. apply andb_prop in H as [Hc Hs].
  apply negb_true_iff in Hc. rewrite Hc, (IH Hs). reflexivity.
Qed.

Lemma split_app_sep s t sep :
  JsString.lacks s sep = true ->
  JsString.split (s +:+ String sep t) sep = s :: JsString.split t sep.
Proof.
  induction s as [|c s IH]; simpl.
  - intros _. rewrite Ascii.eqb_refl. reflexivity.
  - intros H. apply andb_prop in H as [Hc Hs].
    apply negb_true_iff in Hc. rewrite Hc, (IH Hs). reflexivity.
Qed.

Lemma lacks_app_sep s t sep : JsString.lacks (s +:+ String sep t) sep = false.
Proof.
  induction s as [|c s IH]; simpl.
  - rewrite Ascii.eqb_refl. reflexivity.
  - rewrite IH. apply andb_false_r.
Qed.

Lemma app_sep_inj s1 t1 s2 t2 sep :
  JsString.lacks s1 sep = true -> JsString.lacks s2 sep = true ->
  s1 +:+ String sep t1 = s2 +:+ String sep t2 -> s1 = s2 /\ t1 = t2.
Proof.
  revert s2. induction s1 as [|a s1 IH]; intros [|b s2]; simpl.
  - intros _ _ H. injection H as ->. split; reflexivity.
  - intros _ H2 H. injection H as <- _.
    rewrite Ascii.eqb_refl in H2. discriminate.
  - intros H1 _ H. injection H as -> _.
    rewrite Ascii.eqb_refl in H1. discriminate.
  - intros H1 H2 H. injection H as -> H.
    apply andb_prop in H1 as [_ H1]. apply andb_prop in H2 as [_ H2].
    destruct (IH s2 H1 H2 H) as [-> ->]. split; reflexivity.
Qed.

(** ** Traces *)

Lemma fetches_app a b : fetches (a ++ b) = fetches a + fetches b.
Proof. induction a as [|[] a IH]; simpl; lia. Qed.

Lemma refreshes_app a b : refreshes (a ++ b) = refreshes a + refreshes b.
Proof. induction a as [|[] a IH]; simpl; lia. Qed.

Lemma unauthorized_app a b : unauthorized (a ++ b) = unauthorized a + unauthorized b.
Proof.
  induction a as [|[] a IH]; simpl; try lia.
  destruct outcome; [destruct (Nat.eqb _ _)|]; lia.
Qed.

Lemma delays_app a b : delays (a ++ b) = delays a ++ delays b.
Proof. induction a as [|[] a IH]; simpl; congruence. Qed.

Lemma calls_app a b : calls (a ++ b) = calls a ++ calls b.
Proof. induction a as [|[] a IH]; simpl; congruence. Qed.

Lemma extends_refl P r : extends P r r.
Proof. exists []. rewrite app_nil_r. split; [reflexivity|constructor]. Qed.

Lemma extends_trans P r1 r2 r3 : extends P r1 r2 -> extends P r2 r3 -> extends P r1 r3.
Proof.
  intros (d1 & H1 & F1) (d2 & H2 & F2). exists (d1 ++ d2). split.
  - rewrite H2, H1, app_assoc. reflexivity.
  - apply Forall_app. split; assumption.
Qed.

Lemma extends_weaken (P Q : Event -> Prop) r r' :
  (forall ev, P ev -> Q ev) -> extends P r r' -> extends Q r r'.
Proof.
  intros HPQ (d & H & F). exists d. split; [exact H|].
  eapply Forall_impl; eassumption.
Qed.

Lemma added_extends {A} P r (c : Completion A) :
  ends (extends P r) c -> Forall P (added r c).
Proof.
  destruct c as [a r'|e r'|]; simpl; [| |constructor];
    intros (delta & -> & HP); rewrite drop_app_length; exact HP.
Qed.

Lemma keeps_bind {A B} Inv P (c : Js A) (k : A -> Js B) :
  keeps Inv P c -> (forall a, keeps Inv P (k a)) -> keeps Inv P (bind c k).
Proof.
  intros Hc Hk r HI. unfold bind. specialize (Hc r HI).
  destruct (c r) as [a r1|e r1|]; simpl in *; [|exact Hc|exact I].
  destruct Hc as [HI1 Hext1]. specialize (Hk a r1 HI1).
  destruct (k a r1) as [b r2|e r2|]; simpl in *; [| |exact I];
    (split; [apply Hk|eapply extends_trans; [exact Hext1|apply Hk]]).
Qed.

Lemma keeps_ret {A} Inv P (a : A) : keeps Inv P (ret a).
Proof. intros r HI. simpl. split; [exact HI|apply extends_refl]. Qed.

Lemma keeps_weaken {A} Inv (P Q : Event -> Prop) (c : Js A) :
  (forall ev, P ev -> Q ev) -> keeps Inv P c -> keeps Inv Q c.
Proof.
  intros HPQ Hc r HI. specialize (Hc r HI).
  destruct (c r); simpl in *; try exact I;
    (split; [apply Hc|eapply extends_weaken; [exact HPQ|apply Hc]]).
Qed.

(** ** Requests: token refresh and retries *)

Ltac unfold_js :=
  unfold attempt, buildOptions, handleAuthError, awaitFetch, awaitJson, awaitRefresh,
    readMessage, sleep, console, record, modify, getThis, getWorld, ret, throw, bind,
    try_catch.

Lemma requests_app xs ys : requests (xs ++ ys) = requests xs ++ requests ys.
Proof.
  induction xs as [|[] xs IH]; simpl; rewrite ?IH; reflexivity.
Qed.

Lemma lastToken_app token xs ys :
  lastToken token (xs ++ ys) = lastToken (lastToken token xs) ys.
Proof.
  revert token. induction xs as [|[| [] | | | |] xs IH]; intros tok; simpl;
    rewrite ?IH; reflexivity.
Qed.

Lemma carries_app api endpoint method data xs ys : forall token,
  carries api endpoint method data token (xs ++ ys) <->
  carries api endpoint method data token xs /\
  carries api endpoint method data (lastToken token xs) ys.
Proof.
  induction xs as [|[| [] | | | |] xs IH]; intros tok; simpl; rewrite ?IH; tauto.
Qed.

Section Tokens.
Variable platform : Platform.
Variable api0 : t.
Variable endpoint method : string.
Variable data : option string.
Variable token0 : option string.

Lemma attempt_tokenKept retryCount r :
  tokenKept api0 endpoint method data token0 r ->
  ends (tokenKept api0 endpoint method data token0)
    (attempt platform endpoint method data retryCount r).
Proof.
  intros (Hcarries & Hauth & Hbase).
  assert (Hrequest :
            buildOptions (this (world r)) endpoint method data =
            buildOptions (set_auth api0 (lastToken token0 (trace r))) endpoint method data).
  { unfold buildOptions. simpl. rewrite Hauth, Hbase. reflexivity. }
  unfold tokenKept.
  unfold attempt, handleAuthError, awaitFetch, awaitJson, awaitRefresh, readMessage,
    sleep, console, record, modify, getThis, getWorld, ret, throw, bind, try_catch.
  destruct r as [w events]; simpl in *.
  repeat match goal with
         | |- context [match ?x with _ => _ end] =>
             lazymatch x with
             | context [match _ with _ => _ end] => fail
             | _ => destruct x eqn:?; simpl
             end
         end.
  all: rewrite <- ?app_assoc; simpl;
       rewrite ?carries_app, ?lastToken_app; simpl;
       rewrite ?Hrequest; auto 10.
Qed.

Lemma makeRequest_tokenKept fuel : forall retryCount r,
  tokenKept api0 endpoint method data token0 r ->
  ends (tokenKept api0 endpoint method data token0)
    (makeRequest platform fuel endpoint method data retryCount r).
Proof.
  induction fuel as [|fuel IH]; intros retryCount r Hkept; [exact I|].
  simpl. unfold bind.
  pose proof (attempt_tokenKept retryCount r Hkept) as Hpass.
  destruct (attempt platform endpoint method data retryCount r) as [[body|] r1|e r1|];
    simpl in *; auto.
Qed.

End Tokens.

(** One call that is answered at once, by a response or by an error that
    is not retried. *)
Section Answered.
Variable platform : Platform.
Variable response : Response.
Variables endpoint method : string.
Variable data : option string.
Variable retryCount : nat.
Variable r : Run.
Hypothesis answered :
  fetch platform (trace r) (buildOptions (this (world r)) endpoint method data) =
    FetchResolves response.
Hypothesis other_status : status response <> 401.

Lemma makeRequest_accepted fuel body :
  ok response = true ->
  json response = JsonResolves body ->
  makeRequest platform (S fuel) endpoint method data retryCount r =
    Normal body
      {| world := world r;
         trace := trace r ++
           [Fetched (buildOptions (this (world r)) endpoint method data)
              (FetchResolves response)] |}.
Proof.
  intros Hok Hjson. simpl. unfold_js. simpl.
  unfold buildOptions in answered. rewrite answered. simpl.
  apply Nat.eqb_neq in other_status. rewrite other_status. simpl.
  rewrite Hok. simpl. rewrite Hjson. reflexivity.
Qed.

Lemma makeRequest_refused_once fuel :
  ok response = false ->
  isNetworkError (failureOf response) = false ->
  makeRequest platform (S fuel) endpoint method data retryCount r =
    Throw (failureOf response)
      {| world := world r;
         trace := trace r ++
           [Fetched (buildOptions (this (world r)) endpoint method data)
              (FetchResolves response)] |}.
Proof.
  intros Hok Hfinal. simpl. unfold_js. simpl.
  unfold buildOptions in answered. rewrite answered. simpl.
  apply Nat.eqb_neq in other_status. rewrite other_status. simpl.
  rewrite Hok. simpl. unfold failureOf, errorDataOf in *.
  destruct (json response) as [[|message text]|error]; simpl in *;
    rewrite Hfinal, andb_false_r; reflexivity.
Qed.

End Answered.

Section Requests.
Variable platform : Platform.

(** Every way through the body of [makeRequest] sends one request and
    refreshes the token once when the answer is 401; it asks for another
    pass only below the bound. *)
Lemma attempt_pass endpoint method data retryCount r :
  match attempt platform endpoint method data retryCount r with
  | Normal a r' =>
      (exists delta, pass platform r r' delta) /\
      (a = Again -> retryCount < retryAttempts (this (world r)))
  | Throw _ r' => exists delta, pass platform r r' delta
  | Exhausted => False
  end.
Proof.
  unfold attempt, buildOptions, bind, try_catch, getThis, awaitFetch, handleAuthError,
    awaitJson, awaitRefresh, readMessage, sleep, console, record, modify, ret, throw,
    bind, try_catch.
  destruct r as [w t]; simpl.
  repeat match goal with
         | |- context [match ?x with _ => _ end] =>
             lazymatch x with
             | context [match _ with _ => _ end] => fail
             | _ => destruct x eqn:?; simpl
             end
         end.
  all: try match goal with
         | |- _ /\ _ =>
             split;
             [| first [ discriminate
                      | intros _;
                        repeat match goal with
                               | H : (_ && _) = true |- _ => apply andb_prop in H as [? ?]
                               end;
                        match goal with
                        | H : Nat.ltb _ _ = true |- _ => apply Nat.ltb_lt in H; exact H
                        end ] ]
         end.
  all: eexists; split;
       [ simpl; rewrite <- ?app_assoc; simpl; reflexivity | .. ]; simpl;
       repeat match goal with H : Nat.eqb _ 401 = _ |- _ => rewrite H end;
       try reflexivity; try lia; try congruence.
Qed.

Lemma pass_then_summary retryCount r r1 r2 d1 d2 :
  pass platform r r1 d1 ->
  summary platform (retryCount + 1) r1 r2 d2 ->
  summary platform retryCount r r2 (d1 ++ d2).
Proof.
  intros Hpass Hsum. split.
  - rewrite (sum_trace _ _ _ _ _ Hsum), (pass_trace _ _ _ _ Hpass), app_assoc.
    reflexivity.
  - rewrite fetches_app, (pass_fetches _ _ _ _ Hpass).
    pose proof (sum_fetches _ _ _ _ _ Hsum) as H.
    rewrite (pass_attempts _ _ _ _ Hpass) in H. lia.
  - rewrite refreshes_app, unauthorized_app.
    pose proof (pass_refreshes _ _ _ _ Hpass).
    pose proof (sum_refreshes _ _ _ _ _ Hsum). lia.
  - intros H. rewrite refreshes_app, unauthorized_app.
    rewrite (pass_refreshes_eq _ _ _ _ Hpass H), (sum_refreshes_eq _ _ _ _ _ Hsum H).
    reflexivity.
Qed.

Lemma pass_summary retryCount r r1 d1 :
  retryCount <= retryAttempts (this (world r)) ->
  pass platform r r1 d1 -> summary platform retryCount r r1 d1.
Proof.
  intros Hle Hpass. split.
  - apply Hpass.
  - rewrite (pass_fetches _ _ _ _ Hpass). lia.
  - apply Hpass.
  - apply Hpass.
Qed.

Lemma makeRequest_summary fuel endpoint method data : forall retryCount r,
  retryCount <= retryAttempts (this (world r)) ->
  retryAttempts (this (world r)) < fuel + retryCount ->
  match makeRequest platform fuel endpoint method data retryCount r with
  | Normal _ r' => exists delta, summary platform retryCount r r' delta
  | Throw _ r' => exists delta, summary platform retryCount r r' delta
  | Exhausted => False
  end.
Proof.
  induction fuel as [|fuel IH]; intros retryCount r Hle Hfuel; [simpl in Hfuel; lia|].
  simpl. unfold bind.
  pose proof (attempt_pass endpoint method data retryCount r) as Hpass.
  destruct (attempt platform endpoint method data retryCount r) as [[body|] r1|e r1|];
    [| | |exact Hpass].
  3: { destruct Hpass as [d1 Hd1]. exists d1. apply pass_summary; assumption. }
  - destruct Hpass as [[d1 Hd1] _]. exists d1. apply pass_summary; assumption.
  - destruct Hpass as [[d1 Hd1] Hlt]. specialize (Hlt eq_refl).
    pose proof (pass_attempts _ _ _ _ Hd1) as Hn.
    specialize (IH (retryCount + 1) r1).
    destruct (makeRequest platform fuel endpoint method data (retryCount + 1) r1)
      as [body r2|e r2|].
    + destruct IH as [d2 Hd2]; [lia|lia|]. exists (d1 ++ d2).
      eapply pass_then_summary; eassumption.
    + destruct IH as [d2 Hd2]; [lia|lia|]. exists (d1 ++ d2).
      eapply pass_then_summary; eassumption.
    + apply IH; lia.
Qed.

Section Rejected.
Variable response : Response.
Variable refresh : list Event -> RefreshOutcome.
Hypothesis unauthorized_status : status response = 401.
Hypothesis not_ok : ok response = false.
Hypothesis rejected :
  forall history request, fetch platform history request = FetchResolves response.
Hypothesis provider : refreshToken platform = Some refresh.
Hypothesis refreshed : forall history, exists token, refresh history = RefreshResolves token.

Lemma attempt_rejected endpoint method data retryCount r :
  exists token,
    attempt platform endpoint method data retryCount r =
      let r' :=
        {| world := set_this (world r) (set_auth (this (world r)) (Some token));
           trace := trace r ++
             [Fetched (buildOptions (this (world r)) endpoint method data)
                (FetchResolves response);
              Refreshed (RefreshResolves token);
              Console "log" "Token refreshed successfully"] |} in
      if Nat.ltb retryCount (retryAttempts (this (world r))) then Normal Again r'
      else Throw (failureOf response) r'.
Proof.
  destruct (refreshed (trace r ++
              [Fetched (buildOptions (this (world r)) endpoint method data)
                 (FetchResolves response)])) as [token Htoken].
  exists token.
  unfold attempt, bind, try_catch, getThis, awaitFetch, handleAuthError, awaitRefresh,
    awaitJson, readMessage, console, record, modify, ret, throw, bind, try_catch,
    failureOf, errorDataOf.
  simpl. rewrite rejected. simpl. rewrite unauthorized_status. simpl.
  rewrite provider. simpl. rewrite Htoken. simpl.
  destruct (Nat.ltb retryCount _) eqn:Hlt; simpl; rewrite <- ?app_assoc; simpl;
    [reflexivity|].
  rewrite not_ok. simpl.
  destruct (json response) as [[|message text]|error]; simpl; rewrite Hlt; reflexivity.
Qed.

Lemma makeRequest_rejected fuel endpoint method data : forall retryCount r,
  retryCount <= retryAttempts (this (world r)) ->
  retryAttempts (this (world r)) < fuel + retryCount ->
  exists r' delta,
    makeRequest platform fuel endpoint method data retryCount r =
      Throw (failureOf response) r' /\
    trace r' = trace r ++ delta /\
    fetches delta = retryAttempts (this (world r)) + 1 - retryCount /\
    refreshes delta = retryAttempts (this (world r)) + 1 - retryCount.
Proof.
  induction fuel as [|fuel IH]; intros retryCount r Hle Hfuel; [simpl in Hfuel; lia|].
  simpl. unfold bind.
  destruct (attempt_rejected endpoint method data retryCount r) as [token ->]. cbv zeta.
  destruct (Nat.ltb retryCount _) eqn:Hlt.
  - apply Nat.ltb_lt in Hlt.
    match goal with |- context [makeRequest _ _ _ _ _ _ ?r1] =>
      destruct (IH (retryCount + 1) r1) as (r' & delta & Hrun & Htrace & Hf & Hr) end;
      simpl; [lia|lia|].
    simpl in *. eexists. eexists. split; [exact Hrun|]. split; [|split].
    + rewrite Htrace, <- app_assoc. reflexivity.
    + simpl. rewrite Hf. lia.
    + simpl. rewrite Hr. lia.
  - apply Nat.ltb_ge in Hlt.
    assert (retryCount = retryAttempts (this (world r))) as -> by lia.
    eexists. eexists. split; [reflexivity|]. split; [reflexivity|]. simpl.
    split; lia.
Qed.

End Rejected.

(** C1, as the code has it. A call ends; it sends at most
    [retryAttempts + 1] requests, and it refreshes the token once for
    every response with status 401, so as often as that status comes
    back, not once for the call. Every request is the request of the
    call with the token of the latest refresh before it. When the server
    answers 401 to every request and every refresh succeeds, the call
    refreshes and sends [retryAttempts + 1] times, that is, it replays
    after each refresh below the bound, and then throws the error that it
    makes of the last response: [new Error(...)], or the [TypeError] of
    reading the [message] of a body that is [null]. *)
Theorem refresh_follows_every_401 fuel endpoint method data w :
  retryAttempts (this w) < fuel ->
  let out := makeRequest platform fuel endpoint method data 0 (start w) in
  out <> Exhausted /\
  fetches (traceOf out) <= retryAttempts (this w) + 1 /\
  refreshes (traceOf out) <= unauthorized (traceOf out) /\
  (refreshToken platform <> None ->
   refreshes (traceOf out) = unauthorized (traceOf out)) /\
  carries (this w) endpoint method data (auth (this w)) (traceOf out) /\
  (forall response refresh,
     status response = 401 -> ok response = false ->
     (forall history request, fetch platform history request = FetchResolves response) ->
     refreshToken platform = Some refresh ->
     (forall history, exists token, refresh history = RefreshResolves token) ->
     exists r',
       out = Throw (failureOf response) r' /\
       fetches (trace r') = retryAttempts (this w) + 1 /\
       refreshes (trace r') = retryAttempts (this w) + 1 /\
       auth (this (world r')) = lastToken (auth (this w)) (trace r')).
Proof.
  intros Hfuel out.
  assert (Hgeneral :
            out <> Exhausted /\
            fetches (traceOf out) <= retryAttempts (this w) + 1 /\
            refreshes (traceOf out) <= unauthorized (traceOf out) /\
            (refreshToken platform <> None ->
             refreshes (traceOf out) = unauthorized (traceOf out))).
  { pose proof (makeRequest_summary fuel endpoint method data 0 (start w)) as H.
    simpl in H. specialize (H ltac:(lia) ltac:(lia)). fold out in H.
    destruct out as [body r'|e r'|]; [| |destruct H];
      destruct H as [delta Hsum];
      pose proof (sum_trace _ _ _ _ _ Hsum) as Ht; simpl in Ht;
      pose proof (sum_fetches _ _ _ _ _ Hsum) as Hf; simpl in Hf;
      simpl; rewrite Ht;
      (split; [discriminate|]); (split; [lia|]); (split; [apply Hsum|apply Hsum]). }
  assert (Hkept : ends (tokenKept (this w) endpoint method data (auth (this w))) out).
  { apply makeRequest_tokenKept. split; [exact I|split; reflexivity]. }
  destruct Hgeneral as (H1 & H2 & H3 & H4).
  split; [exact H1|]. split; [exact H2|]. split; [exact H3|]. split; [exact H4|].
  split.
  { destruct out as [body r'|e r'|]; simpl in *; [apply Hkept|apply Hkept|exact I]. }
  intros response refresh Hstatus Hok Hrejected Hprovider Hrefreshed.
  destruct (makeRequest_rejected response refresh Hstatus Hok Hrejected Hprovider
              Hrefreshed fuel endpoint method data 0 (start w))
    as (r' & delta & Hrun & Htrace & Hf & Hr); simpl; [lia|lia|].
  exists r'. split; [exact Hrun|]. fold out in Hrun. rewrite Hrun in Hkept.
  simpl in *. rewrite Htrace.
  split; [lia|]. split; [lia|]. rewrite <- Htrace. apply Hkept.
Qed.

(** The waits of a pass: none, or the wait before the retry that the pass
    asks for. *)
Lemma attempt_waits endpoint method data retryCount r :
  match attempt platform endpoint method data retryCount r with
  | Normal a r' =>
      exists delta,
        trace r' = trace r ++ delta /\
        (delays delta = [] \/
         a = Again /\
         delays delta = [(retryDelay (this (world r)) * (Z.of_nat retryCount + 1))%Z])
  | Throw _ r' => exists delta, trace r' = trace r ++ delta /\ delays delta = []
  | Exhausted => False
  end.
Proof.
  unfold attempt, buildOptions, bind, try_catch, getThis, awaitFetch, handleAuthError,
    awaitJson, awaitRefresh, readMessage, sleep, console, record, modify, ret, throw,
    bind, try_catch.
  destruct r as [w t]; simpl.
  repeat match goal with
         | |- context [match ?x with _ => _ end] =>
             lazymatch x with
             | context [match _ with _ => _ end] => fail
             | _ => destruct x eqn:?; simpl
             end
         end.
  all: eexists; split; [rewrite <- ?app_assoc; simpl; reflexivity|]; simpl; auto.
Qed.

Lemma makeRequest_waits fuel endpoint method data : forall retryCount r,
  retryCount <= retryAttempts (this (world r)) ->
  ends (fun r' =>
          exists delta,
            trace r' = trace r ++ delta /\
            sublist (delays delta)
              (map (fun k => (retryDelay (this (world r)) * Z.of_nat k)%Z)
                 (seq (retryCount + 1) (retryAttempts (this (world r)) - retryCount))))
    (makeRequest platform fuel endpoint method data retryCount r).
Proof.
  induction fuel as [|fuel IH]; intros retryCount r Hle; [exact I|].
  simpl. unfold bind.
  pose proof (attempt_pass endpoint method data retryCount r) as Hpass.
  pose proof (attempt_waits endpoint method data retryCount r) as Hwaits.
  destruct (attempt platform endpoint method data retryCount r) as [[body|] r1|e r1|];
    simpl; [| | |exact I].
  - destruct Hwaits as (delta & Htrace & [Hnone|[Habs _]]); [|discriminate].
    exists delta. split; [exact Htrace|]. rewrite Hnone. apply sublist_nil_l.
  - destruct Hpass as [[d1 Hd1] Hlt]. specialize (Hlt eq_refl).
    pose proof (pass_attempts _ _ _ _ Hd1) as Hn.
    pose proof (pass_delay _ _ _ _ Hd1) as Hd.
    destruct Hwaits as (delta & Htrace & Hdelta).
    specialize (IH (retryCount + 1) r1 ltac:(lia)).
    rewrite Hn, Hd in IH.
    replace (retryAttempts (this (world r)) - retryCount)
      with (S (retryAttempts (this (world r)) - (retryCount + 1))) by lia.
    cbn [seq map].
    replace (S (retryCount + 1)) with (retryCount + 1 + 1) by lia.
    destruct (makeRequest platform fuel endpoint method data (retryCount + 1) r1)
      as [body r2|e r2|]; simpl in *; [| |exact I];
      destruct IH as (later & Hlater & Hsub);
      (exists (delta ++ later); split;
       [rewrite Hlater, Htrace, app_assoc; reflexivity|]);
      rewrite delays_app;
      (destruct Hdelta as [->|[_ ->]]; simpl;
       [apply sublist_cons; exact Hsub|]);
      (replace (Z.of_nat (retryCount + 1)) with (Z.of_nat retryCount + 1)%Z by lia);
      apply sublist_skip; exact Hsub.
  - destruct Hwaits as (delta & Htrace & Hnone).
    exists delta. split; [exact Htrace|]. rewrite Hnone. apply sublist_nil_l.
Qed.

Section Unreachable.
Variable error : JsError.
Hypothesis network : isNetworkError error = true.
Hypothesis down : forall history request, fetch platform history request = FetchRejects error.

Lemma attempt_down endpoint method data retryCount r :
  attempt platform endpoint method data retryCount r =
    let failure :=
      Fetched (buildOptions (this (world r)) endpoint method data) (FetchRejects error) in
    if Nat.ltb retryCount (retryAttempts (this (world r))) then
      Normal Again
        {| world := world r;
           trace := trace r ++
             [failure; Slept (retryDelay (this (world r)) * (Z.of_nat retryCount + 1))] |}
    else Throw error {| world := world r; trace := trace r ++ [failure] |}.
Proof.
  unfold attempt, bind, try_catch, getThis, awaitFetch, sleep, record, ret, throw.
  simpl. rewrite down. simpl. rewrite network, andb_true_r.
  destruct (Nat.ltb retryCount _); simpl; [rewrite <- app_assoc|]; reflexivity.
Qed.

End Unreachable.

(** The first [failures] calls of [fetch] fail, each with an error of its
    own that the client takes for a network error. *)
Section Transport.
Variable failures : nat.
Hypothesis down :
  forall history request, fetches history < failures ->
    exists error,
      fetch platform history request = FetchRejects error /\
      isNetworkError error = true.

Lemma attempt_fails endpoint method data retryCount r :
  fetches (trace r) < failures ->
  exists error,
    fetch platform (trace r) (buildOptions (this (world r)) endpoint method data) =
      FetchRejects error /\
    attempt platform endpoint method data retryCount r =
      let failure :=
        Fetched (buildOptions (this (world r)) endpoint method data)
          (FetchRejects error) in
      if Nat.ltb retryCount (retryAttempts (this (world r))) then
        Normal Again
          {| world := world r;
             trace := trace r ++
               [failure;
                Slept (retryDelay (this (world r)) * (Z.of_nat retryCount + 1))] |}
      else Throw error {| world := world r; trace := trace r ++ [failure] |}.
Proof.
  intros Hbefore.
  destruct (down (trace r) (buildOptions (this (world r)) endpoint method data) Hbefore)
    as (error & Hfetch & Hnetwork).
  exists error. split; [exact Hfetch|].
  unfold attempt, bind, try_catch, getThis, awaitFetch, sleep, record, ret, throw.
  simpl. rewrite Hfetch. simpl. rewrite Hnetwork, andb_true_r.
  destruct (Nat.ltb retryCount _); simpl; [rewrite <- app_assoc|]; reflexivity.
Qed.

(** Every attempt that is left fails: the error of the last one is
    thrown. *)
Lemma makeRequest_used_up fuel endpoint method data : forall retryCount r,
  retryCount <= retryAttempts (this (world r)) ->
  retryAttempts (this (world r)) < fuel + retryCount ->
  fetches (trace r) + (retryAttempts (this (world r)) - retryCount) < failures ->
  exists error delta,
    makeRequest platform fuel endpoint method data retryCount r =
      Throw error
        {| world := world r;
           trace := (trace r ++ delta) ++
             [Fetched (buildOptions (this (world r)) endpoint method data)
                (FetchRejects error)] |} /\
    fetch platform (trace r ++ delta) (buildOptions (this (world r)) endpoint method data) =
      FetchRejects error /\
    fetches delta = retryAttempts (this (world r)) - retryCount /\
    delays delta =
      map (fun k => (retryDelay (this (world r)) * Z.of_nat k)%Z)
        (seq (retryCount + 1) (retryAttempts (this (world r)) - retryCount)).
Proof.
  induction fuel as [|fuel IH]; intros retryCount r Hle Hfuel Hdown;
    [simpl in Hfuel; lia|].
  simpl. unfold bind.
  destruct (attempt_fails endpoint method data retryCount r ltac:(lia))
    as (error & Hfetch & ->). cbv zeta.
  destruct (Nat.ltb retryCount _) eqn:Hlt.
  - apply Nat.ltb_lt in Hlt.
    destruct (IH (retryCount + 1)
                {| world := world r;
                   trace := trace r ++
                     [Fetched (buildOptions (this (world r)) endpoint method data)
                        (FetchRejects error);
                      Slept (retryDelay (this (world r)) * (Z.of_nat retryCount + 1))] |})
      as (last & delta & Hrun & Hlast & Hfetches & Hdelays); simpl.
    + lia.
    + lia.
    + rewrite fetches_app. simpl. lia.
    + simpl in *. exists last.
      exists ([Fetched (buildOptions (this (world r)) endpoint method data)
                 (FetchRejects error);
               Slept (retryDelay (this (world r)) * (Z.of_nat retryCount + 1))] ++ delta).
      rewrite !app_assoc. split; [|split; [|split]].
      * exact Hrun.
      * exact Hlast.
      * rewrite fetches_app. simpl. rewrite Hfetches. lia.
      * rewrite delays_app. simpl. rewrite Hdelays.
        replace (retryAttempts (this (world r)) - retryCount)
          with (S (retryAttempts (this (world r)) - (retryCount + 1))) by lia.
        simpl. f_equal; [lia|]. f_equal. f_equal. lia.
  - apply Nat.ltb_ge in Hlt.
    assert (retryCount = retryAttempts (this (world r))) as -> by lia.
    exists error, []. rewrite app_nil_r, Nat.sub_diag.
    split; [reflexivity|]. split; [exact Hfetch|]. split; reflexivity.
Qed.

(** The attempt after the failures is answered: its body is returned. *)
Lemma makeRequest_recovers fuel endpoint method data response body :
  accepted response body ->
  (forall history request,
     fetches history = failures -> fetch platform history request = FetchResolves response) ->
  forall retryCount r,
    fetches (trace r) <= failures ->
    retryCount + (failures - fetches (trace r)) <= retryAttempts (this (world r)) ->
    retryAttempts (this (world r)) < fuel + retryCount ->
    exists delta,
      makeRequest platform fuel endpoint method data retryCount r =
        Normal body {| world := world r; trace := trace r ++ delta |} /\
      fetches delta = failures - fetches (trace r) + 1 /\
      delays delta =
        map (fun k => (retryDelay (this (world r)) * Z.of_nat k)%Z)
          (seq (retryCount + 1) (failures - fetches (trace r))).
Proof.
  intros (Hstatus & Hok & Hjson) Hthen.
  induction fuel as [|fuel IH]; intros retryCount r Hbefore Hleft Hfuel;
    [simpl in Hfuel; lia|].
  destruct (Nat.eq_dec (fetches (trace r)) failures) as [Hnow|Hless].
  - rewrite (makeRequest_accepted platform response endpoint method data retryCount r
               (Hthen _ _ Hnow) Hstatus fuel body Hok Hjson).
    eexists. split; [reflexivity|]. rewrite Hnow, Nat.sub_diag. simpl. auto.
  - simpl. unfold bind.
    destruct (attempt_fails endpoint method data retryCount r ltac:(lia))
      as (error & Hfetch & ->). cbv zeta.
    assert (Hlt : Nat.ltb retryCount (retryAttempts (this (world r))) = true)
      by (apply Nat.ltb_lt; lia).
    rewrite Hlt.
    destruct (IH (retryCount + 1)
                {| world := world r;
                   trace := trace r ++
                     [Fetched (buildOptions (this (world r)) endpoint method data)
                        (FetchRejects error);
                      Slept (retryDelay (this (world r)) * (Z.of_nat retryCount + 1))] |})
      as (delta & Hrun & Hfetches & Hdelays); simpl.
    + rewrite fetches_app. simpl. lia.
    + rewrite fetches_app. simpl. lia.
    + lia.
    + simpl in *. rewrite fetches_app in Hfetches, Hdelays. simpl in Hfetches, Hdelays.
      eexists. split; [|split].
      * rewrite Hrun, <- app_assoc. reflexivity.
      * simpl. rewrite Hfetches. lia.
      * simpl. rewrite Hdelays.
        replace (failures - fetches (trace r))
          with (S (failures - (fetches (trace r) + 1))) by lia.
        simpl. f_equal; [lia|]. f_equal. f_equal. lia.
Qed.

End Transport.

(** C3, as the code has it. A call makes at most [retryAttempts] retries
    after the first attempt, four requests in all, and what it waits
    before the attempt with number [k + 1] is [retryDelay * k]. When the
    first [failures] calls of [fetch] fail with errors that the client
    takes for network errors, each of them is retried after its wait:
    if more than [retryAttempts] fail, the call throws the error of the
    last attempt as it is, after [retryAttempts + 1] requests; if an
    earlier attempt is answered, the call returns that body and makes no
    further attempt. *)
Theorem transport_failure_is_retried failures fuel endpoint method data w :
  retryAttempts (this w) < fuel ->
  (forall history request, fetches history < failures ->
     exists error,
       fetch platform history request = FetchRejects error /\
       isNetworkError error = true) ->
  let out := makeRequest platform fuel endpoint method data 0 (start w) in
  let wait := fun k => (retryDelay (this w) * Z.of_nat k)%Z in
  let request := buildOptions (this w) endpoint method data in
  fetches (traceOf out) <= retryAttempts (this w) + 1 /\
  sublist (delays (traceOf out)) (map wait (seq 1 (retryAttempts (this w)))) /\
  (retryAttempts (this w) < failures ->
   exists error history,
     out = Throw error
             {| world := w; trace := history ++ [Fetched request (FetchRejects error)] |} /\
     fetch platform history request = FetchRejects error /\
     fetches history = retryAttempts (this w) /\
     delays history = map wait (seq 1 (retryAttempts (this w)))) /\
  (failures <= retryAttempts (this w) ->
   forall response body,
     accepted response body ->
     (forall history request,
        fetches history = failures ->
        fetch platform history request = FetchResolves response) ->
     exists r',
       out = Normal body r' /\
       world r' = w /\
       fetches (trace r') = failures + 1 /\
       delays (trace r') = map wait (seq 1 failures)).
Proof.
  intros Hfuel Hdown out wait request.
  split; [|split; [|split]].
  - pose proof (makeRequest_summary fuel endpoint method data 0 (start w)) as H.
    simpl in H. specialize (H ltac:(lia) ltac:(lia)). fold out in H.
    destruct out as [body r'|e r'|]; [| |destruct H];
      destruct H as [delta Hsum];
      pose proof (sum_trace _ _ _ _ _ Hsum) as Ht; simpl in Ht;
      pose proof (sum_fetches _ _ _ _ _ Hsum) as Hf; simpl in Hf;
      simpl; rewrite Ht; lia.
  - pose proof (makeRequest_waits fuel endpoint method data 0 (start w)) as H.
    simpl in H. specialize (H ltac:(lia)). fold out in H.
    rewrite Nat.sub_0_r in H.
    destruct out as [body r'|e r'|]; simpl in *;
      [| |apply sublist_nil_l];
      destruct H as (delta & -> & Hsub); exact Hsub.
  - intros Hmany.
    destruct (makeRequest_used_up failures Hdown fuel endpoint method data 0 (start w))
      as (error & delta & Hrun & Hlast & Hfetches & Hdelays); simpl; [lia|lia|lia|].
    simpl in *. rewrite Nat.sub_0_r in *.
    exists error, delta. auto.
  - intros Hfew response body Haccepted Hthen.
    destruct (makeRequest_recovers failures Hdown fuel endpoint method data response body
                Haccepted Hthen 0 (start w))
      as (delta & Hrun & Hfetches & Hdelays); simpl; [lia|lia|lia|].
    simpl in *. rewrite Nat.sub_0_r in *.
    eexists. split; [exact Hrun|]. auto.
Qed.

End Requests.

(** C1, the claim as stated fails: when the server keeps answering 401
    the client refreshes the token four times and sends four requests. *)
Lemma refresh_is_repeated : ~ refreshesOnce expired blank "/picnics" "GET" None.
Proof.
  intros H. specialize (H 4). vm_compute in H. lia.
Qed.

Lemma refresh_follows_every_401_witness :
  exists r',
    makeRequest expired 4 "/picnics" "GET" None 0 (start blank) =
      Throw (Error "HTTP 401: Unauthorized") r' /\
    fetches (trace r') = 3 + 1 /\
    refreshes (trace r') = 3 + 1 /\
    auth (this (world r')) = lastToken None (trace r').
Proof.
  destruct (refresh_follows_every_401 expired 4 "/picnics" "GET" None blank)
    as (_ & _ & _ & _ & _ & H).
  - simpl. lia.
  - apply (H unauthorizedResponse
             (fun history =>
                RefreshResolves ("token-" +:+ JsString.ofNat (refreshes history)))).
    + reflexivity.
    + reflexivity.
    + reflexivity.
    + reflexivity.
    + intros history. eexists. reflexivity.
Defined.

(** A second 401 is answered by a second refresh and a second replay, and
    the call returns the body of the third response. *)
Example second_401_is_replayed :
  exists r',
    makeRequest twiceRejected 4 "/picnics" "GET" None 0 (start blank) =
      Normal (mkBody None "[]") r' /\
    refreshes (trace r') = 2 /\ fetches (trace r') = 3 /\
    auth (this (world r')) = Some "token-1".
Proof. eexists. split; [vm_compute; reflexivity|]. vm_compute. auto. Qed.

(** The three requests of that call: the token of the object, then the
    token of each refresh. *)
Example replays_carry_new_tokens :
  map req_token
    (requests (traceOf (makeRequest twiceRejected 4 "/picnics" "GET" None 0 (start blank)))) =
    [None; Some "token-0"; Some "token-1"].
Proof. reflexivity. Qed.

(** A 401 on the last pass is refreshed and then thrown as the error of
    the response. *)
Example last_401_is_thrown :
  exists r',
    makeRequest expired 4 "/picnics" "GET" None 0 (start blank) =
      Throw (Error "HTTP 401: Unauthorized") r' /\
    refreshes (trace r') = 4 /\ fetches (trace r') = 4.
Proof. eexists. split; [vm_compute; reflexivity|]. vm_compute. auto. Qed.

(** When the body of the 401 is [null], reading its [message] on the last
    pass throws a [TypeError], and that is what the call throws. *)
Example last_401_without_body :
  exists r',
    makeRequest bare 4 "/picnics" "GET" None 0 (start blank) =
      Throw (TypeError "Cannot read properties of null (reading 'message')") r' /\
    refreshes (trace r') = 4 /\ fetches (trace r') = 4 /\ delays (trace r') = [].
Proof. eexists. split; [vm_compute; reflexivity|]. vm_compute. auto. Qed.

(** C3, the claim as stated fails: a call that cannot reach the server
    makes four attempts, not three. *)
Lemma four_attempts_when_offline : ~ threeAttemptsInAll offline blank "/picnics" "GET" None.
Proof.
  intros H. specialize (H 4). vm_compute in H. lia.
Qed.

Lemma transport_failure_is_retried_witness :
  (exists error history,
     makeRequest offline 4 "/picnics" "GET" None 0 (start blank) =
       Throw error
         {| world := blank;
            trace := history ++
              [Fetched (buildOptions (this blank) "/picnics" "GET" None)
                 (FetchRejects error)] |} /\
     fetch offline history (buildOptions (this blank) "/picnics" "GET" None) =
       FetchRejects error /\
     fetches history = 3 /\
     delays history = [1000; 2000; 3000]%Z) /\
  (exists r',
     makeRequest unsteady 4 "/picnics" "GET" None 0 (start blank) =
       Normal (mkBody None "[]") r' /\
     world r' = blank /\
     fetches (trace r') = 2 + 1 /\
     delays (trace r') = [1000; 2000]%Z).
Proof.
  split.
  - apply (transport_failure_is_retried offline 4 4 "/picnics" "GET" None blank).
    + simpl. lia.
    + intros history request _. eexists. split; reflexivity.
    + simpl. lia.
  - apply (transport_failure_is_retried unsteady 2 4 "/picnics" "GET" None blank)
      with (response := okResponse).
    + simpl. lia.
    + intros history request Hfew. eexists. unfold unsteady. simpl.
      apply Nat.ltb_lt in Hfew. rewrite Hfew. split; reflexivity.
    + simpl. lia.
    + split; [simpl; lia|]. split; reflexivity.
    + intros history request Hnow. unfold unsteady. simpl.
      rewrite Hnow. reflexivity.
Defined.

(** The error of each attempt of [shaky] names the attempt; when none of
    the four attempts is answered the error of the fourth is thrown. *)
Example last_error_is_thrown :
  exists r',
    makeRequest shaky 4 "/picnics" "GET" None 0 (start blank) =
      Throw (mkError "TypeError" "Failed to fetch (attempt 4)") r' /\
    fetches (trace r') = 4 /\ delays (trace r') = [1000; 2000; 3000]%Z.
Proof. eexists. split; [vm_compute; reflexivity|]. vm_compute. auto. Qed.

(** An error that is neither a [TypeError] nor mentions ["fetch"] is not
    retried. *)
Example other_errors_are_not_retried :
  fetches (traceOf (makeRequest
    {| fetch := fun _ _ => FetchRejects (Error "Network error");
       refreshToken := None; wsOrigin := "ws://localhost";
       webSocketError := fun _ => None |}
    4 "/test" "GET" None 0 (start blank))) = 1.
Proof. reflexivity. Qed.

(** ** [Map] objects *)

Section MapFacts.
Context {K V : Type} `{EqDecision K}.
Implicit Types (m : JsMap.MapData K V) (k : K) (v : V).

Lemma get_live m k v : JsMap.get m k = Some v -> In (k, v) (present m).
Proof.
  induction m as [|[[k' v']|] m IH]; simpl; [discriminate| |auto].
  destruct (decide (k' = k)) as [->|]; [intros [= ->]; auto | auto].
Qed.

Lemma live_get m k v : JsMap.wf m -> In (k, v) (present m) -> JsMap.get m k = Some v.
Proof.
  unfold JsMap.wf.
  induction m as [|[[k' v']|] m IH]; simpl; [tauto| |auto].
  intros Hwf [[= -> ->]|Hin].
  - destruct (decide (k = k)); [reflexivity|contradiction].
  - apply NoDup_cons in Hwf as [Hnotin Hwf].
    destruct (decide (k' = k)) as [->|]; [|auto].
    exfalso. apply Hnotin. apply list_elem_of_In. apply (in_map fst) in Hin. exact Hin.
Qed.

Lemma get_None_live m k : JsMap.get m k = None -> ~ In k (map fst (present m)).
Proof.
  induction m as [|[[k' v']|] m IH]; simpl; [tauto| |auto].
  destruct (decide (k' = k)) as [->|]; [discriminate|].
  intros Hget [Heq|Hin]; [contradiction|]. exact (IH Hget Hin).
Qed.

Lemma get_set_eq m k v : JsMap.get (JsMap.set m k v) k = Some v.
Proof.
  induction m as [|[[k' v']|] m IH]; simpl.
  - destruct (decide (k = k)); [reflexivity|contradiction].
  - destruct (decide (k' = k)) as [->|Hne]; simpl.
    + destruct (decide (k = k)); [reflexivity|contradiction].
    + destruct (decide (k' = k)); [contradiction|exact IH].
  - exact IH.
Qed.

Lemma get_set_ne m k k' v : k <> k' -> JsMap.get (JsMap.set m k v) k' = JsMap.get m k'.
Proof.
  intros Hne. induction m as [|[[k0 v0]|] m IH]; simpl.
  - destruct (decide (k = k')); [contradiction|reflexivity].
  - destruct (decide (k0 = k)) as [->|]; simpl.
    + destruct (decide (k = k')); [contradiction|reflexivity].
    + destruct (decide (k0 = k')); [reflexivity|exact IH].
  - exact IH.
Qed.

Lemma get_delete_ne m k k' : k <> k' -> JsMap.get (JsMap.delete m k) k' = JsMap.get m k'.
Proof.
  intros Hne. induction m as [|[[k0 v0]|] m IH]; simpl; [reflexivity| |exact IH].
  destruct (decide (k0 = k)) as [->|]; simpl.
  - destruct (decide (k = k')); [contradiction|reflexivity].
  - destruct (decide (k0 = k')); [reflexivity|exact IH].
Qed.

Lemma get_delete_eq m k : JsMap.wf m -> JsMap.get (JsMap.delete m k) k = None.
Proof.
  unfold JsMap.wf.
  induction m as [|[[k0 v0]|] m IH]; simpl; [reflexivity| |exact IH].
  intros Hwf. apply NoDup_cons in Hwf as [Hnotin Hwf].
  destruct (decide (k0 = k)) as [->|Hne]; simpl.
  - destruct (JsMap.get m k) as [v|] eqn:Hget; [|reflexivity].
    exfalso. apply Hnotin. apply list_elem_of_In.
    apply get_live in Hget. apply (in_map fst) in Hget. exact Hget.
  - destruct (decide (k0 = k)); [contradiction|auto].
Qed.

Lemma live_set_keys m k v x :
  In x (map fst (present (JsMap.set m k v))) <-> x = k \/ In x (map fst (present m)).
Proof.
  induction m as [|[[k0 v0]|] m IH]; simpl.
  - intuition.
  - destruct (decide (k0 = k)) as [->|]; simpl; [intuition|].
    rewrite IH. intuition.
  - exact IH.
Qed.

Lemma live_delete_keys m k x :
  In x (map fst (present (JsMap.delete m k))) -> In x (map fst (present m)).
Proof.
  induction m as [|[[k0 v0]|] m IH]; simpl; [tauto| |exact IH].
  destruct (decide (k0 = k)) as [->|]; simpl; [auto|].
  intros [->|Hin]; auto.
Qed.

Lemma wf_set m k v : JsMap.wf m -> JsMap.wf (JsMap.set m k v).
Proof.
  unfold JsMap.wf.
  induction m as [|[[k0 v0]|] m IH]; simpl.
  - intros _. apply NoDup_singleton.
  - intros Hwf. apply NoDup_cons in Hwf as [Hnotin Hwf].
    destruct (decide (k0 = k)) as [->|Hne]; simpl.
    + apply NoDup_cons. split; assumption.
    + apply NoDup_cons. split; [|auto].
      rewrite list_elem_of_In, live_set_keys. rewrite list_elem_of_In in Hnotin.
      intros [->|Hin]; [contradiction|auto].
  - exact IH.
Qed.

Lemma wf_delete m k : JsMap.wf m -> JsMap.wf (JsMap.delete m k).
Proof.
  unfold JsMap.wf.
  induction m as [|[[k0 v0]|] m IH]; simpl; [auto| |exact IH].
  intros Hwf. apply NoDup_cons in Hwf as [Hnotin Hwf].
  destruct (decide (k0 = k)) as [->|Hne]; simpl; [assumption|].
  apply NoDup_cons. split; [|auto].
  rewrite list_elem_of_In in *. intros Hin. apply Hnotin.
  eapply live_delete_keys; eassumption.
Qed.

Lemma length_delete m k : length (JsMap.delete m k) = length m.
Proof.
  induction m as [|[[k0 v0]|] m IH]; simpl; [reflexivity| |congruence].
  destruct (decide (k0 = k)); simpl; congruence.
Qed.

End MapFacts.

(** ** The registry of subscriptions *)

Lemma subscriptions_sendIfOpen frame w :
  subscriptions (this (sendIfOpen frame w)) = subscriptions (this w).
Proof.
  unfold sendIfOpen. destruct (ws (this w)) as [socket|]; [|reflexivity].
  destruct (isOpen socket); reflexivity.
Qed.

Lemma subscriptions_subscribe collection callback eventType w :
  subscriptions (this (fst (subscribe collection callback eventType w))) =
  JsMap.set (subscriptions (this w)) (subscriptionKey collection eventType) callback.
Proof. unfold subscribe. simpl. rewrite subscriptions_sendIfOpen. reflexivity. Qed.

Lemma subscriptions_unsubscribe collection eventType w :
  subscriptions (this (unsubscribe collection eventType w)) =
  JsMap.delete (subscriptions (this w)) (subscriptionKey collection eventType).
Proof. unfold unsubscribe. rewrite subscriptions_sendIfOpen. reflexivity. Qed.

Lemma truthy_nonempty e : JsString.truthy e = true -> exists a e', e = String a e'.
Proof. destruct e; [discriminate|eauto]. Qed.

Lemma subscriptionKey_typed c e :
  JsString.truthy e = true -> subscriptionKey c (Some e) = c +:+ String ":" e.
Proof. intros H. unfold subscriptionKey. rewrite H. reflexivity. Qed.

Lemma subscriptionKey_inj c1 e1 c2 e2 :
  plain c1 e1 = true -> plain c2 e2 = true ->
  subscriptionKey c1 e1 = subscriptionKey c2 e2 -> (c1, e1) = (c2, e2).
Proof.
  unfold plain.
  intros H1 H2. apply andb_prop in H1 as [Hc1 He1]. apply andb_prop in H2 as [Hc2 He2].
  destruct e1 as [e1|], e2 as [e2|]; rewrite ?subscriptionKey_typed by assumption;
    simpl.
  - intros Heq. destruct (app_sep_inj _ _ _ _ _ Hc1 Hc2 Heq) as [-> ->].
    reflexivity.
  - intros Heq. rewrite <- Heq, lacks_app_sep in Hc2. discriminate.
  - intros Heq. rewrite Heq, lacks_app_sep in Hc1. discriminate.
  - intros ->. reflexivity.
Qed.

Lemma agrees_step w registry op :
  plainOp op = true ->
  agrees (subscriptions (this w)) registry ->
  agrees (subscriptions (this (perform w op))) (specStep registry op).
Proof.
  intros Hop [Hwf Hget Hkey].
  destruct op as [c cb e|c e]; cbn [perform specStep plainOp] in *.
  - rewrite subscriptions_subscribe. split.
    + apply wf_set, Hwf.
    + intros c' e' Hplain.
      destruct (decide ((c, e) = (c', e'))) as [[= <- <-]|Hne].
      * rewrite get_set_eq, lookup_insert_eq. reflexivity.
      * rewrite get_set_ne, lookup_insert_ne by
          (try assumption; intros Heq; apply Hne, subscriptionKey_inj; assumption).
        apply Hget, Hplain.
    + intros key callback.
      destruct (decide (subscriptionKey c e = key)) as [<-|Hne].
      * intros _. exists c, e. split; [assumption|reflexivity].
      * rewrite get_set_ne by assumption. apply Hkey.
  - rewrite subscriptions_unsubscribe. split.
    + apply wf_delete, Hwf.
    + intros c' e' Hplain.
      destruct (decide ((c, e) = (c', e'))) as [[= <- <-]|Hne].
      * rewrite get_delete_eq, lookup_delete_eq by assumption. reflexivity.
      * rewrite get_delete_ne, lookup_delete_ne by
          (try assumption; intros Heq; apply Hne, subscriptionKey_inj; assumption).
        apply Hget, Hplain.
    + intros key callback.
      destruct (decide (subscriptionKey c e = key)) as [<-|Hne].
      * rewrite get_delete_eq by assumption. discriminate.
      * rewrite get_delete_ne by assumption. apply Hkey.
Qed.

Lemma agrees_all ops : forall w registry,
  forallb plainOp ops = true ->
  agrees (subscriptions (this w)) registry ->
  agrees (subscriptions (this (performAll w ops))) (foldl specStep registry ops).
Proof.
  induction ops as [|op ops IH]; intros w registry Hops Hag; simpl; [exact Hag|].
  simpl in Hops. apply andb_prop in Hops as [Hop Hops].
  apply IH; [exact Hops|]. apply agrees_step; assumption.
Qed.

Lemma agrees_empty m : present m = [] -> agrees m ∅.
Proof.
  intros Hlive. split.
  - unfold JsMap.wf. rewrite Hlive. apply NoDup_nil_2.
  - intros c e _. rewrite lookup_empty.
    destruct (JsMap.get m _) as [v|] eqn:Hget; [|reflexivity].
    apply get_live in Hget. rewrite Hlive in Hget. destruct Hget.
  - intros key callback Hget. apply get_live in Hget. rewrite Hlive in Hget. destruct Hget.
Qed.

(** C5, as the code has it. For calls under plain names (collection
    names without [":"], event types that are not empty when given) the
    active callbacks are those of the registry of the specification: the
    last registration under a key wins, [unsubscribe] removes that key and
    no other, and no key holds two callbacks. *)
Theorem subscriptions_net_effect (w : World) (ops : list Op) :
  active w = [] ->
  forallb plainOp ops = true ->
  JsMap.wf (subscriptions (this (performAll w ops))) /\
  forall key callback,
    In (key, callback) (active (performAll w ops)) <->
    exists collection eventType,
      plain collection eventType = true /\
      key = subscriptionKey collection eventType /\
      netEffect ops !! (collection, eventType) = Some callback.
Proof.
  intros Hempty Hops.
  destruct (agrees_all ops w ∅ Hops (agrees_empty _ Hempty)) as [Hwf Hget Hkey].
  split; [exact Hwf|]. intros key callback. unfold active, netEffect. split.
  - intros Hin. apply live_get in Hin; [|exact Hwf].
    destruct (Hkey _ _ Hin) as (c & e & Hplain & ->).
    exists c, e. rewrite <- Hget by assumption. auto.
  - intros (c & e & Hplain & -> & Hreg). apply get_live.
    rewrite Hget by assumption. exact Hreg.
Qed.

(** C5, the claim as stated fails: a collection name with [":"] in it and
    a collection with an event type can make the same key, and then the
    second registration replaces the first; and an empty event type makes
    the key of the collection alone, so that a removal without event type
    removes it. *)
Lemma keys_can_collide : ~ refinesRegistry blank colliding /\ ~ refinesRegistry blank emptyType.
Proof.
  split; intros H.
  - destruct (H "picnics:document_created" 1) as [_ Hback].
    assert (Hin : In ("picnics:document_created", 1) (active (performAll blank colliding))).
    { apply Hback. exists "picnics:document_created", None.
      split; [reflexivity|]. vm_compute. reflexivity. }
    vm_compute in Hin. destruct Hin as [Hin|[]]. discriminate Hin.
  - destruct (H "picnics" 1) as [_ Hback].
    assert (Hin : In ("picnics", 1) (active (performAll blank emptyType))).
    { apply Hback. exists "picnics", (Some "").
      split; [reflexivity|]. vm_compute. reflexivity. }
    vm_compute in Hin. destruct Hin.
Qed.

(** What the client holds after the calls of [colliding], and what the
    registry of the specification holds. *)
Example colliding_net_effect :
  active (performAll blank colliding) = [("picnics:document_created", 2)] /\
  netEffect colliding !! ("picnics:document_created", None) = Some 1 /\
  netEffect colliding !! ("picnics", Some "document_created") = Some 2.
Proof. repeat split; vm_compute; reflexivity. Qed.

Lemma subscriptions_net_effect_witness :
  JsMap.wf (subscriptions (this (performAll blank ordinary))) /\
  forall key callback,
    In (key, callback) (active (performAll blank ordinary)) <->
    exists collection eventType,
      plain collection eventType = true /\
      key = subscriptionKey collection eventType /\
      netEffect ordinary !! (collection, eventType) = Some callback.
Proof.
  apply (subscriptions_net_effect blank ordinary).
  - reflexivity.
  - reflexivity.
Defined.

(** What is left of the calls of [ordinary]. *)
Example ordinary_net_effect :
  active (performAll blank ordinary) = [("picnics", 3); ("picnic_items", 4)].
Proof. reflexivity. Qed.

(** ** Loops over the entries of a [Map] or a [Set] *)

Section Loops.
Context {X : Type}.
Variable entries : World -> list (option X).
Variable callbackfn : X -> Js unit.

(** A loop keeps what every visit keeps, and adds events of the kind that
    the visits add; a visit is only made to an entry that is in the
    object at that moment. *)
Lemma forEach_invariant (Inv : Run -> Prop) (P : Event -> Prop) :
  (forall x r, Inv r -> In (Some x) (entries (world r)) ->
     ends (fun r' => Inv r' /\ extends P r r') (callbackfn x r)) ->
  forall fuel index r, Inv r ->
    ends (fun r' => Inv r' /\ extends P r r') (forEach fuel entries callbackfn index r).
Proof.
  intros Hstep. induction fuel as [|fuel IH]; intros index r HI; simpl; [exact I|].
  destruct (entries (world r) !! index) as [[x|]|] eqn:Hlookup.
  - unfold bind.
    assert (Hin : In (Some x) (entries (world r))).
    { apply list_elem_of_In, list_elem_of_lookup. eauto. }
    specialize (Hstep x r HI Hin).
    destruct (callbackfn x r) as [[] r1|e r1|]; simpl in *; [|exact Hstep|exact I].
    destruct Hstep as [HI1 Hext1]. specialize (IH (S index) r1 HI1).
    destruct (forEach fuel entries callbackfn (S index) r1) as [a r2|e r2|];
      simpl in *; [| |exact I];
      (split; [apply IH|eapply extends_trans; [exact Hext1|apply IH]]).
  - apply IH, HI.
  - simpl. split; [exact HI|apply extends_refl].
Qed.

(** A loop throws only what a visit throws. *)
Lemma forEach_throws (Q : JsError -> Prop) :
  (forall x r e r', callbackfn x r = Throw e r' -> Q e) ->
  forall fuel index r e r', forEach fuel entries callbackfn index r = Throw e r' -> Q e.
Proof.
  intros Hstep. induction fuel as [|fuel IH]; intros index r e r'; simpl; [discriminate|].
  destruct (entries (world r) !! index) as [[x|]|]; [|apply IH|discriminate].
  unfold bind.
  destruct (callbackfn x r) as [[] r1|e1 r1|] eqn:Hx; [|intros [= <- <-]|discriminate].
  - apply IH.
  - eapply Hstep; eassumption.
Qed.

(** A loop ends when the visits end and add no slot. *)
Lemma forEach_finishes (n : nat) :
  (forall x r, length (entries (world r)) <= n ->
     match callbackfn x r with
     | Normal _ r' => length (entries (world r')) <= n
     | Throw _ _ => True
     | Exhausted => False
     end) ->
  forall fuel index r,
    length (entries (world r)) <= n -> n - index < fuel ->
    forEach fuel entries callbackfn index r <> Exhausted.
Proof.
  intros Hstep. induction fuel as [|fuel IH]; intros index r Hlen Hfuel; [lia|]. simpl.
  destruct (entries (world r) !! index) as [[x|]|] eqn:Hlookup; [| |discriminate].
  - apply lookup_lt_Some in Hlookup. unfold bind. specialize (Hstep x r Hlen).
    destruct (callbackfn x r) as [[] r1|e r1|]; [|discriminate|destruct Hstep].
    apply IH; [exact Hstep|lia].
  - apply lookup_lt_Some in Hlookup. apply IH; [exact Hlen|lia].
Qed.

(** When the visits leave the entries as they are, the loop is the loop
    over the entries it starts with. *)
Lemma forEach_stable :
  (forall x r a r', callbackfn x r = Normal a r' -> entries (world r') = entries (world r)) ->
  forall fuel index r,
    length (entries (world r)) - index < fuel ->
    forEach fuel entries callbackfn index r =
      visitAll callbackfn (present (drop index (entries (world r)))) r.
Proof.
  intros Hstable. induction fuel as [|fuel IH]; intros index r Hfuel; [lia|]. simpl.
  destruct (entries (world r) !! index) as [[x|]|] eqn:Hlookup.
  - rewrite (drop_S _ _ _ Hlookup). simpl. unfold bind.
    apply lookup_lt_Some in Hlookup.
    destruct (callbackfn x r) as [[] r1|e r1|] eqn:Hx; [|reflexivity|reflexivity].
    rewrite IH; rewrite (Hstable _ _ _ _ Hx); [reflexivity|lia].
  - rewrite (drop_S _ _ _ Hlookup). simpl.
    apply lookup_lt_Some in Hlookup. apply IH. lia.
  - apply lookup_ge_None in Hlookup. rewrite drop_ge by exact Hlookup. reflexivity.
Qed.

End Loops.

(** ** The event emitter *)

Section Emitter.
Variable call : Callback -> Payload -> World -> World * option JsError.

Lemma invokeHandler_run event data callback r :
  invokeHandler call event data callback r =
    Normal tt
      {| world := fst (call callback data (world r));
         trace := trace r ++ HandlerCalled event callback data ::
           match snd (call callback data (world r)) with
           | Some _ => [Console "error" ("Error in event handler for " +:+ event +:+ ":")]
           | None => []
           end |}.
Proof.
  unfold invokeHandler, try_catch, callHandler, console, record.
  destruct (call callback data (world r)) as [w' [error|]]; simpl;
    [rewrite <- app_assoc|]; reflexivity.
Qed.

Lemma invokeHandler_extends event data callback r :
  ends (fun r' => True /\ extends (emitted event data) r r')
    (invokeHandler call event data callback r).
Proof.
  rewrite invokeHandler_run. simpl. split; [exact I|].
  eexists. split; [reflexivity|].
  constructor; [right; eauto|].
  destruct (snd _); constructor; [left; eauto|constructor].
Qed.

Lemma emit_extends fuel event data r :
  ends (extends (emitted event data) r) (emit call fuel event data r).
Proof.
  unfold emit, bind, getThis.
  destruct (JsMap.has _ _); [|apply extends_refl].
  destruct (JsMap.get _ _) as [ref|]; [|apply extends_refl].
  pose proof (forEach_invariant (setEntries ref) (invokeHandler call event data)
                (fun _ => True) (emitted event data)
                (fun x r0 _ _ => invokeHandler_extends event data x r0)
                fuel 0 r I) as H.
  destruct (forEach _ _ _ _ _); simpl in *; tauto.
Qed.

(** [emit] catches what the handlers throw. *)
Lemma emit_never_throws fuel event data r e r' :
  emit call fuel event data r <> Throw e r'.
Proof.
  unfold emit, bind, getThis.
  destruct (JsMap.has _ _); [|discriminate].
  destruct (JsMap.get _ _) as [ref|]; [|discriminate].
  intros H.
  apply (forEach_throws (setEntries ref) (invokeHandler call event data) (fun _ => False))
    in H; [exact H|].
  intros x r0 e0 r0'. rewrite invokeHandler_run. discriminate.
Qed.

Lemma get_has {V} (m : JsMap.MapData string V) k v :
  JsMap.get m k = Some v -> JsMap.has m k = true.
Proof. unfold JsMap.has. intros ->. reflexivity. Qed.

Lemma visitAll_handlers event data xs : forall r,
  exists r',
    visitAll (invokeHandler call event data) xs r = Normal tt r' /\
    calls (trace r') = calls (trace r) ++ map (fun cb => HandlerCalled event cb data) xs.
Proof.
  induction xs as [|x xs IH]; intros r; simpl.
  - exists r. rewrite app_nil_r. split; reflexivity.
  - unfold bind. rewrite invokeHandler_run.
    match goal with |- context [visitAll _ xs ?r1] => destruct (IH r1) as (r' & Hrun & Hcalls) end.
    exists r'. split; [exact Hrun|]. rewrite Hcalls. simpl.
    rewrite calls_app. simpl.
    destruct (snd _); simpl; rewrite <- app_assoc; reflexivity.
Qed.

Lemma emit_stable fuel event data r ref :
  JsMap.get (eventHandlers (this (world r))) event = Some ref ->
  keepsHandlers call ref ->
  length (setEntries ref (world r)) < fuel ->
  exists r',
    emit call fuel event data r = Normal tt r' /\
    calls (trace r') =
      calls (trace r) ++ handlerCalls (world r) event data.
Proof.
  intros Hget Hkeep Hfuel. unfold emit, bind, getThis, handlerCalls, handlersOf.
  rewrite (get_has _ _ _ Hget), Hget.
  rewrite forEach_stable; [|intros x r0 a r0'; rewrite invokeHandler_run;
                             intros Heq; injection Heq as Heq; subst r0'; apply Hkeep | lia].
  rewrite drop_0. apply visitAll_handlers.
Qed.

End Emitter.

(** ** The key of a subscription *)

Lemma matches_key message collection eventType :
  JsString.lacks collection ":" = true ->
  (forall e, eventType = Some e -> JsString.lacks e ":" = true) ->
  matches message (subscriptionKey collection eventType) = true <->
  msg_collection message = Some collection /\
  (eventType = None \/ eventType = Some "" \/ eventType = Some (msg_type message)).
Proof.
  intros Hc He. unfold matches.
  assert (Hplain : forall t,
            match msg_collection message, Some collection with
            | Some c, Some sub => String.eqb c sub
            | _, _ => false
            end && t = true <-> msg_collection message = Some collection /\ t = true).
  { intros t. destruct (msg_collection message) as [c|]; simpl.
    - rewrite andb_true_iff, String.eqb_eq. split; intros [H1 H2]; split; congruence.
    - split; [discriminate|intros [[=] _]]. }
  destruct eventType as [e|].
  - destruct (JsString.truthy e) eqn:Htruthy.
    + rewrite subscriptionKey_typed by exact Htruthy.
      rewrite split_app_sep by exact Hc.
      rewrite (split_lacks e) by (apply He; reflexivity). simpl.
      rewrite Htruthy. simpl. rewrite Hplain, String.eqb_eq.
      split; intros [H1 H2]; (split; [exact H1|]).
      * right. right. congruence.
      * destruct H2 as [[=]|[[= ->]|[= ->]]]; [discriminate|reflexivity].
    + unfold subscriptionKey. rewrite Htruthy.
      rewrite split_lacks by exact Hc. simpl. rewrite Hplain.
      destruct e; [|discriminate].
      split; intros [H1 _]; (split; [exact H1|]); auto.
  - unfold subscriptionKey. rewrite split_lacks by exact Hc. simpl. rewrite Hplain.
    split; intros [H1 _]; (split; [exact H1|]); auto.
Qed.

Section Dispatch.
Variable call : Callback -> Payload -> World -> World * option JsError.

Lemma notifySubscriber_run message key callback r :
  notifySubscriber call message (key, callback) r =
    if matches message key then
      let r' := {| world := fst (call callback (messagePayload message) (world r));
                   trace := trace r ++ [SubscriberCalled key callback (messagePayload message)] |} in
      match snd (call callback (messagePayload message) (world r)) with
      | None => Normal tt r'
      | Some error => Throw error r'
      end
    else Normal tt r.
Proof.
  unfold notifySubscriber, callSubscriber.
  destruct (matches message key); [|reflexivity].
  destruct (call callback _ _) as [w' [error|]]; reflexivity.
Qed.

(** A step of the loop at a subscription whose callback unsubscribes:
    the loop goes on in the world that [unsubscribe] leaves. *)
Lemma notifySubscribers_step fuel message index r key callback collection eventType :
  (subscriptions (this (world r)) : list (option (string * Callback))) !! index =
    Some (Some (key, callback)) ->
  matches message key = true ->
  call callback (messagePayload message) (world r) =
    (unsubscribe collection eventType (world r), None) ->
  notifySubscribers call (S fuel) message index r =
    notifySubscribers call fuel message (S index)
      {| world := unsubscribe collection eventType (world r);
         trace := trace r ++ [SubscriberCalled key callback (messagePayload message)] |}.
Proof.
  intros Hentry Hmatch Hcall. unfold notifySubscribers. simpl.
  rewrite Hentry. unfold bind. rewrite notifySubscriber_run, Hmatch, Hcall.
  reflexivity.
Qed.

Lemma emit_keeps Inv fuel event data :
  preserved call Inv -> keeps Inv (emitted event data) (emit call fuel event data).
Proof.
  intros Hcall r HI. unfold emit, bind, getThis.
  destruct (JsMap.has _ _); [|split; [exact HI|apply extends_refl]].
  destruct (JsMap.get _ _) as [ref|]; [|split; [exact HI|apply extends_refl]].
  apply (forEach_invariant (setEntries ref) (invokeHandler call event data)
           (fun r => Inv (world r)) (emitted event data)); [|exact HI].
  intros x r0 HI0 _. pose proof (invokeHandler_extends call event data x r0) as H.
  rewrite invokeHandler_run in *. simpl in *. split; [apply Hcall, HI0|apply H].
Qed.

Lemma emitForType_keeps Inv fuel message :
  preserved call Inv -> keeps Inv (typePass message) (emitForType call fuel message).
Proof. intros Hcall. apply emit_keeps, Hcall. Qed.

Lemma emitForCollection_keeps Inv fuel message :
  preserved call Inv -> keeps Inv (collectionPass message) (emitForCollection call fuel message).
Proof.
  intros Hcall. unfold emitForCollection, collectionPass.
  destruct (msg_collection message) as [c|]; [|apply keeps_ret].
  destruct (JsString.truthy c); [|apply keeps_ret].
  eapply keeps_weaken; [|apply emit_keeps, Hcall].
  intros ev Hev. exists c. auto.
Qed.

Lemma notifySubscribers_keeps Inv fuel message index :
  preserved call Inv ->
  keeps Inv (subscriberPass message) (notifySubscribers call fuel message index).
Proof.
  intros Hcall r HI. unfold notifySubscribers.
  apply (forEach_invariant (fun w => subscriptions (this w)) (notifySubscriber call message)
           (fun r => Inv (world r)) (subscriberPass message)); [|exact HI].
  intros [key callback] r0 HI0 _. rewrite notifySubscriber_run.
  destruct (matches message key) eqn:Hm; simpl; [|split; [exact HI0|apply extends_refl]].
  assert (Hext : forall w', extends (subscriberPass message) r0
            {| world := w';
               trace := trace r0 ++ [SubscriberCalled key callback (messagePayload message)] |}).
  { intros w'. eexists. split; [reflexivity|].
    constructor; [|constructor]. exists key, callback. auto. }
  destruct (snd _); simpl; (split; [apply Hcall, HI0|apply Hext]).
Qed.

Lemma emitForType_never_throws fuel message r e r' :
  emitForType call fuel message r <> Throw e r'.
Proof. apply emit_never_throws. Qed.

Lemma emitForCollection_never_throws fuel message r e r' :
  emitForCollection call fuel message r <> Throw e r'.
Proof.
  unfold emitForCollection. destruct (msg_collection message) as [c|]; [|discriminate].
  destruct (JsString.truthy c); [apply emit_never_throws|discriminate].
Qed.

Lemma handleWebSocketMessage_passes fuel message r :
  ends (threePasses message r) (handleWebSocketMessage call fuel message r).
Proof.
  assert (Hany : preserved call (fun _ => True)) by (intros ? ? ? _; exact I).
  unfold handleWebSocketMessage, bind.
  pose proof (emitForType_keeps _ fuel message Hany r I) as H1.
  destruct (emitForType call fuel message r) as [[] r1|e r1|] eqn:E1;
    [|exfalso; eapply emitForType_never_throws; eassumption|exact I].
  destruct H1 as [_ (d1 & Ht1 & HP1)].
  pose proof (emitForCollection_keeps _ fuel message Hany r1 I) as H2.
  destruct (emitForCollection call fuel message r1) as [[] r2|e r2|] eqn:E2;
    [|exfalso; eapply emitForCollection_never_throws; eassumption|exact I].
  destruct H2 as [_ (d2 & Ht2 & HP2)].
  pose proof (notifySubscribers_keeps _ fuel message 0 Hany r2 I) as H3.
  assert (Hjoin : forall r3, True /\ extends (subscriberPass message) r2 r3 ->
                    threePasses message r r3).
  { intros r3 [_ (d3 & Ht3 & HP3)].
    exists d1, d2, d3. split; [|auto].
    rewrite Ht3, Ht2, Ht1, <- !app_assoc. reflexivity. }
  destruct (notifySubscribers call fuel message 0 r2); simpl in *; auto.
Qed.

End Dispatch.

(** ** Callbacks that change nothing *)

Section Quiet.
Variable call : Callback -> Payload -> World -> World * option JsError.

Hypothesis Hquiet : quiet call.

Lemma visitAll_handlers_quiet event data xs : forall r,
  visitAll (invokeHandler call event data) xs r =
    Normal tt {| world := world r;
                 trace := trace r ++ map (fun cb => HandlerCalled event cb data) xs |}.
Proof.
  induction xs as [|x xs IH]; intros r; simpl.
  - rewrite app_nil_r. destruct r; reflexivity.
  - unfold bind. rewrite invokeHandler_run, Hquiet. simpl.
    rewrite IH. simpl. rewrite <- app_assoc. reflexivity.
Qed.

Lemma emit_quiet fuel event data r :
  enough fuel (world r) ->
  emit call fuel event data r =
    Normal tt {| world := world r;
                 trace := trace r ++ handlerCalls (world r) event data |}.
Proof.
  intros [_ Hfuel]. unfold emit, bind, getThis, handlerCalls, handlersOf, JsMap.has.
  destruct (JsMap.get _ _) as [ref|]; [|rewrite app_nil_r; destruct r; reflexivity].
  rewrite forEach_stable.
  - rewrite drop_0. apply visitAll_handlers_quiet.
  - intros x r0 a r0'. rewrite invokeHandler_run, Hquiet. intros Heq.
    injection Heq as Heq. subst r0'. reflexivity.
  - specialize (Hfuel ref). lia.
Qed.

Lemma visitAll_subscribers_quiet message xs : forall r,
  visitAll (notifySubscriber call message) xs r =
    Normal tt {| world := world r; trace := trace r ++ subscriberCalls message xs |}.
Proof.
  unfold subscriberCalls.
  induction xs as [|[key callback] xs IH]; intros r; cbn [visitAll].
  - simpl. rewrite app_nil_r. destruct r; reflexivity.
  - unfold bind. rewrite notifySubscriber_run, Hquiet. simpl.
    destruct (matches message key); simpl.
    + rewrite IH. simpl. rewrite <- app_assoc. reflexivity.
    + apply IH.
Qed.

Lemma notifySubscribers_quiet fuel message index r :
  length (subscriptions (this (world r))) - index < fuel ->
  notifySubscribers call fuel message index r =
    Normal tt
      {| world := world r;
         trace := trace r ++
           subscriberCalls message (present (drop index (subscriptions (this (world r))))) |}.
Proof.
  intros Hfuel. unfold notifySubscribers. rewrite forEach_stable.
  - apply visitAll_subscribers_quiet.
  - intros [key callback] r0 a r0'. rewrite notifySubscriber_run, Hquiet. simpl.
    destruct (matches message key); intros Heq; injection Heq as Heq; subst r0';
      reflexivity.
  - exact Hfuel.
Qed.

Lemma emitForCollection_quiet fuel message r :
  enough fuel (world r) ->
  emitForCollection call fuel message r =
    Normal tt {| world := world r; trace := trace r ++ collectionCalls message (world r) |}.
Proof.
  intros Hfuel. unfold emitForCollection, collectionCalls.
  destruct (msg_collection message) as [c|]; [destruct (JsString.truthy c)|].
  - apply emit_quiet, Hfuel.
  - rewrite app_nil_r. destruct r; reflexivity.
  - rewrite app_nil_r. destruct r; reflexivity.
Qed.

Lemma handleWebSocketMessage_quiet fuel message r :
  enough fuel (world r) ->
  handleWebSocketMessage call fuel message r =
    Normal tt
      {| world := world r;
         trace := trace r ++
           typeCalls message (world r) ++
           collectionCalls message (world r) ++
           subscriberCalls message (present (subscriptions (this (world r)))) |}.
Proof.
  intros Hfuel. unfold handleWebSocketMessage, bind, emitForType, typeCalls.
  rewrite emit_quiet by exact Hfuel.
  rewrite emitForCollection_quiet by exact Hfuel. simpl.
  rewrite notifySubscribers_quiet by (destruct Hfuel; simpl; lia).
  simpl. rewrite drop_0, <- !app_assoc. reflexivity.
Qed.

End Quiet.

(** ** Callbacks that unsubscribe *)

Lemma get_delete_absent {V} (m : JsMap.MapData string V) k k' :
  JsMap.get m k = None -> JsMap.get (JsMap.delete m k') k = None.
Proof.
  induction m as [|[[k0 v0]|] m IH]; simpl; [auto| |exact IH].
  destruct (decide (k0 = k)) as [->|Hne]; [discriminate|].
  intros Hget. destruct (decide (k0 = k')); simpl; [exact Hget|].
  destruct (decide (k0 = k)); [contradiction|auto].
Qed.

Lemma sets_sendIfOpen frame w : sets (sendIfOpen frame w) = sets w.
Proof.
  unfold sendIfOpen. destruct (ws (this w)) as [socket|]; [|reflexivity].
  destruct (isOpen socket); reflexivity.
Qed.

Lemma sets_unsubscribe collection eventType w :
  sets (unsubscribe collection eventType w) = sets w.
Proof. unfold unsubscribe. rewrite sets_sendIfOpen. reflexivity. Qed.

Lemma shaped_unsubscribeAll w0 removals : forall w,
  shaped w0 w -> shaped w0 (unsubscribeAll removals w).
Proof.
  unfold unsubscribeAll.
  induction removals as [|[c e] removals IH]; intros w Hkept; simpl; [exact Hkept|].
  apply IH. destruct Hkept as (Hlen & Hsets). split.
  - rewrite subscriptions_unsubscribe, length_delete. exact Hlen.
  - rewrite sets_unsubscribe. exact Hsets.
Qed.

Lemma absent_unsubscribeAll key removals : forall w,
  absent key w -> absent key (unsubscribeAll removals w).
Proof.
  unfold unsubscribeAll, absent.
  induction removals as [|[c e] removals IH]; intros w Hget; simpl; [exact Hget|].
  apply IH. rewrite subscriptions_unsubscribe. apply get_delete_absent, Hget.
Qed.

Lemma absent_unsubscribe collection eventType w :
  JsMap.wf (subscriptions (this w)) ->
  absent (subscriptionKey collection eventType) (unsubscribe collection eventType w).
Proof.
  intros Hwf. unfold absent. rewrite subscriptions_unsubscribe.
  apply get_delete_eq, Hwf.
Qed.

Lemma shaped_unsubscribe collection eventType w :
  shaped w (unsubscribe collection eventType w).
Proof.
  split; [rewrite subscriptions_unsubscribe; apply length_delete|apply sets_unsubscribe].
Qed.

Lemma enough_shaped fuel w0 w : enough fuel w0 -> shaped w0 w -> enough fuel w.
Proof.
  intros [Hsubs Hsets] (Hlen & Heq). split; [lia|].
  intros ref. unfold setEntries. rewrite Heq. apply Hsets.
Qed.

Lemma present_In {X} (x : X) slots : In (Some x) slots -> In x (present slots).
Proof.
  induction slots as [|[y|] slots IH]; simpl; [tauto| |].
  - intros [[= ->]|Hin]; auto.
  - intros [[=]|Hin]; auto.
Qed.

Section Removal.
Variable call : Callback -> Payload -> World -> World * option JsError.

Hypothesis Hrem : unsubscribing call.

Lemma shaped_call w0 : preserved call (shaped w0).
Proof.
  intros callback data w Hkept. destruct (Hrem callback data w) as [removals ->].
  apply shaped_unsubscribeAll, Hkept.
Qed.

Lemma absent_call key : preserved call (absent key).
Proof.
  intros callback data w Hkept. destruct (Hrem callback data w) as [removals ->].
  apply absent_unsubscribeAll, Hkept.
Qed.

Lemma keepsHandlers_unsubscribing ref : keepsHandlers call ref.
Proof.
  intros callback data w. destruct (Hrem callback data w) as [removals ->].
  unfold setEntries. f_equal. f_equal.
  unfold unsubscribeAll. revert w.
  induction removals as [|[c e] removals IH]; intros w; simpl; [reflexivity|].
  rewrite IH. apply sets_unsubscribe.
Qed.

Lemma notifySubscribers_finishes fuel message index r :
  length (subscriptions (this (world r))) - index < fuel ->
  notifySubscribers call fuel message index r <> Exhausted.
Proof.
  intros Hfuel. unfold notifySubscribers.
  apply (forEach_finishes _ _ (length (subscriptions (this (world r)))));
    [|lia|exact Hfuel].
  intros [key callback] r0 Hlen. rewrite notifySubscriber_run.
  destruct (matches message key); [|exact Hlen].
  destruct (snd _); [exact I|]. simpl.
  destruct (Hrem callback (messagePayload message) (world r0)) as [removals ->].
  clear -Hlen. unfold unsubscribeAll. revert Hlen. generalize (world r0).
  induction removals as [|[c e] removals IH]; intros w Hlen; simpl; [exact Hlen|].
  apply IH. rewrite subscriptions_unsubscribe, length_delete. exact Hlen.
Qed.

Lemma notifySubscribers_throws fuel message index r error r' :
  notifySubscribers call fuel message index r = Throw error r' -> thrownByCallback call error.
Proof.
  unfold notifySubscribers.
  apply (forEach_throws _ _ (thrownByCallback call)).
  intros [key callback] r0 e r0'. rewrite notifySubscriber_run.
  destruct (matches message key); [|discriminate].
  destruct (snd _) as [e0|] eqn:Hsnd; [|discriminate].
  intros [= <- _]. exists callback, (messagePayload message), (world r0). exact Hsnd.
Qed.

Lemma notifySubscribers_silent key fuel message index :
  keeps (absent key) (notFor key) (notifySubscribers call fuel message index).
Proof.
  intros r Habsent. unfold notifySubscribers.
  apply (forEach_invariant (fun w => subscriptions (this w)) (notifySubscriber call message)
           (fun r => absent key (world r)) (notFor key)); [|exact Habsent].
  intros [k callback] r0 Habs0 Hin. rewrite notifySubscriber_run.
  destruct (matches message k); simpl; [|split; [exact Habs0|apply extends_refl]].
  assert (Hne : k <> key).
  { intros ->. apply (get_None_live _ _ Habs0).
    apply present_In in Hin. apply (in_map fst) in Hin. exact Hin. }
  assert (Hext : forall w', extends (notFor key) r0
            {| world := w';
               trace := trace r0 ++ [SubscriberCalled k callback (messagePayload message)] |}).
  { intros w'. eexists. split; [reflexivity|].
    constructor; [|constructor]. intros cb data [= Heq _ _]. contradiction. }
  destruct (snd _); simpl; (split; [apply absent_call, Habs0|apply Hext]).
Qed.

Lemma emitted_notFor key event data ev : emitted event data ev -> notFor key ev.
Proof. intros [(level & text & ->)|(cb & ->)] callback payload; discriminate. Qed.

Lemma handleWebSocketMessage_silent key fuel message :
  keeps (absent key) (notFor key) (handleWebSocketMessage call fuel message).
Proof.
  unfold handleWebSocketMessage.
  apply keeps_bind; [|intros _; apply keeps_bind; [|intros _]].
  - eapply keeps_weaken; [|apply emitForType_keeps, absent_call].
    apply emitted_notFor.
  - eapply keeps_weaken; [|apply emitForCollection_keeps, absent_call].
    intros ev (c & _ & Hev). eapply emitted_notFor, Hev.
  - apply notifySubscribers_silent.
Qed.

Lemma emit_finishes fuel event data r :
  (forall ref, length (setEntries ref (world r)) < fuel) ->
  exists r', emit call fuel event data r = Normal tt r'.
Proof.
  intros Hfuel.
  destruct (JsMap.get (eventHandlers (this (world r))) event) as [ref|] eqn:Hget.
  - destruct (emit_stable call fuel event data r ref Hget
                (keepsHandlers_unsubscribing ref) (Hfuel ref)) as (r' & Hrun & _).
    eauto.
  - exists r. unfold emit, bind, getThis, JsMap.has. rewrite Hget. reflexivity.
Qed.

Lemma emitForCollection_finishes fuel message r :
  (forall ref, length (setEntries ref (world r)) < fuel) ->
  exists r', emitForCollection call fuel message r = Normal tt r'.
Proof.
  intros Hfuel. unfold emitForCollection.
  destruct (msg_collection message) as [c|]; [|exists r; reflexivity].
  destruct (JsString.truthy c); [apply emit_finishes, Hfuel|exists r; reflexivity].
Qed.

Lemma handleWebSocketMessage_finishes fuel message r :
  enough fuel (world r) ->
  handleWebSocketMessage call fuel message r <> Exhausted.
Proof.
  intros Hfuel. unfold handleWebSocketMessage, bind, emitForType.
  destruct (emit_finishes fuel ("ws:" +:+ msg_type message)
              (TypeData (msg_collection message) (msg_data message) (msg_id message))
              r (proj2 Hfuel)) as (r1 & E1).
  pose proof (emit_keeps call (shaped (world r)) fuel ("ws:" +:+ msg_type message)
                (TypeData (msg_collection message) (msg_data message) (msg_id message))
                (shaped_call _) r (conj eq_refl eq_refl)) as H1.
  rewrite E1 in *. simpl in H1. destruct H1 as [Hshaped1 _].
  pose proof (enough_shaped _ _ _ Hfuel Hshaped1) as Hfuel1.
  destruct (emitForCollection_finishes fuel message r1 (proj2 Hfuel1)) as (r2 & E2).
  pose proof (emitForCollection_keeps call (shaped (world r)) fuel message
                (shaped_call _) r1 Hshaped1) as H2.
  rewrite E2 in *. simpl in H2. destruct H2 as [Hshaped2 _].
  pose proof (enough_shaped _ _ _ Hfuel Hshaped2) as Hfuel2.
  apply notifySubscribers_finishes. destruct Hfuel2. lia.
Qed.

Lemma handleWebSocketMessage_throws fuel message r error r' :
  handleWebSocketMessage call fuel message r = Throw error r' -> thrownByCallback call error.
Proof.
  unfold handleWebSocketMessage, bind.
  destruct (emitForType call fuel message r) as [[] r1|e r1|] eqn:E1;
    [|exfalso; eapply emitForType_never_throws; eassumption|discriminate].
  destruct (emitForCollection call fuel message r1) as [[] r2|e r2|] eqn:E2;
    [|exfalso; eapply emitForCollection_never_throws; eassumption|discriminate].
  apply notifySubscribers_throws.
Qed.

Lemma silent_added {A} key r (c : Completion A) :
  ends (fun r' => absent key (world r') /\ extends (notFor key) r r') c ->
  silent key (added r c).
Proof.
  intros H callback data Hin.
  assert (HF : Forall (notFor key) (added r c)).
  { apply added_extends. destruct c; simpl in *; tauto. }
  rewrite Forall_forall in HF. apply list_elem_of_In in Hin.
  exact (HF _ Hin callback data eq_refl).
Qed.

End Removal.

(** ** The socket: open, close, reconnect *)

Section Still.
Variable platform : Platform.
Variable call : Callback -> Payload -> World -> World * option JsError.

Hypothesis Hstill : still call.

Lemma visitAll_handlers_still event data xs : forall r,
  exists r',
    visitAll (invokeHandler call event data) xs r = Normal tt r' /\
    world r' = world r /\
    calls (trace r') = calls (trace r) ++ map (fun cb => HandlerCalled event cb data) xs.
Proof.
  induction xs as [|x xs IH]; intros r; simpl.
  - exists r. rewrite app_nil_r. auto.
  - unfold bind. rewrite invokeHandler_run.
    match goal with |- context [visitAll _ xs ?r1] =>
      destruct (IH r1) as (r' & Hrun & Hworld & Hcalls) end.
    exists r'. split; [exact Hrun|]. split.
    + rewrite Hworld. simpl. apply Hstill.
    + rewrite Hcalls. simpl. rewrite calls_app. simpl.
      destruct (snd _); simpl; rewrite <- app_assoc; reflexivity.
Qed.

Lemma emit_still fuel event data r :
  (forall ref, length (setEntries ref (world r)) < fuel) ->
  exists r',
    emit call fuel event data r = Normal tt r' /\
    world r' = world r /\
    calls (trace r') = calls (trace r) ++ handlerCalls (world r) event data.
Proof.
  intros Hfuel. unfold emit, bind, getThis, handlerCalls, handlersOf, JsMap.has.
  destruct (JsMap.get _ _) as [ref|]; [|exists r; rewrite app_nil_r; auto].
  rewrite forEach_stable.
  - rewrite drop_0. apply visitAll_handlers_still.
  - intros x r0 a r0'. rewrite invokeHandler_run. intros Heq.
    injection Heq as Heq. subst r0'. simpl. rewrite Hstill. reflexivity.
  - specialize (Hfuel ref). lia.
Qed.

Lemma socketOpens_still fuel r :
  (forall ref, length (setEntries ref (world r)) < fuel) ->
  exists r',
    socketOpens call fuel r = Normal tt r' /\
    world r' =
      set_this (setReadyState OPEN (world r))
        (set_wsReconnectAttempts (this (setReadyState OPEN (world r))) 0) /\
    calls (trace r') = calls (trace r) ++ handlerCalls (world r) "ws:connected" NoData.
Proof.
  intros Hfuel. unfold socketOpens, onopen, bind, modify, console, record.
  cbn [world trace].
  match goal with |- context [emit call fuel _ _ ?r1] =>
    destruct (emit_still fuel "ws:connected" NoData r1) as (r' & Hrun & Hworld & Hcalls) end.
  { intros ref. cbn [world]. unfold setEntries, setReadyState in *.
    specialize (Hfuel ref). destruct (ws (this (world r))); exact Hfuel. }
  exists r'. split; [exact Hrun|]. split; [exact Hworld|].
  rewrite Hcalls. cbn [world trace]. rewrite calls_app. simpl. rewrite app_nil_r.
  unfold handlerCalls, handlersOf, setEntries, setReadyState.
  destruct (ws (this (world r))); reflexivity.
Qed.

Lemma socketCloses_still fuel r :
  (forall ref, length (setEntries ref (world r)) < fuel) ->
  exists r',
    socketCloses call fuel r = Normal tt r' /\
    world r' = scheduleReconnect (setReadyState CLOSED (world r)) /\
    calls (trace r') = calls (trace r) ++ handlerCalls (world r) "ws:disconnected" NoData.
Proof.
  intros Hfuel. unfold socketCloses, onclose, bind, modify, console, record.
  cbn [world trace].
  match goal with |- context [emit call fuel _ _ ?r1] =>
    destruct (emit_still fuel "ws:disconnected" NoData r1) as (r' & Hrun & Hworld & Hcalls) end.
  { intros ref. cbn [world]. unfold setEntries, setReadyState in *.
    specialize (Hfuel ref). destruct (ws (this (world r))); exact Hfuel. }
  rewrite Hrun. eexists. split; [reflexivity|]. cbn [world trace]. split.
  - rewrite Hworld. reflexivity.
  - rewrite Hcalls. cbn [world trace]. rewrite calls_app. simpl. rewrite app_nil_r.
    unfold handlerCalls, handlersOf, setEntries, setReadyState.
    destruct (ws (this (world r))); reflexivity.
Qed.

Hypothesis Hsocket : forall address, webSocketError platform address = None.

Lemma connectWebSocket_fresh events w :
  match ws (this w) with Some socket => isOpen socket | None => false end = false ->
  connectWebSocket platform {| world := w; trace := events |} =
    Normal tt
      {| world := set_this w (set_ws (this w)
           (Some {| url := wsAddress platform (this w);
                    readyState := CONNECTING; sent := [] |}));
         trace := events |}.
Proof.
  intros Hclosed. unfold connectWebSocket, bind, getThis, try_catch, modify.
  cbn [world trace]. rewrite Hclosed, Hsocket. reflexivity.
Qed.

Lemma setReadyState_fields state w :
  wsReconnectAttempts (this (setReadyState state w)) = wsReconnectAttempts (this w) /\
  maxWsReconnectAttempts (this (setReadyState state w)) = maxWsReconnectAttempts (this w) /\
  wsReconnectDelay (this (setReadyState state w)) = wsReconnectDelay (this w) /\
  eventHandlers (this (setReadyState state w)) = eventHandlers (this w) /\
  sets (setReadyState state w) = sets w /\
  timers (setReadyState state w) = timers w.
Proof. unfold setReadyState. destruct (ws (this w)); simpl; auto 10. Qed.

Lemma setReadyState_closed w :
  match ws (this (setReadyState CLOSED w)) with
  | Some socket => isOpen socket
  | None => false
  end = false.
Proof.
  unfold setReadyState. destruct (ws (this w)) eqn:Hws; simpl; [reflexivity|].
  rewrite Hws. reflexivity.
Qed.

Lemma reconnect_round w0 attempts events w :
  during w0 attempts w ->
  attempts < maxWsReconnectAttempts (this w0) ->
  timers (scheduleReconnect (setReadyState CLOSED w)) = [(backoff w0 attempts, Reconnect)] /\
  exists r',
    timerFires platform
      {| world := scheduleReconnect (setReadyState CLOSED w); trace := events |} =
      Normal tt r' /\
    trace r' = events /\
    during w0 (attempts + 1) (world r').
Proof.
  intros [Ht Ha Hm Hd Hh Hs] Hlt.
  destruct (setReadyState_fields CLOSED w) as (Ha' & Hm' & Hd' & Hh' & Hs' & Ht').
  assert (Hsched : scheduleReconnect (setReadyState CLOSED w) =
                   set_timers (setReadyState CLOSED w) [(backoff w0 attempts, Reconnect)]).
  { unfold scheduleReconnect, backoff. rewrite Ha', Hm', Hd', Ht', Ha, Hm, Hd, Ht.
    apply Nat.ltb_lt in Hlt. rewrite Hlt. reflexivity. }
  rewrite Hsched. split; [reflexivity|].
  unfold timerFires. cbn [world trace timers set_timers runTask].
  unfold bind, modify. cbn [world trace].
  rewrite connectWebSocket_fresh by (cbn [this set_this set_wsReconnectAttempts ws];
                                     apply setReadyState_closed).
  eexists. split; [reflexivity|]. split; [reflexivity|]. cbn [world].
  split; simpl; try congruence.
Qed.

Lemma outage_schedule fuel w0 rounds : forall attempts r,
  during w0 attempts (world r) ->
  (forall ref, length (setEntries ref w0) < fuel) ->
  attempts <= maxWsReconnectAttempts (this w0) ->
  let left := maxWsReconnectAttempts (this w0) - attempts in
  exists r',
    outage platform call fuel rounds r =
      Normal (map (backoff w0) (seq attempts (Nat.min rounds left))) r' /\
    calls (trace r') =
      calls (trace r) ++
      mjoin (replicate (Nat.min rounds (left + 1))
               (handlerCalls w0 "ws:disconnected" NoData)).
Proof.
  induction rounds as [|rounds IH]; intros attempts r Hduring Hfuel Hle left.
  - exists r. simpl. rewrite app_nil_r. auto.
  - cbn [outage]. unfold bind at 1.
    destruct (socketCloses_still fuel r) as (r1 & Hclose & Hworld1 & Hcalls1).
    { intros ref. unfold setEntries. rewrite (during_sets _ _ _ Hduring). apply Hfuel. }
    rewrite Hclose. unfold bind at 1, getWorld. rewrite Hworld1.
    assert (Hhandlers : handlerCalls (world r) "ws:disconnected" NoData =
                        handlerCalls w0 "ws:disconnected" NoData).
    { unfold handlerCalls, handlersOf, setEntries.
      rewrite (during_handlers _ _ _ Hduring), (during_sets _ _ _ Hduring). reflexivity. }
    destruct (Nat.ltb attempts (maxWsReconnectAttempts (this w0))) eqn:Hlt.
    + apply Nat.ltb_lt in Hlt.
      destruct (reconnect_round w0 attempts (trace r1) (world r) Hduring Hlt)
        as (Htimers & r2 & Hfire & Htrace2 & Hduring2).
      rewrite Htimers. unfold bind at 1.
      replace r1 with {| world := world r1; trace := trace r1 |} by (destruct r1; reflexivity).
      rewrite Hworld1. cbn [world trace]. rewrite Hfire. unfold bind at 1.
      assert (Hle2 : attempts + 1 <= maxWsReconnectAttempts (this w0)) by (clear -Hlt; lia).
      destruct (IH (attempts + 1) r2 Hduring2 Hfuel Hle2) as (r3 & Hrest & Hcalls3).
      rewrite Hrest. exists r3. split.
      * unfold ret. f_equal.
        replace (Nat.min (S rounds) left)
          with (S (Nat.min rounds (maxWsReconnectAttempts (this w0) - (attempts + 1))))
          by (subst left; lia).
        replace (attempts + 1) with (S attempts) by lia. reflexivity.
      * rewrite Hcalls3, Htrace2, Hcalls1, Hhandlers.
        replace (Nat.min (S rounds) (left + 1))
          with (S (Nat.min rounds (maxWsReconnectAttempts (this w0) - (attempts + 1) + 1)))
          by (subst left; lia).
        simpl. rewrite <- app_assoc. reflexivity.
    + apply Nat.ltb_ge in Hlt.
      assert (Htimers : timers (scheduleReconnect (setReadyState CLOSED (world r))) = []).
      { destruct Hduring as [Ht Ha Hm Hd Hh Hs]. unfold scheduleReconnect.
        assert (Hsame : wsReconnectAttempts (this (setReadyState CLOSED (world r))) = attempts /\
                        maxWsReconnectAttempts (this (setReadyState CLOSED (world r))) =
                          maxWsReconnectAttempts (this w0) /\
                        timers (setReadyState CLOSED (world r)) = []).
        { unfold setReadyState. destruct (ws (this (world r))); simpl; auto. }
        destruct Hsame as (-> & -> & Ht').
        apply Nat.ltb_ge in Hlt. rewrite Hlt. exact Ht'. }
      rewrite Htimers. exists r1. split.
      * unfold ret. f_equal. replace left with 0 by (subst left; lia).
        rewrite Nat.min_0_r. reflexivity.
      * rewrite Hcalls1, Hhandlers.
        replace (Nat.min (S rounds) (left + 1)) with 1 by (subst left; lia).
        simpl. rewrite app_nil_r. reflexivity.
Qed.

(** The schedule never shortens a delay. *)
Lemma backoff_monotone w i j :
  (0 <= wsReconnectDelay (this w))%Z -> i <= j -> (backoff w i <= backoff w j)%Z.
Proof.
  intros Hd Hij. unfold backoff. apply Z.mul_le_mono_nonneg_l; [exact Hd|].
  apply Z.pow_le_mono_r; lia.
Qed.

End Still.

(** ** The dispatch of an inbound message *)

(** C6. The events of a dispatch come in three runs: the calls of the
    handlers of [ws:type], then those of the handlers of
    [ws:collection:type], then those of the subscribers; with callbacks
    that change nothing, each run holds all the callbacks of its pass. *)
Theorem dispatch_in_three_passes call fuel message r :
  ends (threePasses message r) (handleWebSocketMessage call fuel message r) /\
  (quiet call -> enough fuel (world r) ->
   handleWebSocketMessage call fuel message r =
     Normal tt
       {| world := world r;
          trace := trace r ++
            typeCalls message (world r) ++
            collectionCalls message (world r) ++
            subscriberCalls message (present (subscriptions (this (world r)))) |}).
Proof.
  split.
  - apply handleWebSocketMessage_passes.
  - intros Hquiet Hfuel. apply handleWebSocketMessage_quiet; assumption.
Qed.

Lemma enough_observed : enough 5 observed.
Proof. split; [simpl; lia|]. intros [|[|[|ref]]]; simpl; lia. Qed.

Lemma dispatch_in_three_passes_witness :
  traceOf (handleWebSocketMessage inert 5 deletion (start observed)) =
    [HandlerCalled "ws:document_deleted" 10 (TypeData (Some "todos") None (Some "abc"));
     HandlerCalled "ws:todos:document_deleted" 20 (CollectionData None (Some "abc"));
     SubscriberCalled "todos" 1
       (MessageData "document_deleted" (Some "todos") None (Some "abc"))].
Proof.
  destruct (dispatch_in_three_passes inert 5 deletion (start observed)) as [_ H].
  rewrite H.
  - reflexivity.
  - intros callback data w. reflexivity.
  - exact enough_observed.
Defined.

Lemma emitted_not_subscriber event payload key callback data :
  ~ emitted event payload (SubscriberCalled key callback data).
Proof. intros [(level & text & H)|(cb & H)]; discriminate. Qed.

(** C7, as the code has it. A subscription made for a collection and an
    event type that hold no [":"] is called only with the message itself,
    only for a message of its collection and, when an event type is given
    and not empty, of that type; and with callbacks that change nothing it
    is called for every such message. *)
Theorem subscriber_fires_on_match call fuel message r collection eventType callback :
  JsString.lacks collection ":" = true ->
  (forall e, eventType = Some e -> JsString.lacks e ":" = true) ->
  let key := subscriptionKey collection eventType in
  let out := handleWebSocketMessage call fuel message r in
  (forall data,
     In (SubscriberCalled key callback data) (added r out) ->
     data = messagePayload message /\
     msg_collection message = Some collection /\
     (eventType = None \/ eventType = Some "" \/ eventType = Some (msg_type message))) /\
  (quiet call -> enough fuel (world r) ->
   In (key, callback) (present (subscriptions (this (world r)))) ->
   msg_collection message = Some collection ->
   (eventType = None \/ eventType = Some "" \/ eventType = Some (msg_type message)) ->
   In (SubscriberCalled key callback (messagePayload message)) (added r out)).
Proof.
  intros Hc He key out. split.
  - intros data Hin.
    pose proof (handleWebSocketMessage_passes call fuel message r) as Hpasses.
    fold out in Hpasses.
    assert (Hd : exists d1 d2 d3,
               added r out = d1 ++ d2 ++ d3 /\
               Forall (typePass message) d1 /\
               Forall (collectionPass message) d2 /\
               Forall (subscriberPass message) d3).
    { destruct out as [a r'|e r'|]; simpl in *; [| |destruct Hin];
        destruct Hpasses as (d1 & d2 & d3 & -> & H1 & H2 & H3);
        exists d1, d2, d3; rewrite drop_app_length; auto. }
    destruct Hd as (d1 & d2 & d3 & Heq & H1 & H2 & H3).
    rewrite Heq in Hin. rewrite Forall_forall in H1, H2, H3.
    apply in_app_or in Hin as [Hin|Hin];
      [|apply in_app_or in Hin as [Hin|Hin]]; apply list_elem_of_In in Hin.
    + exfalso. eapply emitted_not_subscriber. exact (H1 _ Hin).
    + exfalso. destruct (H2 _ Hin) as (c & _ & Hev).
      eapply emitted_not_subscriber. exact Hev.
    + destruct (H3 _ Hin) as (k & cb & [= <- <- ->] & Hmatch).
      split; [reflexivity|]. apply (matches_key message collection eventType Hc He).
      exact Hmatch.
  - intros Hquiet Hfuel Hin Hcoll Htype. subst out.
    rewrite (handleWebSocketMessage_quiet call Hquiet fuel message r Hfuel).
    simpl. rewrite drop_app_length.
    apply in_or_app. right. apply in_or_app. right.
    unfold subscriberCalls.
    apply (in_map (fun entry => SubscriberCalled (fst entry) (snd entry)
                                  (messagePayload message)) _ (key, callback)).
    apply filter_In. split; [exact Hin|]. simpl.
    apply (matches_key message collection eventType Hc He). auto.
Qed.

(** C7, the claim as stated fails: the callback registered for the
    collection ["todos:document_deleted"] is called for a message of the
    collection ["todos"], and the callback registered for the event type
    ["document_deleted:v2"] is called for a message of the type
    ["document_deleted"]. *)
Lemma key_of_another_subscription_fires :
  ~ firesOnlyOnMatch inert 5 blank "todos:document_deleted" None 2 deletion /\
  ~ firesOnlyOnMatch inert 5 blank "todos" (Some "document_deleted:v2") 2 deletion.
Proof.
  split; intros H.
  - destruct (H (MessageData "document_deleted" (Some "todos") None (Some "abc")))
      as [Hcollection _].
    + vm_compute. left. reflexivity.
    + discriminate Hcollection.
  - destruct (H (MessageData "document_deleted" (Some "todos") None (Some "abc")))
      as [_ [Htype|Htype]].
    + vm_compute. left. reflexivity.
    + discriminate Htype.
    + discriminate Htype.
Qed.

(** The example of the specification: the subscriber of ["todos"] is
    called with the message, the subscriber of ["picnics"] is not. *)
Lemma subscriber_fires_on_match_witness :
  let out := handleWebSocketMessage inert 5 deletion (start observed) in
  In (SubscriberCalled "todos" 1
        (MessageData "document_deleted" (Some "todos") None (Some "abc")))
     (added (start observed) out) /\
  forall data, ~ In (SubscriberCalled "picnics" 2 data) (added (start observed) out).
Proof.
  split.
  - apply (subscriber_fires_on_match inert 5 deletion (start observed) "todos" None 1).
    + reflexivity.
    + discriminate.
    + intros callback data w. reflexivity.
    + exact enough_observed.
    + simpl. auto.
    + reflexivity.
    + left. reflexivity.
  - intros data Hin.
    apply (subscriber_fires_on_match inert 5 deletion (start observed) "picnics" None 2)
      in Hin as (_ & Hcollection & _).
    + discriminate Hcollection.
    + reflexivity.
    + discriminate.
Defined.

(** An event type with [":"] in it is cut at the [":"] when the key is
    read back. *)
Example event_type_is_cut :
  matches (mkMessage "document_deleted" (Some "todos") None None)
    (subscriptionKey "todos" (Some "document_deleted:v2")) = true.
Proof. reflexivity. Qed.

(** C8. Once [unsubscribe] has removed a subscription, also from inside a
    callback of a dispatch in progress, the rest of that dispatch and every
    later dispatch end without calling it, and they throw only what a
    callback throws. *)
Theorem removal_during_dispatch_is_safe call fuel message collection eventType w events index :
  unsubscribing call ->
  JsMap.wf (subscriptions (this w)) ->
  enough fuel w ->
  let key := subscriptionKey collection eventType in
  let r := {| world := unsubscribe collection eventType w; trace := events |} in
  let rest := notifySubscribers call fuel message index r in
  let next := handleWebSocketMessage call fuel message r in
  (rest <> Exhausted /\
   (forall error r', rest = Throw error r' -> thrownByCallback call error) /\
   silent key (added r rest)) /\
  (next <> Exhausted /\
   (forall error r', next = Throw error r' -> thrownByCallback call error) /\
   silent key (added r next)).
Proof.
  intros Hrem Hwf Hfuel key r rest next.
  assert (Habsent : absent key (world r)) by apply absent_unsubscribe, Hwf.
  assert (Hfuel' : enough fuel (world r)).
  { eapply enough_shaped; [exact Hfuel|apply shaped_unsubscribe]. }
  split; (split; [|split]).
  - apply (notifySubscribers_finishes call Hrem). destruct Hfuel'. lia.
  - apply notifySubscribers_throws.
  - apply silent_added, (notifySubscribers_silent call Hrem), Habsent.
  - apply (handleWebSocketMessage_finishes call Hrem), Hfuel'.
  - apply handleWebSocketMessage_throws.
  - apply silent_added, (handleWebSocketMessage_silent call Hrem), Habsent.
Qed.

Lemma pruning_unsubscribes : unsubscribing pruning.
Proof.
  intros callback data w. unfold pruning.
  destruct (Nat.eqb callback 1).
  - exists [("todos", Some "document_deleted")]. reflexivity.
  - exists []. reflexivity.
Qed.

Lemma enough_watched : enough 5 watched.
Proof. split; [simpl; lia|]. intros [|ref]; simpl; lia. Qed.

Lemma removal_during_dispatch_is_safe_witness :
  let r := {| world := unsubscribe "todos" (Some "document_deleted") watched;
              trace := [SubscriberCalled "todos" 1 (messagePayload deletion)] |} in
  let rest := notifySubscribers pruning 5 deletion 1 r in
  let next := handleWebSocketMessage pruning 5 deletion r in
  (rest <> Exhausted /\
   (forall error r', rest = Throw error r' -> thrownByCallback pruning error) /\
   silent "todos:document_deleted" (added r rest)) /\
  (next <> Exhausted /\
   (forall error r', next = Throw error r' -> thrownByCallback pruning error) /\
   silent "todos:document_deleted" (added r next)).
Proof.
  apply (removal_during_dispatch_is_safe pruning 5 deletion
           "todos" (Some "document_deleted") watched
           [SubscriberCalled "todos" 1 (messagePayload deletion)] 1).
  - exact pruning_unsubscribes.
  - unfold JsMap.wf. apply (bool_decide_unpack _). vm_compute. reflexivity.
  - exact enough_watched.
Defined.

(** Callback 1 removes the subscription of callback 2 while the message
    is dispatched: callback 2 is skipped, in this dispatch and in the
    next. Left alone, both are called. *)
Example removed_subscriber_is_skipped :
  calls (traceOf (handleWebSocketMessage pruning 5 deletion (start watched))) =
    [SubscriberCalled "todos" 1 (messagePayload deletion)] /\
  calls (traceOf (bind (handleWebSocketMessage pruning 5 deletion)
                    (fun _ => handleWebSocketMessage pruning 5 deletion)
                    (start watched))) =
    [SubscriberCalled "todos" 1 (messagePayload deletion);
     SubscriberCalled "todos" 1 (messagePayload deletion)] /\
  calls (traceOf (handleWebSocketMessage inert 5 deletion (start watched))) =
    [SubscriberCalled "todos" 1 (messagePayload deletion);
     SubscriberCalled "todos:document_deleted" 2 (messagePayload deletion)].
Proof. repeat split; reflexivity. Qed.

(** ** The event emitter *)

(** C9. [emit] never throws; when the handlers leave the [Set] of the
    event as it is, it returns after it has called every handler of the
    event once, in the order of registration, whichever of them throw. *)
Theorem emit_contains_handler_errors call fuel event data r :
  (forall error r', emit call fuel event data r <> Throw error r') /\
  ((forall ref,
      JsMap.get (eventHandlers (this (world r))) event = Some ref ->
      keepsHandlers call ref /\ length (setEntries ref (world r)) < fuel) ->
   exists r',
     emit call fuel event data r = Normal tt r' /\
     calls (trace r') = calls (trace r) ++ handlerCalls (world r) event data).
Proof.
  split.
  - intros error r'. apply emit_never_throws.
  - intros Hsets.
    destruct (JsMap.get (eventHandlers (this (world r))) event) as [ref|] eqn:Hget.
    + destruct (Hsets ref eq_refl) as [Hkeep Hfuel].
      apply (emit_stable call fuel event data r ref Hget Hkeep Hfuel).
    + exists r. unfold emit, bind, getThis, handlerCalls, handlersOf, JsMap.has.
      rewrite Hget. rewrite app_nil_r. auto.
Qed.

Lemma emit_contains_handler_errors_witness :
  exists r',
    emit faulty 5 "changed" (OtherData "x") (start listened) = Normal tt r' /\
    calls (trace r') =
      [HandlerCalled "changed" 1 (OtherData "x");
       HandlerCalled "changed" 2 (OtherData "x");
       HandlerCalled "changed" 3 (OtherData "x")].
Proof.
  destruct (emit_contains_handler_errors faulty 5 "changed" (OtherData "x") (start listened))
    as [_ H].
  apply H. intros ref Hget. split.
  - intros callback data w. unfold faulty. destruct (Nat.eqb callback 1); reflexivity.
  - injection Hget as <-. simpl. lia.
Defined.

(** ** The socket *)

(** C2, as the code has it. When the socket opens the client sets the
    counter of reconnects to zero and calls the handlers of
    ["ws:connected"]; it sends no frame and leaves the subscriptions as
    they are. *)
Theorem open_resets_counter_and_resends_nothing call fuel r :
  still call ->
  (forall ref, length (setEntries ref (world r)) < fuel) ->
  exists r',
    socketOpens call fuel r = Normal tt r' /\
    wsReconnectAttempts (this (world r')) = 0 /\
    framesSent (world r') = framesSent (world r) /\
    subscriptions (this (world r')) = subscriptions (this (world r)) /\
    calls (trace r') = calls (trace r) ++ handlerCalls (world r) "ws:connected" NoData.
Proof.
  intros Hstill Hfuel.
  destruct (socketOpens_still call Hstill fuel r Hfuel) as (r' & Hrun & Hworld & Hcalls).
  exists r'. split; [exact Hrun|]. rewrite Hworld.
  split; [reflexivity|]. split; [|split; [|exact Hcalls]].
  - unfold framesSent, setReadyState.
    destruct (ws (this (world r))) eqn:Hws; simpl; [|rewrite Hws]; reflexivity.
  - unfold setReadyState. destruct (ws (this (world r))); reflexivity.
Qed.

(** C2, the claim as stated fails: a subscription made while the socket
    was connecting gets no frame when the socket opens. *)
Lemma nothing_is_resent_on_open : ~ resendsSubscriptions inert 5 connecting.
Proof. intros H. vm_compute in H. discriminate H. Qed.

(** The frames on the socket of [connecting] after it has opened, and its
    subscriptions. *)
Example frames_after_open :
  exists r',
    socketOpens inert 5 (start connecting) = Normal tt r' /\
    framesSent (world r') = [] /\
    active (world r') = [("picnics", 1)].
Proof. eexists. split; [vm_compute; reflexivity|]. split; reflexivity. Qed.

(** A client that has reconnected three times, with two subscriptions and
    a handler of ["ws:connected"]: the counter goes from 3 to 0, the handler
    is called, no frame is sent. *)
Lemma open_resets_counter_and_resends_nothing_witness :
  wsReconnectAttempts (this resumed) = 3 /\
  exists r',
    socketOpens inert 5 (start resumed) = Normal tt r' /\
    wsReconnectAttempts (this (world r')) = 0 /\
    framesSent (world r') = [] /\
    subscriptions (this (world r')) =
      [Some ("picnics", 1); Some ("picnic_items:document_updated", 2)] /\
    calls (trace r') = [HandlerCalled "ws:connected" 9 NoData].
Proof.
  split; [reflexivity|].
  apply (open_resets_counter_and_resends_nothing inert 5 (start resumed)).
  - intros callback data w. reflexivity.
  - intros [|ref]; simpl; lia.
Defined.

(** C4, as the code has it. In an outage the reconnect that follows the
    k-th close is set [wsReconnectDelay * 2^k] later, for as long as fewer
    than [maxWsReconnectAttempts] reconnects were made, and none is set
    after that; the delays never shrink. The handlers of
    ["ws:disconnected"] are called at every close, the last one
    included. *)
Theorem reconnect_schedule platform call fuel rounds w :
  still call ->
  (forall address, webSocketError platform address = None) ->
  timers w = [] ->
  (forall ref, length (setEntries ref w) < fuel) ->
  wsReconnectAttempts (this w) <= maxWsReconnectAttempts (this w) ->
  (0 <= wsReconnectDelay (this w))%Z ->
  let attempts := wsReconnectAttempts (this w) in
  let left := maxWsReconnectAttempts (this w) - attempts in
  (exists r',
     outage platform call fuel rounds (start w) =
       Normal (map (backoff w) (seq attempts (Nat.min rounds left))) r' /\
     calls (trace r') =
       mjoin (replicate (Nat.min rounds (left + 1))
                (handlerCalls w "ws:disconnected" NoData))) /\
  (forall i j, i <= j -> (backoff w i <= backoff w j)%Z).
Proof.
  intros Hstill Hsocket Htimers Hfuel Hle Hdelay attempts left. split.
  - apply (outage_schedule platform call Hstill Hsocket fuel w rounds attempts (start w));
      [|exact Hfuel|exact Hle].
    split; auto.
  - intros i j. apply backoff_monotone, Hdelay.
Qed.

(** C4, the claim as stated fails: in an outage that uses up the ten
    reconnects the handler of ["ws:disconnected"] is called eleven times,
    once at every close. *)
Lemma disconnected_at_every_close : ~ notifiedOnce offline inert 5 connecting.
Proof. intros H. vm_compute in H. discriminate H. Qed.

(** At the cap [scheduleReconnect] sets no timer and calls nobody; the
    close before it has called the handler as every close does. *)
Example notifications_in_an_outage :
  notifications "ws:disconnected" (traceOf (outage offline inert 5 11 (start connecting))) = 11 /\
  notifications "ws:disconnected" (traceOf (outage offline inert 5 3 (start connecting))) = 3.
Proof. split; vm_compute; reflexivity. Qed.

Lemma reconnect_schedule_witness :
  (exists r',
     outage offline inert 5 12 (start connecting) =
       Normal [1000; 2000; 4000; 8000; 16000; 32000; 64000; 128000; 256000; 512000]%Z r' /\
     calls (trace r') = replicate 11 (HandlerCalled "ws:disconnected" 7 NoData)) /\
  (forall i j, i <= j -> (backoff connecting i <= backoff connecting j)%Z).
Proof.
  apply (reconnect_schedule offline inert 5 12 connecting).
  - intros callback data w. reflexivity.
  - reflexivity.
  - reflexivity.
  - intros [|ref]; simpl; lia.
  - simpl. lia.
  - simpl. lia.
Defined.

(** ** The statistics of the todo app *)

Lemma length_filter_countWhere {A} (test : A -> bool) l :
  length (List.filter test l) = TodoAPI.countWhere test l.
Proof.
  induction l as [|x l IH]; simpl; [reflexivity|].
  destruct (test x); simpl; rewrite IH; reflexivity.
Qed.

Lemma countWhere_partition {A} (test : A -> bool) l :
  length l = TodoAPI.countWhere test l + TodoAPI.countWhere (fun x => negb (test x)) l.
Proof.
  induction l as [|x l IH]; simpl; [reflexivity|].
  destruct (test x); simpl; lia.
Qed.

(** C10. When [getTodos] returns a list, [getTodoStats] returns
    statistics in which [completed] counts the todos whose [completed]
    field is truthy, [pending] counts those whose field is falsy, and
    [total], the length of the list, is their sum. *)
Theorem todo_stats_partition fetch todos :
  TodoAPI.getTodos fetch = TodoAPI.Resolved todos ->
  exists stats,
    TodoAPI.getTodoStats fetch = TodoAPI.Resolved stats /\
    TodoAPI.total stats = length todos /\
    TodoAPI.completed stats =
      TodoAPI.countWhere (fun todo => TodoAPI.truthy (TodoAPI.Todo.completed todo)) todos /\
    TodoAPI.pending stats =
      TodoAPI.countWhere
        (fun todo => negb (TodoAPI.truthy (TodoAPI.Todo.completed todo))) todos /\
    TodoAPI.total stats = TodoAPI.completed stats + TodoAPI.pending stats.
Proof.
  intros Htodos. unfold TodoAPI.getTodoStats. rewrite Htodos. simpl.
  eexists. split; [reflexivity|]. simpl.
  rewrite !length_filter_countWhere.
  split; [reflexivity|]. split; [reflexivity|]. split; [reflexivity|].
  apply countWhere_partition.
Qed.

Lemma todo_stats_partition_witness :
  exists stats,
    TodoAPI.getTodoStats sampleTodos = TodoAPI.Resolved stats /\
    TodoAPI.total stats = 3 /\
    TodoAPI.completed stats = 1 /\
    TodoAPI.pending stats = 2 /\
    TodoAPI.total stats = TodoAPI.completed stats + TodoAPI.pending stats.
Proof.
  apply (todo_stats_partition sampleTodos
           [TodoAPI.Todo.mk "1" "milk" (TodoAPI.Boolean true) "low";
            TodoAPI.Todo.mk "2" "bread" (TodoAPI.Boolean false) "high";
            TodoAPI.Todo.mk "3" "eggs" TodoAPI.Undefined "medium"]).
  reflexivity.
Defined.

(** * Further properties of the clients *)

(** ** Requests: what is sent, and with which token *)

(** X1. Every request of a call is the request of the call, with the token
    that the latest refresh before it returned (the token of the object
    when there was none); when the call ends the object holds the token of
    the latest refresh. *)
Theorem requests_carry_latest_token platform fuel endpoint method data w :
  retryAttempts (this w) < fuel ->
  let out := makeRequest platform fuel endpoint method data 0 (start w) in
  out <> Exhausted /\
  carries (this w) endpoint method data (auth (this w)) (traceOf out) /\
  ends (fun r' => auth (this (world r')) = lastToken (auth (this w)) (trace r')) out.
Proof.
  intros Hfuel out.
  pose proof (makeRequest_summary platform fuel endpoint method data 0 (start w)) as Hends.
  pose proof (makeRequest_tokenKept platform (this w) endpoint method data (auth (this w))
                fuel 0 (start w)) as Hkept.
  simpl in Hends. fold out in Hends, Hkept.
  assert (Hstart : tokenKept (this w) endpoint method data (auth (this w)) (start w)).
  { split; [exact I|split; reflexivity]. }
  specialize (Hkept Hstart).
  destruct out as [body r'|error r'|]; simpl in *.
  - destruct Hkept as (H1 & H2 & _). split; [discriminate|]. auto.
  - destruct Hkept as (H1 & H2 & _). split; [discriminate|]. auto.
  - destruct Hends; lia.
Qed.

(** The token provider hands out a new token at every refresh; the server
    accepts the second of them. *)
Lemma requests_carry_latest_token_witness :
  let out := makeRequest twiceRejected 4 "/picnics" "GET" None 0 (start blank) in
  out <> Exhausted /\
  carries (this blank) "/picnics" "GET" None (auth (this blank)) (traceOf out) /\
  ends (fun r' => auth (this (world r')) = lastToken (auth (this blank)) (trace r')) out.
Proof.
  apply (requests_carry_latest_token twiceRejected 4 "/picnics" "GET" None blank).
  simpl. lia.
Defined.

(** X2. When the refresh that follows a 401 fails, the call is over: it throws
    ["Authentication failed. Please login again."] after this one request,
    however many retries are left, and the object keeps its token. *)
Theorem failed_refresh_is_final
    platform fuel endpoint method data retryCount r response refresh error :
  fetch platform (trace r) (buildOptions (this (world r)) endpoint method data) =
    FetchResolves response ->
  status response = 401 ->
  refreshToken platform = Some refresh ->
  refresh (trace r ++
           [Fetched (buildOptions (this (world r)) endpoint method data)
              (FetchResolves response)]) = RefreshRejects error ->
  makeRequest platform (S fuel) endpoint method data retryCount r =
    Throw (Error "Authentication failed. Please login again.")
      {| world := world r;
         trace := trace r ++
           [Fetched (buildOptions (this (world r)) endpoint method data)
              (FetchResolves response);
            Refreshed (RefreshRejects error);
            Console "error" "Failed to refresh token:"] |}.
Proof.
  intros Hfetch Hstatus Hprovider Hrefresh.
  simpl. unfold_js. simpl.
  unfold buildOptions in Hfetch, Hrefresh. rewrite Hfetch. simpl.
  rewrite Hstatus. simpl. rewrite Hprovider. simpl. rewrite Hrefresh. simpl.
  rewrite andb_false_r. rewrite <- !app_assoc. reflexivity.
Qed.

Lemma failed_refresh_is_final_witness :
  makeRequest lapsed 1 "/picnics" "GET" None 0 (start blank) =
    Throw (Error "Authentication failed. Please login again.")
      {| world := blank;
         trace :=
           [Fetched (buildOptions (this blank) "/picnics" "GET" None)
              (FetchResolves unauthorizedResponse);
            Refreshed (RefreshRejects (Error "Session expired"));
            Console "error" "Failed to refresh token:"] |}.
Proof.
  apply (failed_refresh_is_final lapsed 0 "/picnics" "GET" None 0 (start blank)
           unauthorizedResponse (fun _ => RefreshRejects (Error "Session expired"))
           (Error "Session expired")); reflexivity.
Defined.

Section ErrorResponse.
Variable platform : Platform.
Variable response : Response.
Hypothesis other_status : status response <> 401.
Hypothesis not_ok : ok response = false.
Hypothesis answered :
  forall history request, fetch platform history request = FetchResolves response.

Lemma attempt_refused endpoint method data retryCount r :
  attempt platform endpoint method data retryCount r =
    let failure :=
      Fetched (buildOptions (this (world r)) endpoint method data)
        (FetchResolves response) in
    if Nat.ltb retryCount (retryAttempts (this (world r))) &&
       isNetworkError (failureOf response)
    then
      Normal Again
        {| world := world r;
           trace := trace r ++
             [failure; Slept (retryDelay (this (world r)) * (Z.of_nat retryCount + 1))] |}
    else Throw (failureOf response) {| world := world r; trace := trace r ++ [failure] |}.
Proof.
  unfold_js. unfold failureOf, errorDataOf. simpl. rewrite answered. simpl.
  apply Nat.eqb_neq in other_status. rewrite other_status. simpl.
  rewrite not_ok. simpl.
  destruct (json response) as [[|message text]|error]; simpl;
    (destruct (Nat.ltb retryCount _ && _); simpl; [rewrite <- app_assoc|]; reflexivity).
Qed.

Lemma makeRequest_refused fuel endpoint method data : forall retryCount r,
  retryCount <= retryAttempts (this (world r)) ->
  retryAttempts (this (world r)) < fuel + retryCount ->
  exists delta,
    makeRequest platform fuel endpoint method data retryCount r =
      Throw (failureOf response) {| world := world r; trace := trace r ++ delta |} /\
    fetches delta =
      (if isNetworkError (failureOf response)
       then retryAttempts (this (world r)) + 1 - retryCount else 1) /\
    delays delta =
      (if isNetworkError (failureOf response)
       then map (fun k => (retryDelay (this (world r)) * Z.of_nat k)%Z)
              (seq (retryCount + 1) (retryAttempts (this (world r)) - retryCount))
       else []).
Proof.
  induction fuel as [|fuel IH]; intros retryCount r Hle Hfuel; [simpl in Hfuel; lia|].
  simpl. unfold bind. rewrite attempt_refused. cbv zeta.
  destruct (isNetworkError (failureOf response)) eqn:Hretried.
  - rewrite andb_true_r. destruct (Nat.ltb retryCount _) eqn:Hlt.
    + apply Nat.ltb_lt in Hlt.
      destruct (IH (retryCount + 1)
                  {| world := world r;
                     trace := trace r ++
                       [Fetched (buildOptions (this (world r)) endpoint method data)
                          (FetchResolves response);
                        Slept (retryDelay (this (world r)) * (Z.of_nat retryCount + 1))] |})
        as (delta & Hrun & Hfetches & Hdelays); simpl; [lia|lia|].
      simpl in *. eexists. split; [|split].
      * rewrite Hrun, <- app_assoc. reflexivity.
      * simpl. rewrite Hfetches. lia.
      * simpl. rewrite Hdelays.
        replace (retryAttempts (this (world r)) - retryCount)
          with (S (retryAttempts (this (world r)) - (retryCount + 1))) by lia.
        simpl. f_equal; [lia|]. f_equal. f_equal. lia.
    + apply Nat.ltb_ge in Hlt.
      assert (retryCount = retryAttempts (this (world r))) as -> by lia.
      eexists. split; [reflexivity|]. simpl.
      rewrite Nat.sub_diag. split; [lia|reflexivity].
  - rewrite andb_false_r. eexists. split; [reflexivity|]. split; reflexivity.
Qed.

End ErrorResponse.

(** The error made of a response that is not [ok], by the body of the
    response. *)
Lemma failureOf_cases response :
  match json response with
  | JsonResolves JsonNull =>
      failureOf response = TypeError (nullRead "message") /\
      isNetworkError (failureOf response) = true
  | JsonResolves (mkBody message _) =>
      failureOf response = Error (errorMessage message response) /\
      isNetworkError (failureOf response) =
        JsString.includes (errorMessage message response) "fetch"
  | JsonRejects _ =>
      failureOf response = Error (errorMessage None response) /\
      isNetworkError (failureOf response) =
        JsString.includes (errorMessage None response) "fetch"
  end.
Proof.
  unfold failureOf, errorDataOf.
  destruct (json response) as [[|message text]|error]; split; reflexivity.
Qed.

(** X3. Whether an HTTP error is retried depends on the error that the client
    makes of the response, not on its status. The answer of a server that
    refuses every request in the same way is thrown after one request when
    its body has a [message] or none, or is no JSON, unless the text of the
    error contains ["fetch"]; then, and when the body is [null], so that
    reading its [message] throws a [TypeError], the call is repeated
    with the waits of a network failure, sends [retryAttempts + 1] requests
    and throws the error of the last one. *)
Theorem error_text_decides_retry platform response fuel endpoint method data w :
  status response <> 401 ->
  ok response = false ->
  (forall history request, fetch platform history request = FetchResolves response) ->
  retryAttempts (this w) < fuel ->
  let text := fun message => errorMessage message response in
  let retried :=
    match json response with
    | JsonResolves JsonNull => true
    | JsonResolves (mkBody message _) => JsString.includes (text message) "fetch"
    | JsonRejects _ => JsString.includes (text None) "fetch"
    end in
  let error :=
    match json response with
    | JsonResolves JsonNull => TypeError (nullRead "message")
    | JsonResolves (mkBody message _) => Error (text message)
    | JsonRejects _ => Error (text None)
    end in
  error = failureOf response /\
  exists r',
    makeRequest platform fuel endpoint method data 0 (start w) = Throw error r' /\
    world r' = w /\
    fetches (trace r') = (if retried then retryAttempts (this w) + 1 else 1) /\
    delays (trace r') =
      (if retried
       then map (fun k => (retryDelay (this w) * Z.of_nat k)%Z)
              (seq 1 (retryAttempts (this w)))
       else []).
Proof.
  intros Hstatus Hok Hanswered Hfuel text retried error.
  destruct (makeRequest_refused platform response Hstatus Hok Hanswered
              fuel endpoint method data 0 (start w))
    as (delta & Hrun & Hfetches & Hdelays); simpl; [lia|lia|].
  pose proof (failureOf_cases response) as Hcases.
  assert (Herror : error = failureOf response /\
                   retried = isNetworkError (failureOf response)).
  { subst error retried text. cbv beta.
    destruct (json response) as [[|message body]|rejection];
      destruct Hcases as [-> ->]; split; reflexivity. }
  destruct Herror as [-> ->]. split; [reflexivity|].
  eexists. split; [exact Hrun|]. simpl in *.
  rewrite Nat.sub_0_r in *. auto.
Qed.

Lemma error_text_decides_retry_witness :
  Error "upstream fetch failed" = failureOf gatewayResponse /\
  exists r',
    makeRequest gateway 4 "/picnics" "GET" None 0 (start blank) =
      Throw (Error "upstream fetch failed") r' /\
    world r' = blank /\
    fetches (trace r') = 3 + 1 /\
    delays (trace r') = [1000; 2000; 3000]%Z.
Proof.
  apply (error_text_decides_retry gateway gatewayResponse 4 "/picnics" "GET" None blank).
  - simpl. lia.
  - reflexivity.
  - reflexivity.
  - simpl. lia.
Defined.

(** The error of a server that fails without such a text is thrown after
    the first request. *)
Example plain_error_is_not_retried :
  makeRequest failing 4 "/picnics" "GET" None 0 (start blank) =
    Throw (Error "HTTP 500: Internal Server Error")
      {| world := blank;
         trace :=
           [Fetched (buildOptions (this blank) "/picnics" "GET" None)
              (FetchResolves failingResponse)] |}.
Proof. reflexivity. Qed.

(** The error of a server that fails with the body [null] is a
    [TypeError]: the request is sent four times, with the waits between. *)
Example null_body_is_retried :
  exists r',
    makeRequest void 4 "/picnics" "GET" None 0 (start blank) =
      Throw (TypeError "Cannot read properties of null (reading 'message')") r' /\
    world r' = blank /\
    requests (trace r') = replicate 4 (buildOptions (this blank) "/picnics" "GET" None) /\
    delays (trace r') = [1000; 2000; 3000]%Z.
Proof. eexists. split; [vm_compute; reflexivity|]. vm_compute. auto. Qed.

Section NoProvider.
Variable platform : Platform.
Variable response : Response.
Hypothesis unauthorized_status : status response = 401.
Hypothesis not_ok : ok response = false.
Hypothesis answered :
  forall history request, fetch platform history request = FetchResolves response.
Hypothesis no_provider : refreshToken platform = None.

Lemma attempt_unrefreshed endpoint method data retryCount r :
  attempt platform endpoint method data retryCount r =
    let r' :=
      {| world := world r;
         trace := trace r ++
           [Fetched (buildOptions (this (world r)) endpoint method data)
              (FetchResolves response)] |} in
    if Nat.ltb retryCount (retryAttempts (this (world r))) then Normal Again r'
    else Throw (failureOf response) r'.
Proof.
  unfold_js. unfold failureOf, errorDataOf. simpl. rewrite answered. simpl.
  rewrite unauthorized_status. simpl. rewrite no_provider. simpl.
  destruct (Nat.ltb retryCount _) eqn:Hlt; simpl; [reflexivity|].
  rewrite not_ok. simpl.
  destruct (json response) as [[|message text]|error]; simpl; rewrite Hlt; reflexivity.
Qed.

Lemma makeRequest_unrefreshed fuel endpoint method data : forall retryCount r,
  retryCount <= retryAttempts (this (world r)) ->
  retryAttempts (this (world r)) < fuel + retryCount ->
  makeRequest platform fuel endpoint method data retryCount r =
    Throw (failureOf response)
      {| world := world r;
         trace := trace r ++
           replicate (retryAttempts (this (world r)) + 1 - retryCount)
             (Fetched (buildOptions (this (world r)) endpoint method data)
                (FetchResolves response)) |}.
Proof.
  induction fuel as [|fuel IH]; intros retryCount r Hle Hfuel; [simpl in Hfuel; lia|].
  simpl. unfold bind. rewrite attempt_unrefreshed. cbv zeta.
  destruct (Nat.ltb retryCount _) eqn:Hlt.
  - apply Nat.ltb_lt in Hlt. rewrite IH; simpl; [|lia|lia].
    replace (retryAttempts (this (world r)) + 1 - retryCount)
      with (S (retryAttempts (this (world r)) + 1 - (retryCount + 1))) by lia.
    simpl. rewrite <- app_assoc. reflexivity.
  - apply Nat.ltb_ge in Hlt.
    assert (retryCount = retryAttempts (this (world r))) as -> by lia.
    replace (retryAttempts (this (world r)) + 1 - retryAttempts (this (world r)))
      with 1 by lia.
    reflexivity.
Qed.

End NoProvider.

(** X4. Where the platform has no [refreshToken], a 401 is answered by sending
    the same request again, with the same token: [retryAttempts + 1] equal
    requests one after the other, without a wait, and then the error that
    the client makes of the response: [new Error(...)] with the [message]
    of the body or the status line, or the [TypeError] of reading the
    [message] of a body that is [null]. *)
Theorem unrefreshed_401_is_repeated platform response fuel endpoint method data w :
  status response = 401 ->
  ok response = false ->
  (forall history request, fetch platform history request = FetchResolves response) ->
  refreshToken platform = None ->
  retryAttempts (this w) < fuel ->
  let error :=
    match json response with
    | JsonResolves JsonNull => TypeError (nullRead "message")
    | JsonResolves (mkBody message _) => Error (errorMessage message response)
    | JsonRejects _ => Error (errorMessage None response)
    end in
  error = failureOf response /\
  makeRequest platform fuel endpoint method data 0 (start w) =
    Throw error
      {| world := w;
         trace :=
           replicate (retryAttempts (this w) + 1)
             (Fetched (buildOptions (this w) endpoint method data)
                (FetchResolves response)) |}.
Proof.
  intros Hstatus Hok Hanswered Hnone Hfuel error.
  assert (Herror : error = failureOf response).
  { subst error. pose proof (failureOf_cases response) as Hcases.
    destruct (json response) as [[|message body]|rejection];
      destruct Hcases as [-> _]; reflexivity. }
  split; [exact Herror|]. rewrite Herror.
  rewrite (makeRequest_unrefreshed platform response Hstatus Hok Hanswered Hnone);
    simpl; [|lia|lia].
  rewrite Nat.sub_0_r. reflexivity.
Qed.

Lemma unrefreshed_401_is_repeated_witness :
  Error "HTTP 401: Unauthorized" = failureOf unauthorizedResponse /\
  makeRequest unattended 4 "/picnics" "GET" None 0 (start blank) =
    Throw (Error "HTTP 401: Unauthorized")
      {| world := blank;
         trace :=
           replicate 4
             (Fetched (buildOptions (this blank) "/picnics" "GET" None)
                (FetchResolves unauthorizedResponse)) |}.
Proof.
  apply (unrefreshed_401_is_repeated unattended unauthorizedResponse 4
           "/picnics" "GET" None blank).
  - reflexivity.
  - reflexivity.
  - reflexivity.
  - reflexivity.
  - simpl. lia.
Defined.

(** *** What a request leaves alone *)

Lemma differsInToken_refl w : differsInToken w w.
Proof.
  exists (auth (this w)). destruct w as [[] store queue]. reflexivity.
Qed.

Lemma differsInToken_trans w1 w2 w3 :
  differsInToken w1 w2 -> differsInToken w2 w3 -> differsInToken w1 w3.
Proof.
  intros [t2 ->] [t3 ->]. exists t3. reflexivity.
Qed.

Lemma differsInToken_fields w w' :
  differsInToken w w' ->
  ws (this w') = ws (this w) /\
  subscriptions (this w') = subscriptions (this w) /\
  eventHandlers (this w') = eventHandlers (this w) /\
  wsReconnectAttempts (this w') = wsReconnectAttempts (this w) /\
  retryAttempts (this w') = retryAttempts (this w) /\
  sets w' = sets w /\
  timers w' = timers w.
Proof.
  intros [token ->]. simpl. auto 10.
Qed.

Lemma attempt_differsInToken platform endpoint method data retryCount r :
  ends (fun r' => differsInToken (world r) (world r'))
    (attempt platform endpoint method data retryCount r).
Proof.
  pose proof (differsInToken_refl (world r)) as Hrefl.
  assert (Hset : forall token,
            differsInToken (world r)
              (set_this (world r) (set_auth (this (world r)) (Some token)))).
  { intros token. exists (Some token). reflexivity. }
  unfold attempt, buildOptions, handleAuthError, awaitFetch, awaitJson, awaitRefresh,
    readMessage, sleep, console, record, modify, getThis, getWorld, ret, throw, bind,
    try_catch.
  destruct r as [w events]; simpl in *.
  repeat match goal with
         | |- context [match ?x with _ => _ end] =>
             lazymatch x with
             | context [match _ with _ => _ end] => fail
             | _ => destruct x eqn:?; simpl
             end
         end; auto.
Qed.

Lemma makeRequest_differsInToken platform fuel endpoint method data :
  forall retryCount r,
    ends (fun r' => differsInToken (world r) (world r'))
      (makeRequest platform fuel endpoint method data retryCount r).
Proof.
  induction fuel as [|fuel IH]; intros retryCount r; [exact I|].
  simpl. unfold bind.
  pose proof (attempt_differsInToken platform endpoint method data retryCount r) as Hpass.
  destruct (attempt platform endpoint method data retryCount r) as [[body|] r1|e r1|];
    simpl in *; auto.
  specialize (IH (retryCount + 1) r1).
  destruct (makeRequest platform fuel endpoint method data (retryCount + 1) r1);
    simpl in *; eauto using differsInToken_trans.
Qed.

(** X26. A request changes nothing of the client but the token: however the
    server and the token provider answer, the socket, the subscriptions,
    the handlers, the counters and the timers are after the call what
    they were before it. *)
Theorem requests_only_change_the_token platform fuel endpoint method data w :
  retryAttempts (this w) < fuel ->
  let out := makeRequest platform fuel endpoint method data 0 (start w) in
  out <> Exhausted /\
  ends (fun r' =>
          differsInToken w (world r') /\
          ws (this (world r')) = ws (this w) /\
          subscriptions (this (world r')) = subscriptions (this w) /\
          eventHandlers (this (world r')) = eventHandlers (this w) /\
          sets (world r') = sets w /\
          timers (world r') = timers w)
    out.
Proof.
  intros Hfuel out.
  pose proof (makeRequest_summary platform fuel endpoint method data 0 (start w)) as Hends.
  pose proof (makeRequest_differsInToken platform fuel endpoint method data 0 (start w))
    as Hframe.
  simpl in Hends. fold out in Hends, Hframe.
  destruct out as [body r'|error r'|]; simpl in *.
  - split; [discriminate|].
    destruct (differsInToken_fields _ _ Hframe) as (H1 & H2 & H3 & _ & _ & H6 & H7).
    auto 10.
  - split; [discriminate|].
    destruct (differsInToken_fields _ _ Hframe) as (H1 & H2 & H3 & _ & _ & H6 & H7).
    auto 10.
  - destruct Hends; lia.
Qed.

Lemma requests_only_change_the_token_witness :
  let out := makeRequest twiceRejected 4 "/picnics" "GET" None 0 (start watched) in
  out <> Exhausted /\
  ends (fun r' =>
          differsInToken watched (world r') /\
          ws (this (world r')) = ws (this watched) /\
          subscriptions (this (world r')) = subscriptions (this watched) /\
          eventHandlers (this (world r')) = eventHandlers (this watched) /\
          sets (world r') = sets watched /\
          timers (world r') = timers watched)
    out.
Proof.
  apply (requests_only_change_the_token twiceRejected 4 "/picnics" "GET" None watched).
  simpl. lia.
Defined.

(** ** Start-up: the token, the collections, the socket *)

Lemma delays_requests_console level text events :
  requests (events ++ [Console level text]) = requests events /\
  delays (events ++ [Console level text]) = delays events.
Proof.
  rewrite requests_app, delays_app. simpl. rewrite !app_nil_r. auto.
Qed.

Section Startup.
Variable platform : Platform.
Variable window : Window.
Variable configOf : string -> string.

(** [connectWebSocket] returns, whatever the platform does, and sends no
    request. *)
Lemma connectWebSocket_ends r :
  exists r',
    connectWebSocket platform r = Normal tt r' /\
    requests (trace r') = requests (trace r) /\
    delays (trace r') = delays (trace r) /\
    auth (this (world r')) = auth (this (world r)).
Proof.
  unfold connectWebSocket, scheduleReconnect. unfold_js.
  destruct r as [w events]; simpl.
  destruct (match ws (this w) with Some socket => isOpen socket | None => false end);
    [eexists; split; [reflexivity|auto]|].
  destruct (webSocketError platform _); simpl.
  - destruct (Nat.ltb _ _); eexists; (split; [reflexivity|]); simpl;
      destruct (delays_requests_console "error" "Failed to connect WebSocket:" events);
      auto.
  - eexists. split; [reflexivity|]. auto.
Qed.

(** The checks of the collections, when each of them ends without a
    change of the object. *)
Lemma visitAll_collect {X} (f : X -> Js unit) (reqs : X -> list Request)
    (waits : X -> list Z) (w : World) :
  (forall x r, world r = w ->
     exists r',
       f x r = Normal tt r' /\ world r' = w /\
       requests (trace r') = requests (trace r) ++ reqs x /\
       delays (trace r') = delays (trace r) ++ waits x) ->
  forall xs r, world r = w ->
    exists r',
      visitAll f xs r = Normal tt r' /\ world r' = w /\
      requests (trace r') = requests (trace r) ++ flat_map reqs xs /\
      delays (trace r') = delays (trace r) ++ flat_map waits xs.
Proof.
  intros Hstep. induction xs as [|x xs IH]; intros r Hw; simpl.
  - exists r. rewrite !app_nil_r. auto.
  - unfold bind. destruct (Hstep x r Hw) as (r1 & -> & Hw1 & Hreq1 & Hdel1).
    destruct (IH r1 Hw1) as (r2 & -> & Hw2 & Hreq2 & Hdel2).
    exists r2. rewrite Hreq2, Hdel2, Hreq1, Hdel1, <- !app_assoc. auto.
Qed.

(** [initialize] after the checks of the collections have ended. *)
Lemma initialize_after_checks fuel token w reqs waits :
  getToken window = Some (TokenReturns token) ->
  (forall r, world r = set_this w (set_auth (this w) (Some token)) ->
     exists r',
       initializeCollections platform configOf fuel r = Normal tt r' /\
       world r' = world r /\
       requests (trace r') = requests (trace r) ++ reqs /\
       delays (trace r') = delays (trace r) ++ waits) ->
  exists r',
    initialize platform window configOf fuel (start w) = Normal true r' /\
    requests (trace r') = reqs /\
    delays (trace r') = waits /\
    auth (this (world r')) = Some token.
Proof.
  intros Htoken Hchecks.
  unfold initialize, getAuthToken. rewrite Htoken. unfold_js. simpl.
  destruct (Hchecks {| world := set_this w (set_auth (this w) (Some token)); trace := [] |}
              eq_refl) as (r1 & -> & Hw1 & Hreq1 & Hdel1).
  destruct (connectWebSocket_ends r1) as (r2 & -> & Hreq2 & Hdel2 & Hauth2).
  eexists. split; [reflexivity|]. simpl.
  destruct (delays_requests_console "log" "PicnicAPI initialized successfully" (trace r2))
    as [-> ->].
  rewrite Hreq2, Hdel2, Hauth2, Hreq1, Hdel1, Hw1. auto.
Qed.

End Startup.

Section Checks.
Variable platform : Platform.
Variable configOf : string -> string.
Variable token : string.
Variable w : World.

Let w' : World := set_this w (set_auth (this w) (Some token)).

Lemma ensureCollection_exists response body fuel name r :
  status response <> 401 -> ok response = true -> json response = JsonResolves body ->
  (forall history request,
     req_method request = "GET" -> fetch platform history request = FetchResolves response) ->
  world r = w' ->
  exists r',
    ensureCollection platform configOf (S fuel) name r = Normal tt r' /\
    world r' = w' /\
    requests (trace r') = requests (trace r) ++ [checkOf (this w) token name] /\
    delays (trace r') = delays (trace r) ++ [].
Proof.
  intros Hstatus Hok Hjson Hanswered Hw.
  unfold ensureCollection, getCollectionInfo, try_catch, bind.
  rewrite (makeRequest_accepted platform response
             ("/collections/" +:+ name) "GET" None 0 r
             (Hanswered (trace r)
                (buildOptions (this (world r)) ("/collections/" +:+ name) "GET" None)
                eq_refl) Hstatus fuel body Hok Hjson).
  unfold console, record. eexists. split; [reflexivity|]. simpl.
  rewrite Hw. split; [reflexivity|].
  rewrite <- app_assoc, requests_app, delays_app. simpl. rewrite !app_nil_r. auto.
Qed.


End Checks.

(** X5. When the server knows the collections, [initialize] sends the four
    checks, in the order of the configurations, creates nothing and
    returns [true] with the token stored. *)
Theorem existing_collections_are_kept
    platform window configOf response body token fuel w :
  getToken window = Some (TokenReturns token) ->
  status response <> 401 ->
  ok response = true ->
  json response = JsonResolves body ->
  (forall history request,
     req_method request = "GET" -> fetch platform history request = FetchResolves response) ->
  exists r',
    initialize platform window configOf (S fuel) (start w) = Normal true r' /\
    requests (trace r') = map (checkOf (this w) token) collectionNames /\
    delays (trace r') = [] /\
    auth (this (world r')) = Some token.
Proof.
  intros Htoken Hstatus Hok Hjson Hanswered.
  apply (initialize_after_checks platform window configOf (S fuel) token w
           (map (checkOf (this w) token) collectionNames) []);
    [exact Htoken|].
  intros r Hw. rewrite Hw. unfold initializeCollections.
  apply (visitAll_collect (ensureCollection platform configOf (S fuel))
           (fun name => [checkOf (this w) token name]) (fun _ => [])
           (set_this w (set_auth (this w) (Some token)))); [|exact Hw].
  intros name r0 Hw0.
  exact (ensureCollection_exists platform configOf token w response body fuel name r0
           Hstatus Hok Hjson Hanswered Hw0).
Qed.


Section Offline.
Variable platform : Platform.
Variable error : JsError.
Hypothesis network : isNetworkError error = true.
Hypothesis down : forall history request, fetch platform history request = FetchRejects error.

Lemma makeRequest_unreachable fuel endpoint method data : forall retryCount r,
  retryCount <= retryAttempts (this (world r)) ->
  retryAttempts (this (world r)) < fuel + retryCount ->
  exists delta,
    makeRequest platform fuel endpoint method data retryCount r =
      Throw error {| world := world r; trace := trace r ++ delta |} /\
    requests delta =
      replicate (retryAttempts (this (world r)) + 1 - retryCount)
        (buildOptions (this (world r)) endpoint method data) /\
    delays delta =
      map (fun k => (retryDelay (this (world r)) * Z.of_nat k)%Z)
        (seq (retryCount + 1) (retryAttempts (this (world r)) - retryCount)).
Proof.
  induction fuel as [|fuel IH]; intros retryCount r Hle Hfuel; [simpl in Hfuel; lia|].
  simpl. unfold bind. rewrite (attempt_down platform error network down). cbv zeta.
  destruct (Nat.ltb retryCount _) eqn:Hlt.
  - apply Nat.ltb_lt in Hlt.
    destruct (IH (retryCount + 1)
                {| world := world r;
                   trace := trace r ++
                     [Fetched (buildOptions (this (world r)) endpoint method data)
                        (FetchRejects error);
                      Slept (retryDelay (this (world r)) * (Z.of_nat retryCount + 1))] |})
      as (delta & Hrun & Hrequests & Hdelays); simpl; [lia|lia|].
    simpl in *. eexists. split; [|split].
    + rewrite Hrun, <- app_assoc. reflexivity.
    + simpl. rewrite Hrequests.
      replace (retryAttempts (this (world r)) + 1 - retryCount)
        with (S (retryAttempts (this (world r)) + 1 - (retryCount + 1))) by lia.
      reflexivity.
    + simpl. rewrite Hdelays.
      replace (retryAttempts (this (world r)) - retryCount)
        with (S (retryAttempts (this (world r)) - (retryCount + 1))) by lia.
      simpl. f_equal; [lia|]. f_equal. f_equal. lia.
  - apply Nat.ltb_ge in Hlt.
    assert (retryCount = retryAttempts (this (world r))) as -> by lia.
    eexists. split; [reflexivity|]. simpl.
    rewrite Nat.sub_diag.
    replace (retryAttempts (this (world r)) + 1 - retryAttempts (this (world r)))
      with 1 by lia.
    split; reflexivity.
Qed.

Lemma ensureCollection_unreachable configOf token w fuel name r :
  JsString.includes (message error) "404" = false ->
  JsString.includes (message error) "not found" = false ->
  retryAttempts (this w) < fuel ->
  world r = set_this w (set_auth (this w) (Some token)) ->
  exists r',
    ensureCollection platform configOf fuel name r = Normal tt r' /\
    world r' = set_this w (set_auth (this w) (Some token)) /\
    requests (trace r') =
      requests (trace r) ++
      replicate (retryAttempts (this w) + 1) (checkOf (this w) token name) /\
    delays (trace r') =
      delays (trace r) ++
      map (fun k => (retryDelay (this w) * Z.of_nat k)%Z) (seq 1 (retryAttempts (this w))).
Proof.
  intros H404 Hnotfound Hfuel Hw.
  unfold ensureCollection, getCollectionInfo, try_catch, bind.
  destruct (makeRequest_unreachable fuel ("/collections/" +:+ name) "GET" None 0 r)
    as (delta & -> & Hrequests & Hdelays); [lia|rewrite Hw; simpl; lia|].
  rewrite H404, Hnotfound. simpl.
  unfold console, record. eexists. split; [reflexivity|]. simpl.
  split; [exact Hw|].
  rewrite <- app_assoc, requests_app, delays_app, requests_app, delays_app.
  simpl. rewrite !app_nil_r, Hrequests, Hdelays, Hw. simpl.
  rewrite !Nat.sub_0_r. split; reflexivity.
Qed.

End Offline.

(** X7. Start-up does not notice that the server cannot be reached: when
    every request fails in transport, each of the four checks is tried
    [retryAttempts + 1] times with the waits of a network failure, the
    errors are written to the console, and [initialize] returns [true]. *)
Theorem initialize_succeeds_offline platform window configOf error token fuel w :
  getToken window = Some (TokenReturns token) ->
  isNetworkError error = true ->
  JsString.includes (message error) "404" = false ->
  JsString.includes (message error) "not found" = false ->
  (forall history request, fetch platform history request = FetchRejects error) ->
  retryAttempts (this w) < fuel ->
  exists r',
    initialize platform window configOf fuel (start w) = Normal true r' /\
    requests (trace r') =
      flat_map (fun name =>
                  replicate (retryAttempts (this w) + 1) (checkOf (this w) token name))
        collectionNames /\
    delays (trace r') =
      flat_map (fun _ =>
                  map (fun k => (retryDelay (this w) * Z.of_nat k)%Z)
                    (seq 1 (retryAttempts (this w))))
        collectionNames /\
    auth (this (world r')) = Some token.
Proof.
  intros Htoken Hnetwork H404 Hnotfound Hdown Hfuel.
  apply (initialize_after_checks platform window configOf fuel token w); [exact Htoken|].
  intros r Hw. rewrite Hw. unfold initializeCollections.
  apply (visitAll_collect (ensureCollection platform configOf fuel)
           (fun name =>
              replicate (retryAttempts (this w) + 1) (checkOf (this w) token name))
           (fun _ =>
              map (fun k => (retryDelay (this w) * Z.of_nat k)%Z)
                (seq 1 (retryAttempts (this w))))
           (set_this w (set_auth (this w) (Some token)))); [|exact Hw].
  intros name r0 Hw0.
  exact (ensureCollection_unreachable platform error Hnetwork Hdown configOf token w
           fuel name r0 H404 Hnotfound Hfuel Hw0).
Qed.

Section Creation.
Variable platform : Platform.
Variable configOf : string -> string.
Variables missing refused : Response.
Hypothesis missing_status : status missing <> 401.
Hypothesis missing_not_ok : ok missing = false.
Hypothesis missing_text : isNetworkError (failureOf missing) = false.
Hypothesis missing_told :
  JsString.includes (message (failureOf missing)) "404" ||
  JsString.includes (message (failureOf missing)) "not found" = true.
Hypothesis refused_status : status refused <> 401.
Hypothesis refused_not_ok : ok refused = false.
Hypothesis refused_text : isNetworkError (failureOf refused) = false.
Hypothesis server :
  forall history request,
    fetch platform history request =
      FetchResolves (if String.eqb (req_method request) "GET" then missing else refused).

Lemma ensureCollection_refused_creation fuel name r :
  ensureCollection platform configOf (S fuel) name r =
    Throw (failureOf refused)
      {| world := world r;
         trace := trace r ++
           [Fetched (buildOptions (this (world r)) ("/collections/" +:+ name) "GET" None)
              (FetchResolves missing);
            Fetched (buildOptions (this (world r)) "/collections" "POST"
                       (Some (configOf name)))
              (FetchResolves refused)] |}.
Proof.
  unfold ensureCollection, getCollectionInfo, createCollection, try_catch, bind.
  rewrite (makeRequest_refused_once platform missing
             ("/collections/" +:+ name) "GET" None 0 r
             (server _ _) missing_status fuel missing_not_ok missing_text).
  cbn -[makeRequest]. rewrite missing_told.
  match goal with |- context [makeRequest _ _ _ _ _ _ ?r1] =>
    rewrite (makeRequest_refused_once platform refused
               "/collections" "POST" (Some (configOf name)) 0 r1
               (server _ _) refused_status fuel refused_not_ok refused_text)
  end.
  simpl. rewrite <- app_assoc. reflexivity.
Qed.

End Creation.

(** X8. A creation that fails ends start-up. When the error that the client
    makes of the answer to a check says ["404"] or ["not found"] and the
    error that it makes of the answer to a creation is not retried (neither
    error is a [TypeError], as it is for a body that is [null], and
    neither text contains ["fetch"]), [initialize] throws
    ["Failed to connect to backend services"] after the check and the
    creation of the first collection; the other collections are not
    checked and no socket is opened. *)
Theorem refused_creation_ends_startup
    platform window configOf missing refused token fuel w :
  getToken window = Some (TokenReturns token) ->
  status missing <> 401 ->
  ok missing = false ->
  isNetworkError (failureOf missing) = false ->
  JsString.includes (message (failureOf missing)) "404" ||
  JsString.includes (message (failureOf missing)) "not found" = true ->
  status refused <> 401 ->
  ok refused = false ->
  isNetworkError (failureOf refused) = false ->
  (forall history request,
     fetch platform history request =
       FetchResolves (if String.eqb (req_method request) "GET" then missing else refused)) ->
  exists r',
    initialize platform window configOf (S fuel) (start w) =
      Throw (Error "Failed to connect to backend services") r' /\
    requests (trace r') =
      [checkOf (this w) token "picnics";
       creationOf (this w) token (configOf "picnics")] /\
    ws (this (world r')) = ws (this w) /\
    timers (world r') = timers w.
Proof.
  intros Htoken H1 H2 H3 H4 H5 H6 H7 Hserver.
  unfold initialize, getAuthToken. rewrite Htoken.
  unfold initializeCollections, collectionNames. cbn [visitAll].
  unfold try_catch, bind, ret, modify, start. cbn [world trace].
  rewrite (ensureCollection_refused_creation platform configOf missing refused
             H1 H2 H3 H4 H5 H6 H7 Hserver).
  unfold console, record, throw. simpl.
  eexists. split; [reflexivity|]. simpl. auto.
Qed.

(** *** The start-up in four situations *)

Lemma existing_collections_are_kept_witness :
  exists r',
    initialize known provided sampleConfig 1 (start blank) = Normal true r' /\
    requests (trace r') =
      map (checkOf (this blank) "token-of-the-platform") collectionNames /\
    delays (trace r') = [] /\
    auth (this (world r')) = Some "token-of-the-platform".
Proof.
  apply (existing_collections_are_kept known provided sampleConfig okResponse
           (mkBody None "[]") "token-of-the-platform" 0 blank).
  - reflexivity.
  - simpl. lia.
  - reflexivity.
  - reflexivity.
  - reflexivity.
Defined.


Lemma initialize_succeeds_offline_witness :
  exists r',
    initialize offline provided sampleConfig 4 (start blank) = Normal true r' /\
    requests (trace r') =
      flat_map (fun name =>
                  replicate (3 + 1) (checkOf (this blank) "token-of-the-platform" name))
        collectionNames /\
    delays (trace r') =
      [1000; 2000; 3000; 1000; 2000; 3000; 1000; 2000; 3000; 1000; 2000; 3000]%Z /\
    auth (this (world r')) = Some "token-of-the-platform".
Proof.
  apply (initialize_succeeds_offline offline provided sampleConfig
           (mkError "TypeError" "Failed to fetch") "token-of-the-platform" 4 blank).
  - reflexivity.
  - reflexivity.
  - reflexivity.
  - reflexivity.
  - reflexivity.
  - simpl. lia.
Defined.

Lemma refused_creation_ends_startup_witness :
  exists r',
    initialize readOnly provided sampleConfig 1 (start blank) =
      Throw (Error "Failed to connect to backend services") r' /\
    requests (trace r') =
      [checkOf (this blank) "token-of-the-platform" "picnics";
       creationOf (this blank) "token-of-the-platform" (sampleConfig "picnics")] /\
    ws (this (world r')) = ws (this blank) /\
    timers (world r') = timers blank.
Proof.
  apply (refused_creation_ends_startup readOnly provided sampleConfig
           missingResponse forbiddenResponse "token-of-the-platform" 0 blank).
  - reflexivity.
  - simpl. lia.
  - reflexivity.
  - reflexivity.
  - reflexivity.
  - simpl. lia.
  - reflexivity.
  - reflexivity.
  - reflexivity.
Defined.

(** A server that answers every check with the status 404 and the body
    [null]: the error of a check is a [TypeError], which says neither
    ["404"] nor ["not found"]; each check is sent four times, nothing is
    created, and [initialize] returns [true]. *)
Example null_body_of_a_check :
  exists r',
    initialize hollow provided sampleConfig 4 (start blank) = Normal true r' /\
    requests (trace r') =
      flat_map (fun name =>
                  replicate 4 (checkOf (this blank) "token-of-the-platform" name))
        collectionNames /\
    delays (trace r') =
      [1000; 2000; 3000; 1000; 2000; 3000; 1000; 2000; 3000; 1000; 2000; 3000]%Z.
Proof. eexists. split; [vm_compute; reflexivity|]. vm_compute. auto. Qed.

(** X9. Without a token from the platform the client starts only on the
    developer's machine, with the token for development; anywhere else
    [initialize] fails before it has sent a request or opened a socket. *)
Theorem startup_without_platform_token platform window configOf fuel w :
  getToken window = None ->
  (hostname window <> "localhost" -> hostname window <> "127.0.0.1" ->
   initialize platform window configOf fuel (start w) =
     Throw (Error "Failed to connect to backend services")
       {| world := w; trace := [Console "error" "Failed to initialize PicnicAPI:"] |}) /\
  (hostname window = "localhost" \/ hostname window = "127.0.0.1" ->
   initialize platform window configOf fuel (start w) =
     initialize platform
       {| getToken := Some (TokenReturns "mock-jwt-token-for-development");
          hostname := hostname window |}
       configOf fuel (start w)).
Proof.
  intros Hnone. unfold initialize, getAuthToken. rewrite Hnone. split.
  - intros Hlocal Hloop. apply String.eqb_neq in Hlocal, Hloop.
    rewrite Hlocal, Hloop. reflexivity.
  - intros [Hhost|Hhost]; rewrite Hhost; reflexivity.
Qed.

Lemma startup_without_platform_token_witness :
  (hostname unprovided <> "localhost" -> hostname unprovided <> "127.0.0.1" ->
   initialize known unprovided sampleConfig 1 (start blank) =
     Throw (Error "Failed to connect to backend services")
       {| world := blank; trace := [Console "error" "Failed to initialize PicnicAPI:"] |}) /\
  (hostname unprovided = "localhost" \/ hostname unprovided = "127.0.0.1" ->
   initialize known unprovided sampleConfig 1 (start blank) =
     initialize known
       {| getToken := Some (TokenReturns "mock-jwt-token-for-development");
          hostname := hostname unprovided |}
       sampleConfig 1 (start blank)).
Proof.
  apply (startup_without_platform_token known unprovided sampleConfig 1 blank).
  reflexivity.
Defined.

(** *** What start-up leaves behind *)

Section Safety.
Variable platform : Platform.
Variable window : Window.
Variable configOf : string -> string.

Lemma makeRequest_settled fuel endpoint method data r :
  retryAttempts (this (world r)) < fuel ->
  settled r (makeRequest platform fuel endpoint method data 0 r).
Proof.
  intros Hfuel.
  pose proof (makeRequest_summary platform fuel endpoint method data 0 r) as Hends.
  pose proof (makeRequest_differsInToken platform fuel endpoint method data 0 r) as Hframe.
  destruct (makeRequest platform fuel endpoint method data 0 r); simpl in *; auto.
  apply Hends; lia.
Qed.

Lemma settled_attempts {A} r (c : Completion A) :
  settled r c ->
  ends (fun r' => retryAttempts (this (world r')) = retryAttempts (this (world r))) c.
Proof.
  destruct c; simpl; [| |tauto]; intros Hdiffers;
    apply differsInToken_fields in Hdiffers; tauto.
Qed.

Lemma ensureCollection_settled fuel name r :
  retryAttempts (this (world r)) < fuel ->
  settled r (ensureCollection platform configOf fuel name r).
Proof.
  intros Hfuel. unfold ensureCollection, getCollectionInfo, createCollection,
    try_catch, bind, console, record.
  pose proof (makeRequest_settled fuel ("/collections/" +:+ name) "GET" None r Hfuel)
    as Hcheck.
  destruct (makeRequest platform fuel ("/collections/" +:+ name) "GET" None 0 r)
    as [body r1|error r1|]; simpl in *; [exact Hcheck| |exact Hcheck].
  destruct (JsString.includes (message error) "404" ||
            JsString.includes (message error) "not found"); [|exact Hcheck].
  assert (Hfuel1 : retryAttempts (this (world r1)) < fuel).
  { apply differsInToken_fields in Hcheck as Hfields.
    destruct Hfields as (_ & _ & _ & _ & -> & _). exact Hfuel. }
  pose proof (makeRequest_settled fuel "/collections" "POST" (Some (configOf name)) r1
                Hfuel1) as Hcreate.
  destruct (makeRequest platform fuel "/collections" "POST" (Some (configOf name)) 0 r1);
    simpl in *; eauto using differsInToken_trans.
Qed.

Lemma initializeCollections_settled fuel names : forall r,
  retryAttempts (this (world r)) < fuel ->
  settled r (visitAll (ensureCollection platform configOf fuel) names r).
Proof.
  induction names as [|name names IH]; intros r Hfuel; simpl.
  - apply differsInToken_refl.
  - unfold bind.
    pose proof (ensureCollection_settled fuel name r Hfuel) as Hstep.
    destruct (ensureCollection platform configOf fuel name r) as [[] r1|error r1|];
      simpl in *; [|exact Hstep|exact Hstep].
    assert (Hfuel1 : retryAttempts (this (world r1)) < fuel).
    { apply differsInToken_fields in Hstep as Hfields.
      destruct Hfields as (_ & _ & _ & _ & -> & _). exact Hfuel. }
    specialize (IH r1 Hfuel1).
    destruct (visitAll _ names r1); simpl in *; eauto using differsInToken_trans.
Qed.

(** [connectWebSocket] returns and leaves the subscriptions and the
    handlers alone. *)
Lemma connectWebSocket_returns r :
  exists r',
    connectWebSocket platform r = Normal tt r' /\
    subscriptions (this (world r')) = subscriptions (this (world r)) /\
    eventHandlers (this (world r')) = eventHandlers (this (world r)) /\
    sets (world r') = sets (world r).
Proof.
  unfold connectWebSocket, scheduleReconnect, bind, getThis, try_catch, throw, console,
    record, modify, ret.
  destruct r as [w events]; simpl.
  destruct (match ws (this w) with Some socket => isOpen socket | None => false end);
    [eexists; split; [reflexivity|auto]|].
  destruct (webSocketError platform _); simpl.
  - destruct (Nat.ltb _ _); eexists; (split; [reflexivity|]); simpl; auto.
  - eexists. split; [reflexivity|]. auto.
Qed.

End Safety.

(** X27. [initialize] ends, whatever the platform and the server do. It
    fails in one way only, with ["Failed to connect to backend
    services"], and then it has not touched the socket or the timers; and
    however it ends, the subscriptions and the handlers of the client are
    what they were. *)
Theorem failed_startup_leaves_no_socket platform window configOf fuel w :
  retryAttempts (this w) < fuel ->
  let out := initialize platform window configOf fuel (start w) in
  out <> Exhausted /\
  (forall error r', out = Throw error r' ->
     error = Error "Failed to connect to backend services" /\
     ws (this (world r')) = ws (this w) /\
     timers (world r') = timers w) /\
  (forall value r', out = Normal value r' -> value = true) /\
  ends (fun r' =>
          subscriptions (this (world r')) = subscriptions (this w) /\
          eventHandlers (this (world r')) = eventHandlers (this w) /\
          sets (world r') = sets w)
    out.
Proof.
  intros Hfuel out. subst out.
  unfold initialize, getAuthToken, try_catch, bind, console, record, throw, ret, modify.
  assert (Hgoal : forall token,
    let r0 := {| world := set_this w (set_auth (this w) (Some token)); trace := [] |} in
    settled r0 (initializeCollections platform configOf fuel r0)).
  { intros token r0. apply initializeCollections_settled. exact Hfuel. }
  assert (Hcase : forall token,
    let out :=
      match
        match initializeCollections platform configOf fuel
                {| world := set_this w (set_auth (this w) (Some token)); trace := [] |}
        with
        | Normal _ r1 =>
            match connectWebSocket platform r1 with
            | Normal _ r2 =>
                Normal true
                  {| world := world r2;
                     trace := trace r2 ++
                       [Console "log" "PicnicAPI initialized successfully"] |}
            | Throw e r2 => Throw e r2
            | Exhausted => Exhausted
            end
        | Throw e r1 => Throw e r1
        | Exhausted => Exhausted
        end
      with
      | Normal a r' => Normal a r'
      | Throw _ r' =>
          Throw (Error "Failed to connect to backend services")
            {| world := world r';
               trace := trace r' ++ [Console "error" "Failed to initialize PicnicAPI:"] |}
      | Exhausted => Exhausted
      end in
    out <> Exhausted /\
    (forall error r', out = Throw error r' ->
       error = Error "Failed to connect to backend services" /\
       ws (this (world r')) = ws (this w) /\
       timers (world r') = timers w) /\
    (forall value r', out = Normal value r' -> value = true) /\
    ends (fun r' =>
            subscriptions (this (world r')) = subscriptions (this w) /\
            eventHandlers (this (world r')) = eventHandlers (this w) /\
            sets (world r') = sets w)
      out).
  { intros token. specialize (Hgoal token). cbv zeta in Hgoal.
    destruct (initializeCollections platform configOf fuel _) as [[] r1|e r1|];
      simpl in Hgoal; [| |destruct Hgoal].
    - apply differsInToken_fields in Hgoal as (H1 & H2 & H3 & _ & _ & H6 & H7).
      simpl in *.
      destruct (connectWebSocket_returns platform r1) as (r2 & -> & Hs & Hh & Hsets).
      cbv zeta. split; [discriminate|]. split; [discriminate|].
      split; [intros value r' [= <- _]; reflexivity|]. simpl.
      rewrite Hs, Hh, Hsets. auto.
    - apply differsInToken_fields in Hgoal as (H1 & H2 & H3 & _ & _ & H6 & H7).
      simpl in *. cbv zeta. split; [discriminate|]. split.
      + intros error r' [= <- <-]. simpl. auto.
      + split; [discriminate|]. simpl. auto. }
  destruct (getToken window) as [[token|error]|]; simpl.
  - apply Hcase.
  - split; [discriminate|]. split; [intros e r' [= <- <-]; simpl; auto|].
    split; [discriminate|]. simpl. auto.
  - destruct (String.eqb (hostname window) "localhost" ||
              String.eqb (hostname window) "127.0.0.1"); simpl.
    + apply Hcase.
    + split; [discriminate|]. split; [intros e r' [= <- <-]; simpl; auto|].
      split; [discriminate|]. simpl. auto.
Qed.

Lemma failed_startup_leaves_no_socket_witness :
  let out := initialize readOnly provided sampleConfig 4 (start watched) in
  out <> Exhausted /\
  (forall error r', out = Throw error r' ->
     error = Error "Failed to connect to backend services" /\
     ws (this (world r')) = ws (this watched) /\
     timers (world r') = timers watched) /\
  (forall value r', out = Normal value r' -> value = true) /\
  ends (fun r' =>
          subscriptions (this (world r')) = subscriptions (this watched) /\
          eventHandlers (this (world r')) = eventHandlers (this watched) /\
          sets (world r') = sets watched)
    out.
Proof.
  apply (failed_startup_leaves_no_socket readOnly provided sampleConfig 4 watched).
  simpl. lia.
Defined.

(** ** The event emitter: [on] and [off] *)

Lemma present_app {X} (xs ys : list (option X)) :
  present (xs ++ ys) = present xs ++ present ys.
Proof.
  induction xs as [|[x|] xs IH]; simpl; rewrite ?IH; reflexivity.
Qed.

Lemma has_present (s : JsSet.SetData Callback) x :
  JsSet.has s x = true <-> In x (present s).
Proof.
  induction s as [|[y|] s IH]; simpl.
  - split; [discriminate|tauto].
  - destruct (decide (y = x)) as [->|Hne]; [tauto|].
    rewrite IH. split; [auto|]. intros [Heq|Hin]; [contradiction|exact Hin].
  - exact IH.
Qed.

Lemma present_add (s : JsSet.SetData Callback) x :
  present (JsSet.add s x) =
    if JsSet.has s x then present s else present s ++ [x].
Proof.
  unfold JsSet.add. destruct (JsSet.has s x); [reflexivity|].
  rewrite present_app. reflexivity.
Qed.

Lemma NoDup_add (s : JsSet.SetData Callback) x :
  NoDup (present s) -> NoDup (present (JsSet.add s x)).
Proof.
  intros Hs. rewrite present_add. destruct (JsSet.has s x) eqn:Hhas; [exact Hs|].
  apply NoDup_app. split; [exact Hs|]. split; [|apply NoDup_singleton].
  intros y Hy Hyx. apply list_elem_of_singleton in Hyx as ->.
  apply list_elem_of_In, has_present in Hy. congruence.
Qed.

Lemma filter_absent (x : Callback) xs :
  ~ In x xs -> List.filter (fun y => negb (Nat.eqb y x)) xs = xs.
Proof.
  induction xs as [|y xs IH]; simpl; [reflexivity|]. intros Hnotin.
  destruct (Nat.eqb_spec y x) as [->|Hne]; simpl; [tauto|].
  rewrite IH; tauto.
Qed.

Lemma present_delete (s : JsSet.SetData Callback) x :
  NoDup (present s) ->
  present (JsSet.delete s x) = List.filter (fun y => negb (Nat.eqb y x)) (present s).
Proof.
  induction s as [|[y|] s IH]; simpl; [reflexivity| |exact IH].
  intros Hs. apply NoDup_cons in Hs as [Hnotin Hs].
  destruct (decide (y = x)) as [->|Hne]; simpl.
  - rewrite Nat.eqb_refl. simpl. rewrite filter_absent; [reflexivity|].
    rewrite <- list_elem_of_In. exact Hnotin.
  - destruct (Nat.eqb_spec y x) as [->|_]; [contradiction|]. simpl.
    rewrite IH; auto.
Qed.

Lemma NoDup_filter_callbacks (f : Callback -> bool) xs :
  NoDup xs -> NoDup (List.filter f xs).
Proof.
  induction xs as [|y xs IH]; simpl; [auto|]. intros Hs.
  apply NoDup_cons in Hs as [Hnotin Hs]. destruct (f y); [|auto].
  apply NoDup_cons. split; [|auto].
  rewrite list_elem_of_In in *. rewrite filter_In. tauto.
Qed.

(** The [Set] behind a reference after a change of one [Set] of the
    store. *)
Lemma setEntries_alter_eq f ref w :
  ref < length (sets w) ->
  setEntries ref (set_sets w (alter f ref (sets w))) = f (setEntries ref w).
Proof.
  intros Hlt. unfold setEntries. simpl. rewrite list_lookup_alter_eq.
  apply lookup_lt_is_Some_2 in Hlt as [s Hs]. unfold JsSet.SetData in *.
  rewrite Hs. reflexivity.
Qed.

Lemma setEntries_alter_ne f ref ref' w :
  ref <> ref' ->
  setEntries ref' (set_sets w (alter f ref (sets w))) = setEntries ref' w.
Proof.
  intros Hne. unfold setEntries. simpl.
  rewrite list_lookup_alter_ne; [reflexivity|exact Hne].
Qed.

(** Two events do not share a [Set]. *)
Lemma linked_apart w event event' ref ref' :
  linked w ->
  JsMap.get (eventHandlers (this w)) event = Some ref ->
  JsMap.get (eventHandlers (this w)) event' = Some ref' ->
  event <> event' -> ref <> ref'.
Proof.
  intros Hlinked Hget Hget' Hne Heq. subst ref'.
  apply get_live in Hget, Hget'.
  pose proof (linked_refs w Hlinked) as Hrefs.
  remember (present (eventHandlers (this w))) as entries eqn:Hentries. clear Hentries.
  induction entries as [|[e0 ref0] entries IH]; simpl in *; [tauto|].
  apply NoDup_cons in Hrefs as [Hnotin Hrefs].
  rewrite list_elem_of_In in Hnotin.
  destruct Hget as [Heq|Hin]; destruct Hget' as [Heq'|Hin'].
  - congruence.
  - inversion Heq; subst. apply Hnotin. apply in_map_iff. exists (event', ref). auto.
  - inversion Heq'; subst. apply Hnotin. apply in_map_iff. exists (event, ref). auto.
  - auto.
Qed.

Lemma get_None_has {V} (m : JsMap.MapData string V) k :
  JsMap.has m k = false -> JsMap.get m k = None.
Proof. unfold JsMap.has. destruct (JsMap.get m k); [discriminate|reflexivity]. Qed.

(** A key that is new to a [Map] goes to the end of its entries. *)
Lemma present_set_new {V} (m : JsMap.MapData string V) k v :
  JsMap.get m k = None -> present (JsMap.set m k v) = present m ++ [(k, v)].
Proof.
  induction m as [|[[k0 v0]|] m IH]; simpl; [reflexivity| |exact IH].
  destruct (decide (k0 = k)) as [->|Hne]; [discriminate|].
  intros Hget. simpl. rewrite IH; auto.
Qed.

Lemma on_known event callback w ref :
  JsMap.get (eventHandlers (this w)) event = Some ref ->
  on event callback w =
    set_sets w (alter (fun s => JsSet.add s callback) ref (sets w)).
Proof.
  intros Hget. unfold on. rewrite (get_has _ _ _ Hget). simpl. rewrite Hget.
  reflexivity.
Qed.

Lemma on_new event callback w :
  JsMap.get (eventHandlers (this w)) event = None ->
  on event callback w =
    set_sets
      (set_this w (set_eventHandlers (this w)
         (JsMap.set (eventHandlers (this w)) event (length (sets w)))))
      (sets w ++ [[Some callback]]).
Proof.
  intros Hget. unfold on, JsMap.has. rewrite Hget. simpl. rewrite get_set_eq.
  unfold set_sets. simpl. f_equal.
  apply list_eq. intros i.
  destruct (decide (i = length (sets w))) as [->|Hne].
  - rewrite list_lookup_alter_eq.
    rewrite !lookup_app_r, Nat.sub_diag by lia. reflexivity.
  - rewrite list_lookup_alter_ne by auto.
    destruct (decide (i < length (sets w))) as [Hlt|Hge].
    + rewrite !lookup_app_l by assumption. reflexivity.
    + rewrite !lookup_app_r by lia.
      destruct (i - length (sets w)) as [|k] eqn:Hk; [lia|reflexivity].
Qed.

Lemma handlersOf_on event callback w :
  linked w ->
  (In callback (handlersOf w event) ->
   handlersOf (on event callback w) event = handlersOf w event) /\
  (~ In callback (handlersOf w event) ->
   handlersOf (on event callback w) event = handlersOf w event ++ [callback]) /\
  (forall event', event' <> event ->
     handlersOf (on event callback w) event' = handlersOf w event').
Proof.
  intros Hlinked.
  destruct (JsMap.get (eventHandlers (this w)) event) as [ref|] eqn:Hget.
  - rewrite (on_known _ _ _ _ Hget).
    pose proof (linked_store w Hlinked event ref Hget) as Hlt.
    unfold handlersOf. simpl. rewrite Hget.
    rewrite setEntries_alter_eq by exact Hlt. rewrite present_add.
    split; [|split].
    + intros Hin. apply has_present in Hin. rewrite Hin. reflexivity.
    + intros Hnotin. destruct (JsSet.has _ callback) eqn:Hhas; [|reflexivity].
      apply has_present in Hhas. contradiction.
    + intros event' Hne.
      destruct (JsMap.get (eventHandlers (this w)) event') as [ref'|] eqn:Hget';
        [|reflexivity].
      rewrite setEntries_alter_ne; [reflexivity|].
      apply (linked_apart w event event' ref ref' Hlinked Hget Hget'). auto.
  - rewrite (on_new _ _ _ Hget). unfold handlersOf. simpl.
    rewrite get_set_eq, Hget. unfold setEntries. simpl.
    unfold JsSet.SetData in *.
    rewrite lookup_app_r, Nat.sub_diag by lia. simpl.
    split; [tauto|]. split; [reflexivity|].
    intros event' Hne. rewrite get_set_ne by auto.
    destruct (JsMap.get (eventHandlers (this w)) event') as [ref'|] eqn:Hget';
      [|reflexivity].
    pose proof (linked_store w Hlinked event' ref' Hget') as Hlt.
    rewrite lookup_app_l by exact Hlt. reflexivity.
Qed.

Lemma linked_on event callback w : linked w -> linked (on event callback w).
Proof.
  intros Hlinked.
  destruct (JsMap.get (eventHandlers (this w)) event) as [ref|] eqn:Hget.
  - rewrite (on_known _ _ _ _ Hget).
    pose proof (linked_store w Hlinked event ref Hget) as Hlt.
    split; simpl.
    + apply Hlinked.
    + apply Hlinked.
    + intros event' ref' Hget'. rewrite length_alter.
      apply (linked_store w Hlinked event' ref' Hget').
    + intros ref'. destruct (decide (ref = ref')) as [<-|Hne].
      * rewrite setEntries_alter_eq by exact Hlt. apply NoDup_add. apply Hlinked.
      * rewrite setEntries_alter_ne by exact Hne. apply Hlinked.
  - rewrite (on_new _ _ _ Hget). split; simpl.
    + apply wf_set. apply Hlinked.
    + rewrite present_set_new by exact Hget. rewrite map_app. simpl.
      apply NoDup_app. split; [apply Hlinked|]. split; [|apply NoDup_singleton].
      intros ref Hin Heq. apply list_elem_of_singleton in Heq as ->.
      apply list_elem_of_In, in_map_iff in Hin as ([event' ref'] & Href & Hin).
      simpl in Href. subst ref'.
      apply live_get in Hin; [|apply Hlinked].
      pose proof (linked_store w Hlinked event' _ Hin). lia.
    + intros event' ref' Hget'. rewrite length_app. simpl.
      destruct (decide (event = event')) as [<-|Hne].
      * rewrite get_set_eq in Hget'. inversion Hget'. lia.
      * rewrite get_set_ne in Hget' by exact Hne.
        pose proof (linked_store w Hlinked event' ref' Hget'). lia.
    + intros ref'. unfold setEntries. simpl.
      destruct (decide (ref' < length (sets w))) as [Hlt|Hge];
        unfold JsSet.SetData in *.
      * rewrite lookup_app_l by exact Hlt. apply (linked_sets w Hlinked ref').
      * rewrite lookup_app_r by lia.
        destruct (ref' - _) as [|k]; simpl.
        -- apply NoDup_singleton.
        -- apply NoDup_nil_2.
Qed.

Lemma off_known event callback w ref :
  JsMap.get (eventHandlers (this w)) event = Some ref ->
  off event callback w =
    set_sets w (alter (fun s => JsSet.delete s callback) ref (sets w)).
Proof.
  intros Hget. unfold off. rewrite (get_has _ _ _ Hget), Hget. reflexivity.
Qed.

Lemma off_unknown event callback w :
  JsMap.get (eventHandlers (this w)) event = None -> off event callback w = w.
Proof.
  intros Hget. unfold off, JsMap.has. rewrite Hget. reflexivity.
Qed.

Lemma handlersOf_off event callback w :
  linked w ->
  handlersOf (off event callback w) event =
    List.filter (fun c => negb (Nat.eqb c callback)) (handlersOf w event) /\
  (forall event', event' <> event ->
     handlersOf (off event callback w) event' = handlersOf w event').
Proof.
  intros Hlinked.
  destruct (JsMap.get (eventHandlers (this w)) event) as [ref|] eqn:Hget.
  - rewrite (off_known _ _ _ _ Hget).
    pose proof (linked_store w Hlinked event ref Hget) as Hlt.
    unfold handlersOf. simpl. rewrite Hget.
    rewrite setEntries_alter_eq by exact Hlt.
    rewrite present_delete by apply Hlinked.
    split; [reflexivity|].
    intros event' Hne.
    destruct (JsMap.get (eventHandlers (this w)) event') as [ref'|] eqn:Hget';
      [|reflexivity].
    rewrite setEntries_alter_ne; [reflexivity|].
    apply (linked_apart w event event' ref ref' Hlinked Hget Hget'). auto.
  - rewrite (off_unknown _ _ _ Hget). unfold handlersOf. rewrite Hget.
    split; [reflexivity|auto].
Qed.

Lemma linked_off event callback w : linked w -> linked (off event callback w).
Proof.
  intros Hlinked.
  destruct (JsMap.get (eventHandlers (this w)) event) as [ref|] eqn:Hget;
    [|rewrite (off_unknown _ _ _ Hget); exact Hlinked].
  rewrite (off_known _ _ _ _ Hget).
  pose proof (linked_store w Hlinked event ref Hget) as Hlt.
  split; simpl.
  - apply Hlinked.
  - apply Hlinked.
  - intros event' ref' Hget'. rewrite length_alter.
    apply (linked_store w Hlinked event' ref' Hget').
  - intros ref'. destruct (decide (ref = ref')) as [<-|Hne].
    + rewrite setEntries_alter_eq by exact Hlt.
      rewrite present_delete by apply Hlinked.
      apply NoDup_filter_callbacks. apply Hlinked.
    + rewrite setEntries_alter_ne by exact Hne. apply Hlinked.
Qed.

Lemma linked_blank : linked blank.
Proof.
  split; simpl.
  - apply NoDup_nil_2.
  - apply NoDup_nil_2.
  - discriminate.
  - intros ref. unfold setEntries. destruct ref; apply NoDup_nil_2.
Qed.

(** X10. [on] registers a callback once: a second registration of the same
    callback for the same event changes nothing, a new callback comes
    after the callbacks registered before, and the handlers of the other
    events are left as they are. *)
Theorem on_registers_once event callback w :
  linked w ->
  linked (on event callback w) /\
  (In callback (handlersOf w event) ->
   handlersOf (on event callback w) event = handlersOf w event) /\
  (~ In callback (handlersOf w event) ->
   handlersOf (on event callback w) event = handlersOf w event ++ [callback]) /\
  (forall event', event' <> event ->
     handlersOf (on event callback w) event' = handlersOf w event').
Proof.
  intros Hlinked. split; [apply linked_on; exact Hlinked|].
  apply handlersOf_on. exact Hlinked.
Qed.

(** X11. [off] takes the callback out of the handlers of the event, whether it
    was registered once or many times, and keeps the order of the others;
    for an event without handlers it does nothing; the handlers of the
    other events are left as they are. *)
Theorem off_removes_callback event callback w :
  linked w ->
  linked (off event callback w) /\
  handlersOf (off event callback w) event =
    List.filter (fun c => negb (Nat.eqb c callback)) (handlersOf w event) /\
  (JsMap.has (eventHandlers (this w)) event = false -> off event callback w = w) /\
  (forall event', event' <> event ->
     handlersOf (off event callback w) event' = handlersOf w event').
Proof.
  intros Hlinked. split; [apply linked_off; exact Hlinked|].
  destruct (handlersOf_off event callback w Hlinked) as [Hsame Hother].
  split; [exact Hsame|]. split; [|exact Hother].
  intros Hhas. apply off_unknown, get_None_has. exact Hhas.
Qed.

Lemma linked_listened : linked listened.
Proof.
  unfold listened. repeat apply linked_on. exact linked_blank.
Qed.

Lemma on_registers_once_witness :
  linked (on "changed" 2 listened) /\
  (In 2 (handlersOf listened "changed") ->
   handlersOf (on "changed" 2 listened) "changed" = handlersOf listened "changed") /\
  (~ In 2 (handlersOf listened "changed") ->
   handlersOf (on "changed" 2 listened) "changed" =
     handlersOf listened "changed" ++ [2]) /\
  (forall event', event' <> "changed" ->
     handlersOf (on "changed" 2 listened) event' = handlersOf listened event').
Proof.
  apply (on_registers_once "changed" 2 listened). exact linked_listened.
Defined.

(** The second registration of callback 2 leaves the three handlers as
    they are; a fourth callback comes last. *)
Example handlers_after_on :
  handlersOf (on "changed" 2 listened) "changed" = [1; 2; 3] /\
  handlersOf (on "changed" 4 listened) "changed" = [1; 2; 3; 4].
Proof. split; reflexivity. Qed.

Lemma off_removes_callback_witness :
  linked (off "changed" 2 listened) /\
  handlersOf (off "changed" 2 listened) "changed" =
    List.filter (fun c => negb (Nat.eqb c 2)) (handlersOf listened "changed") /\
  (JsMap.has (eventHandlers (this listened)) "changed" = false ->
   off "changed" 2 listened = listened) /\
  (forall event', event' <> "changed" ->
     handlersOf (off "changed" 2 listened) event' = handlersOf listened event').
Proof.
  apply (off_removes_callback "changed" 2 listened). exact linked_listened.
Defined.

(** Callback 2 is gone, also when it was registered a second time. *)
Example handlers_after_off :
  handlersOf (off "changed" 2 listened) "changed" = [1; 3] /\
  handlersOf (off "changed" 2 (on "changed" 2 listened)) "changed" = [1; 3].
Proof. split; reflexivity. Qed.

(** ** The subscriptions and their control frames *)

Lemma sendIfOpen_frames frame w :
  framesSent (sendIfOpen frame w) =
    framesSent w ++ (if connected w then [frame] else []) /\
  connected (sendIfOpen frame w) = connected w.
Proof.
  unfold sendIfOpen, framesSent, connected.
  destruct (ws (this w)) as [socket|] eqn:Hws; simpl.
  - destruct (isOpen socket) eqn:Hopen; simpl.
    + unfold isOpen in *. simpl. auto.
    + rewrite Hws, app_nil_r, Hopen. auto.
  - rewrite Hws. auto.
Qed.

Lemma perform_frames w op :
  framesSent (perform w op) =
    framesSent w ++ (if connected w then [frameOf op] else []) /\
  connected (perform w op) = connected w.
Proof.
  destruct op as [collection callback eventType|collection eventType]; simpl;
    unfold unsubscribe;
    match goal with
    | |- context [sendIfOpen ?frame ?w1] =>
        destruct (sendIfOpen_frames frame w1) as [-> ->]
    end; split; reflexivity.
Qed.

(** X12. Each call of [subscribe] and of [unsubscribe] sends one control frame
    when the socket is open, also for a key that is subscribed already or
    was never subscribed, and none otherwise: the frames of a sequence of
    calls are the frames of the calls, in order. *)
Theorem one_frame_for_each_call w ops :
  framesSent (performAll w ops) =
    framesSent w ++ (if connected w then map frameOf ops else []).
Proof.
  unfold performAll. revert w. induction ops as [|op ops IH]; intros w; simpl.
  - destruct (connected w); rewrite app_nil_r; reflexivity.
  - rewrite IH. destruct (perform_frames w op) as [-> ->].
    destruct (connected w); rewrite <- app_assoc; reflexivity.
Qed.

Lemma delete_absent {V} (m : JsMap.MapData string V) k :
  JsMap.get m k = None -> JsMap.delete m k = m.
Proof.
  induction m as [|[[k0 v0]|] m IH]; simpl; [reflexivity| |].
  - destruct (decide (k0 = k)) as [->|Hne]; [discriminate|].
    intros Hget. rewrite IH; auto.
  - intros Hget. rewrite IH; auto.
Qed.

(** X13. [unsubscribe] for a key without a subscription leaves the
    subscriptions as they are; the frame is sent all the same when the
    socket is open. *)
Theorem unsubscribe_without_subscription collection eventType w :
  absent (subscriptionKey collection eventType) w ->
  subscriptions (this (unsubscribe collection eventType w)) = subscriptions (this w) /\
  framesSent (unsubscribe collection eventType w) =
    framesSent w ++
    (if connected w then [mkFrame "unsubscribe" collection eventType] else []).
Proof.
  intros Habsent. split.
  - rewrite subscriptions_unsubscribe. apply delete_absent. exact Habsent.
  - apply (perform_frames w (Unsubscribe collection eventType)).
Qed.

(** X14. The function that [subscribe] returns removes the subscription that
    is under its key when it is called: after a second registration under
    the same key, by whatever names, it removes the callback of the second
    one. *)
Theorem returned_function_removes_the_key
    collection eventType callback collection' eventType' callback' w :
  JsMap.wf (subscriptions (this w)) ->
  subscriptionKey collection' eventType' = subscriptionKey collection eventType ->
  let undo := snd (subscribe collection callback eventType w) in
  let w1 := fst (subscribe collection callback eventType w) in
  let w2 := fst (subscribe collection' callback' eventType' w1) in
  In (subscriptionKey collection eventType, callback') (active w2) /\
  forall key c, In (key, c) (active (undo w2)) <->
    key <> subscriptionKey collection eventType /\ In (key, c) (active w).
Proof.
  intros Hwf Hkey undo w1 w2.
  assert (Hwf1 : JsMap.wf (subscriptions (this w1))).
  { unfold w1. rewrite subscriptions_subscribe. apply wf_set. exact Hwf. }
  assert (Hwf2 : JsMap.wf (subscriptions (this w2))).
  { unfold w2. rewrite subscriptions_subscribe. apply wf_set. exact Hwf1. }
  split.
  - apply get_live. unfold w2. rewrite subscriptions_subscribe, Hkey.
    apply get_set_eq.
  - intros key c. unfold undo, active. simpl.
    rewrite subscriptions_unsubscribe.
    assert (Hiff : forall m : JsMap.MapData string Callback, JsMap.wf m ->
              In (key, c) (present m) <-> JsMap.get m key = Some c).
    { intros m Hm. split; [apply live_get; exact Hm|apply get_live]. }
    rewrite (Hiff _ (wf_delete _ _ Hwf2)), (Hiff _ Hwf).
    destruct (decide (key = subscriptionKey collection eventType)) as [->|Hne].
    + rewrite get_delete_eq by exact Hwf2. split; [discriminate|tauto].
    + rewrite get_delete_ne by auto.
      unfold w2. rewrite subscriptions_subscribe, Hkey, get_set_ne by auto.
      unfold w1. rewrite subscriptions_subscribe, get_set_ne by auto.
      tauto.
Qed.

(** On an open socket the three calls send three frames; two of them
    change nothing in the subscriptions. *)
Example frames_of_repeated_calls :
  framesSent (performAll (setReadyState OPEN dialing) repeated) =
    [mkFrame "subscribe" "picnics" None;
     mkFrame "subscribe" "picnics" None;
     mkFrame "unsubscribe" "picnic_items" None] /\
  framesSent (performAll dialing repeated) = [].
Proof. split; reflexivity. Qed.

Lemma unsubscribe_without_subscription_witness :
  subscriptions (this (unsubscribe "picnic_items" None watched)) =
    subscriptions (this watched) /\
  framesSent (unsubscribe "picnic_items" None watched) =
    framesSent watched ++
    (if connected watched then [mkFrame "unsubscribe" "picnic_items" None] else []).
Proof.
  apply (unsubscribe_without_subscription "picnic_items" None watched). reflexivity.
Defined.

Lemma returned_function_removes_the_key_witness :
  let undo := snd (subscribe "picnics:document_created" 1 None blank) in
  let w1 := fst (subscribe "picnics:document_created" 1 None blank) in
  let w2 := fst (subscribe "picnics" 2 (Some "document_created") w1) in
  In (subscriptionKey "picnics:document_created" None, 2) (active w2) /\
  forall key c, In (key, c) (active (undo w2)) <->
    key <> subscriptionKey "picnics:document_created" None /\ In (key, c) (active blank).
Proof.
  apply (returned_function_removes_the_key "picnics:document_created" None 1
           "picnics" (Some "document_created") 2 blank).
  - apply NoDup_nil_2.
  - reflexivity.
Defined.

(** ** Handlers that are taken off while an event is emitted *)

Lemma length_set_delete (s : JsSet.SetData Callback) x :
  length (JsSet.delete s x) = length s.
Proof.
  induction s as [|[y|] s IH]; simpl; [reflexivity| |rewrite IH; reflexivity].
  destruct (decide (y = x)); simpl; [reflexivity|rewrite IH; reflexivity].
Qed.

Lemma off_fields event callback w :
  eventHandlers (this (off event callback w)) = eventHandlers (this w) /\
  forall ref, length (setEntries ref (off event callback w)) = length (setEntries ref w).
Proof.
  destruct (JsMap.get (eventHandlers (this w)) event) as [ref0|] eqn:Hget.
  - rewrite (off_known _ _ _ _ Hget). split; [reflexivity|]. intros ref.
    unfold setEntries. simpl.
    destruct (decide (ref0 = ref)) as [<-|Hne].
    + rewrite list_lookup_alter_eq.
      destruct (_ !! ref0); simpl; [apply length_set_delete|reflexivity].
    + rewrite list_lookup_alter_ne by exact Hne. reflexivity.
  - rewrite (off_unknown _ _ _ Hget). auto.
Qed.

Lemma filter_keeps_out (x : Callback) (f : Callback -> bool) xs :
  ~ In x xs -> ~ In x (List.filter f xs).
Proof. rewrite filter_In. tauto. Qed.

Lemma withdrawn_off w0 event callback event' callback' w :
  withdrawn w0 event callback w -> withdrawn w0 event callback (off event' callback' w).
Proof.
  intros [Hlinked Hgone Hevents Hslots].
  destruct (off_fields event' callback' w) as [Hfields Hlengths].
  destruct (handlersOf_off event' callback' w Hlinked) as [Hsame Hother].
  split.
  - apply linked_off. exact Hlinked.
  - destruct (decide (event = event')) as [<-|Hne].
    + rewrite Hsame. apply filter_keeps_out. exact Hgone.
    + rewrite Hother by exact Hne. exact Hgone.
  - rewrite Hfields. exact Hevents.
  - intros ref. rewrite Hlengths. apply Hslots.
Qed.

Lemma withdrawn_offAll w0 event callback removals : forall w,
  withdrawn w0 event callback w -> withdrawn w0 event callback (offAll removals w).
Proof.
  unfold offAll. induction removals as [|[event' callback'] removals IH]; intros w Hw;
    simpl; [exact Hw|].
  apply IH, withdrawn_off. exact Hw.
Qed.

Lemma withdrawn_start event callback w :
  linked w -> withdrawn w event callback (off event callback w).
Proof.
  intros Hlinked.
  destruct (off_fields event callback w) as [Hfields Hlengths].
  destruct (handlersOf_off event callback w Hlinked) as [Hsame _].
  split.
  - apply linked_off. exact Hlinked.
  - rewrite Hsame, filter_In, Nat.eqb_refl. simpl. intros [_ Hfalse]. discriminate.
  - exact Hfields.
  - exact Hlengths.
Qed.

Section Withdrawal.
Variable call : Callback -> Payload -> World -> World * option JsError.
Hypothesis Hremoving : removing call.

Lemma invokeHandler_withdrawn w0 event callback data ref x r :
  JsMap.get (eventHandlers (this w0)) event = Some ref ->
  withdrawn w0 event callback (world r) ->
  In (Some x) (setEntries ref (world r)) ->
  ends (fun r' => withdrawn w0 event callback (world r') /\
                  extends (notBy event callback) r r')
    (invokeHandler call event data x r).
Proof.
  intros Hget Hw Hin. rewrite invokeHandler_run. simpl. split.
  - destruct (Hremoving x data (world r)) as [removals ->].
    apply withdrawn_offAll. exact Hw.
  - assert (Hx : x <> callback).
    { intros ->. apply (withdrawn_gone _ _ _ _ Hw).
      unfold handlersOf. rewrite (withdrawn_events _ _ _ _ Hw), Hget.
      apply present_In. exact Hin. }
    eexists. split; [reflexivity|].
    constructor.
    + intros data' Heq. inversion Heq. contradiction.
    + destruct (snd (call x data (world r))); [|constructor].
      constructor; [|constructor]. intros data' Heq. discriminate.
Qed.

Lemma handlers_loop_withdrawn w0 event callback data ref fuel index r :
  JsMap.get (eventHandlers (this w0)) event = Some ref ->
  withdrawn w0 event callback (world r) ->
  length (setEntries ref w0) < fuel ->
  exists r',
    forEach fuel (setEntries ref) (invokeHandler call event data) index r = Normal tt r' /\
    withdrawn w0 event callback (world r') /\
    extends (notBy event callback) r r'.
Proof.
  intros Hget Hw Hfuel.
  pose proof (forEach_invariant (setEntries ref) (invokeHandler call event data)
                (fun r => withdrawn w0 event callback (world r)) (notBy event callback))
    as Hinv.
  specialize (Hinv (fun x r0 Hr0 Hin =>
                      invokeHandler_withdrawn w0 event callback data ref x r0 Hget Hr0 Hin)
                fuel index r Hw).
  pose proof (forEach_finishes (setEntries ref) (invokeHandler call event data)
                (length (setEntries ref w0))) as Hfinishes.
  assert (Hstep : forall x r0,
            length (setEntries ref (world r0)) <= length (setEntries ref w0) ->
            match invokeHandler call event data x r0 with
            | Normal _ r' => length (setEntries ref (world r')) <= length (setEntries ref w0)
            | Throw _ _ => True
            | Exhausted => False
            end).
  { intros x r0 Hle. rewrite invokeHandler_run. simpl.
    destruct (Hremoving x data (world r0)) as [removals ->].
    clear - Hle. revert Hle. generalize (world r0) as w1.
    unfold offAll. induction removals as [|[e c] removals IH]; intros w1 Hle; simpl;
      [exact Hle|].
    apply IH. destruct (off_fields e c w1) as [_ ->]. exact Hle. }
  specialize (Hfinishes Hstep fuel index r).
  rewrite (withdrawn_slots _ _ _ _ Hw ref) in Hfinishes.
  specialize (Hfinishes ltac:(lia) ltac:(lia)).
  pose proof (forEach_throws (setEntries ref) (invokeHandler call event data)
                (fun _ => False)) as Hthrows.
  assert (Hnever : forall x r0 e r0', invokeHandler call event data x r0 = Throw e r0' -> False).
  { intros x r0 e r0'. rewrite invokeHandler_run. discriminate. }
  specialize (Hthrows Hnever fuel index r).
  destruct (forEach fuel (setEntries ref) (invokeHandler call event data) index r)
    as [[] r'|e r'|] eqn:Hrun.
  - exists r'. split; [reflexivity|]. exact Hinv.
  - exfalso. exact (Hthrows e r' eq_refl).
  - contradiction.
Qed.

End Withdrawal.

Lemma notBy_added {A} event callback r (c : Completion A) :
  ends (extends (notBy event callback) r) c ->
  forall data, ~ In (HandlerCalled event callback data) (added r c).
Proof.
  intros Hends data Hin.
  assert (HF : Forall (notBy event callback) (added r c)).
  { apply added_extends. destruct c; simpl in *; tauto. }
  rewrite Forall_forall in HF. apply list_elem_of_In in Hin.
  exact (HF _ Hin data eq_refl).
Qed.

(** X28. A handler may be taken off while its event is emitted. When the
    callbacks do nothing to the client but call [off], the loop of [emit]
    that is under way and every later [emit] of the event end without an
    error, and the callback that was taken off is not called any more,
    whether the loop had reached it or not. *)
Theorem off_during_emit_is_safe call fuel event callback data w events index :
  removing call ->
  linked w ->
  (forall ref, length (setEntries ref w) < fuel) ->
  let r := {| world := off event callback w; trace := events |} in
  (forall ref, JsMap.get (eventHandlers (this w)) event = Some ref ->
     let rest := forEach fuel (setEntries ref) (invokeHandler call event data) index r in
     (exists r', rest = Normal tt r') /\
     forall data', ~ In (HandlerCalled event callback data') (added r rest)) /\
  (let next := emit call fuel event data r in
   (exists r', next = Normal tt r') /\
   forall data', ~ In (HandlerCalled event callback data') (added r next)).
Proof.
  intros Hremoving Hlinked Hfuel r.
  pose proof (withdrawn_start event callback w Hlinked) as Hstart.
  assert (Hloop : forall ref i,
            JsMap.get (eventHandlers (this w)) event = Some ref ->
            let rest := forEach fuel (setEntries ref) (invokeHandler call event data) i r in
            (exists r', rest = Normal tt r') /\
            forall data', ~ In (HandlerCalled event callback data') (added r rest)).
  { intros ref i Hget rest.
    destruct (handlers_loop_withdrawn call Hremoving w event callback data ref fuel i r
                Hget Hstart (Hfuel ref)) as (r' & Hrun & _ & Hextends).
    subst rest. rewrite Hrun. split; [eauto|].
    apply (notBy_added event callback r (Normal tt r')). exact Hextends. }
  split; [intros ref Hget; apply Hloop; exact Hget|].
  cbv zeta. unfold emit, bind, getThis. cbn [world r].
  destruct (off_fields event callback w) as [Hfields _]. rewrite Hfields.
  unfold JsMap.has.
  destruct (JsMap.get (eventHandlers (this w)) event) as [ref|] eqn:Hget.
  - apply (Hloop ref 0 eq_refl).
  - split; [eexists; reflexivity|]. intros data'. simpl.
    rewrite drop_all. intros [].
Qed.

Lemma removing_withdrawing : removing withdrawing.
Proof.
  intros callback data w. unfold withdrawing.
  destruct (Nat.eqb callback 1).
  - exists [("changed", 2)]. reflexivity.
  - exists []. reflexivity.
Qed.

Lemma off_during_emit_is_safe_witness :
  let r := {| world := off "changed" 2 listened;
              trace := [HandlerCalled "changed" 1 (OtherData "x")] |} in
  (forall ref, JsMap.get (eventHandlers (this listened)) "changed" = Some ref ->
     let rest :=
       forEach 5 (setEntries ref) (invokeHandler withdrawing "changed" (OtherData "x"))
         1 r in
     (exists r', rest = Normal tt r') /\
     forall data', ~ In (HandlerCalled "changed" 2 data') (added r rest)) /\
  (let next := emit withdrawing 5 "changed" (OtherData "x") r in
   (exists r', next = Normal tt r') /\
   forall data', ~ In (HandlerCalled "changed" 2 data') (added r next)).
Proof.
  apply (off_during_emit_is_safe withdrawing 5 "changed" 2 (OtherData "x") listened
           [HandlerCalled "changed" 1 (OtherData "x")] 1).
  - exact removing_withdrawing.
  - exact linked_listened.
  - intros [|[|ref]]; simpl; lia.
Defined.

(** Handler 1 takes handler 2 off: the loop goes on to handler 3. *)
Example handler_taken_off_is_skipped :
  calls (traceOf (emit withdrawing 5 "changed" (OtherData "x") (start listened))) =
    [HandlerCalled "changed" 1 (OtherData "x");
     HandlerCalled "changed" 3 (OtherData "x")].
Proof. reflexivity. Qed.

(** ** The socket: [destroy], start-up, errors of subscribers *)

Lemma get_clear {V} (m : JsMap.MapData string V) k : JsMap.get (JsMap.clear m) k = None.
Proof.
  unfold JsMap.clear. induction m as [|entry m IH]; simpl; [reflexivity|exact IH].
Qed.

Lemma present_clear {V} (m : JsMap.MapData string V) : present (JsMap.clear m) = [].
Proof.
  unfold JsMap.clear. induction m as [|entry m IH]; simpl; [reflexivity|exact IH].
Qed.

Lemma active_destroy w : active (destroy w) = [].
Proof.
  unfold active, destroy. destruct (ws (this w)); simpl; apply present_clear.
Qed.

Lemma handlers_destroy w event : JsMap.has (eventHandlers (this (destroy w))) event = false.
Proof.
  unfold destroy, JsMap.has. destruct (ws (this w)); simpl; rewrite get_clear;
    reflexivity.
Qed.

(** A loop over slots that are all empty visits nothing. *)
Lemma forEach_emptied {X} (entries : World -> list (option X)) callbackfn fuel :
  forall index r,
    present (entries (world r)) = [] ->
    length (entries (world r)) - index < fuel ->
    forEach fuel entries callbackfn index r = Normal tt r.
Proof.
  induction fuel as [|fuel IH]; intros index r Hempty Hfuel; [lia|].
  simpl. destruct (entries (world r) !! index) as [[x|]|] eqn:Hlookup.
  - exfalso. apply list_elem_of_lookup_2 in Hlookup.
    apply list_elem_of_In, present_In in Hlookup. rewrite Hempty in Hlookup.
    exact Hlookup.
  - apply lookup_lt_Some in Hlookup. apply IH; [exact Hempty|lia].
  - reflexivity.
Qed.

Lemma emit_unknown call fuel event data r :
  JsMap.has (eventHandlers (this (world r))) event = false ->
  emit call fuel event data r = Normal tt r.
Proof.
  intros Hhas. unfold emit, bind, getThis. rewrite Hhas. reflexivity.
Qed.

(** X15. After [destroy] no callback is reached: a message that still comes
    in and an event that is still emitted call nobody, whatever was
    registered before. *)
Theorem destroy_silences_the_client call fuel message event data w events :
  length (subscriptions (this w)) < fuel ->
  active (destroy w) = [] /\
  (forall name, handlersOf (destroy w) name = []) /\
  handleWebSocketMessage call fuel message {| world := destroy w; trace := events |} =
    Normal tt {| world := destroy w; trace := events |} /\
  emit call fuel event data {| world := destroy w; trace := events |} =
    Normal tt {| world := destroy w; trace := events |}.
Proof.
  intros Hfuel. split; [apply active_destroy|]. split; [|split].
  - intros name. unfold handlersOf.
    pose proof (handlers_destroy w name) as Hhas. unfold JsMap.has in Hhas.
    destruct (JsMap.get _ name); [discriminate|reflexivity].
  - unfold handleWebSocketMessage, emitForType, emitForCollection, bind.
    rewrite emit_unknown by apply handlers_destroy.
    assert (Hsecond :
              match msg_collection message with
              | Some collection =>
                  if JsString.truthy collection then
                    emit call fuel ("ws:" +:+ collection +:+ ":" +:+ msg_type message)
                      (CollectionData (msg_data message) (msg_id message))
                  else ret tt
              | None => ret tt
              end {| world := destroy w; trace := events |} =
              Normal tt {| world := destroy w; trace := events |}).
    { destruct (msg_collection message) as [collection|]; [|reflexivity].
      destruct (JsString.truthy collection); [|reflexivity].
      apply emit_unknown, handlers_destroy. }
    rewrite Hsecond. unfold notifySubscribers.
    apply forEach_emptied; simpl.
    + apply active_destroy.
    + unfold destroy. destruct (ws (this w)); simpl; unfold JsMap.clear;
        rewrite length_map; lia.
  - apply emit_unknown, handlers_destroy.
Qed.

Lemma destroy_fields w :
  ws (this (destroy w)) = None /\
  auth (this (destroy w)) = auth (this w) /\
  wsUrl (this (destroy w)) = wsUrl (this w) /\
  wsReconnectAttempts (this (destroy w)) = wsReconnectAttempts (this w) /\
  maxWsReconnectAttempts (this (destroy w)) = maxWsReconnectAttempts (this w) /\
  wsReconnectDelay (this (destroy w)) = wsReconnectDelay (this w) /\
  timers (destroy w) = timers w.
Proof.
  unfold destroy. destruct (ws (this w)) eqn:Hws; simpl; rewrite ?Hws;
    repeat split; reflexivity.
Qed.

Lemma connectWebSocket_opens platform events w :
  connected w = false ->
  webSocketError platform (wsAddress platform (this w)) = None ->
  connectWebSocket platform {| world := w; trace := events |} =
    Normal tt
      {| world := set_this w (set_ws (this w)
           (Some {| url := wsAddress platform (this w);
                    readyState := CONNECTING; sent := [] |}));
         trace := events |}.
Proof.
  unfold connected. intros Hclosed Hsocket.
  unfold connectWebSocket, bind, getThis, try_catch, modify. cbn [world trace].
  rewrite Hclosed, Hsocket. reflexivity.
Qed.

(** X16. [destroy] is not the end of the connection. It closes the socket and
    leaves the timers and the handlers of the socket in place: the close
    event that follows schedules a reconnect as any other close does, and
    when a timer fires the client opens a new socket. *)
Theorem destroyed_client_reconnects platform call fuel socket w :
  ws (this w) = Some socket ->
  readyState socket <> CLOSED ->
  wsReconnectAttempts (this w) < maxWsReconnectAttempts (this w) ->
  webSocketError platform (wsAddress platform (this w)) = None ->
  timers (destroy w) = timers w /\
  onclose call fuel (start (destroy w)) =
    Normal tt
      {| world := set_timers (destroy w)
           (timers w ++ [(backoff w (wsReconnectAttempts (this w)), Reconnect)]);
         trace := [Console "log" "WebSocket disconnected:"] |} /\
  exists r',
    (onclose call fuel ;; timerFires platform) (start (destroy w)) = Normal tt r' /\
    ws (this (world r')) =
      Some {| url := wsAddress platform (this w); readyState := CONNECTING; sent := [] |} /\
    wsReconnectAttempts (this (world r')) = wsReconnectAttempts (this w) + 1.
Proof.
  intros Hws Hstate Hattempts Hsocket.
  destruct (destroy_fields w) as (Hnone & Hauth & Hurl & Hn & Hmax & Hdelay & Htimers).
  assert (Honclose :
            onclose call fuel (start (destroy w)) =
              Normal tt
                {| world := set_timers (destroy w)
                     (timers w ++ [(backoff w (wsReconnectAttempts (this w)), Reconnect)]);
                   trace := [Console "log" "WebSocket disconnected:"] |}).
  { unfold onclose, bind, console, record, modify, start. cbn [world trace].
    rewrite emit_unknown by apply handlers_destroy. cbn [world trace].
    unfold scheduleReconnect, backoff. rewrite Hn, Hmax, Hdelay, Htimers.
    apply Nat.ltb_lt in Hattempts. rewrite Hattempts. reflexivity. }
  split; [exact Htimers|]. split; [exact Honclose|].
  unfold bind at 1. rewrite Honclose.
  unfold timerFires. cbn [world trace timers set_timers].
  destruct (timers w ++ [(backoff w (wsReconnectAttempts (this w)), Reconnect)])
    as [|[delay task] rest] eqn:Hqueue.
  { destruct (timers w); discriminate. }
  destruct task. unfold runTask, bind, modify. cbn [world trace].
  rewrite connectWebSocket_opens.
  - eexists. split; [reflexivity|]. simpl. rewrite Hws. auto.
  - unfold connected. simpl. rewrite Hws. reflexivity.
  - unfold wsAddress in *. simpl. rewrite Hws. exact Hsocket.
Qed.

Lemma present_nil_get {V} (m : JsMap.MapData string V) k :
  present m = [] -> JsMap.get m k = None.
Proof.
  intros Hempty. destruct (JsMap.get m k) as [v|] eqn:Hget; [|reflexivity].
  apply get_live in Hget. rewrite Hempty in Hget. destruct Hget.
Qed.

Lemma this_on event callback w :
  subscriptions (this (on event callback w)) = subscriptions (this w) /\
  ws (this (on event callback w)) = ws (this w).
Proof.
  unfold on. destruct (negb (JsMap.has _ event)); simpl;
    destruct (JsMap.get _ event); simpl; auto.
Qed.

Lemma sendIfOpen_closed frame w : connected w = false -> sendIfOpen frame w = w.
Proof.
  unfold connected, sendIfOpen. destruct (ws (this w)) as [socket|]; [|reflexivity].
  intros ->. reflexivity.
Qed.

Lemma subscribe_closed collection callback eventType w :
  connected w = false ->
  fst (subscribe collection callback eventType w) =
    set_this w (set_subscriptions (this w)
      (JsMap.set (subscriptions (this w)) (subscriptionKey collection eventType)
         callback)).
Proof.
  intros Hclosed. unfold subscribe. simpl. apply sendIfOpen_closed. exact Hclosed.
Qed.

(** What [setupRealTimeFeatures] leaves in a client without subscriptions
    whose socket is not open. *)
Lemma setupRealTimeFeatures_registers handlers w :
  active w = [] ->
  connected w = false ->
  active (PicnicApp.setupRealTimeFeatures handlers w) = PicnicApp.feeds handlers /\
  ws (this (PicnicApp.setupRealTimeFeatures handlers w)) = ws (this w).
Proof.
  intros Hactive Hclosed. unfold PicnicApp.setupRealTimeFeatures, active in *.
  cbv zeta.
  rewrite (subscribe_closed "picnics") by exact Hclosed.
  rewrite (subscribe_closed "picnic_participants") by exact Hclosed.
  rewrite (subscribe_closed "picnic_items") by exact Hclosed.
  rewrite (subscribe_closed "picnic_expenses") by exact Hclosed.
  match goal with
  | |- context [on "ws:disconnected" ?cb ?w5] =>
      destruct (this_on "ws:disconnected" cb w5) as [-> ->]
  end.
  match goal with
  | |- context [on "ws:connected" ?cb ?w4] =>
      destruct (this_on "ws:connected" cb w4) as [-> ->]
  end.
  split; [|reflexivity]. simpl.
  pose proof (present_nil_get (subscriptions (this w))) as Hnone.
  rewrite !present_set_new, Hactive; [reflexivity| | | |];
    rewrite ?get_set_ne by discriminate; apply Hnone; exact Hactive.
Qed.

(** X17. The subscriptions of the application are never announced. They are
    made while the socket of the client is not open yet, as in
    [PicnicApp.initialize], which calls [setupRealTimeFeatures] right
    after [api.initialize()]; so [subscribe] sends no frame, and when the
    socket opens the client sends none either. *)
Theorem startup_subscriptions_are_not_announced call fuel handlers socket w :
  still call ->
  ws (this w) = Some socket ->
  readyState socket = CONNECTING ->
  active w = [] ->
  (forall ref, length (setEntries ref (PicnicApp.setupRealTimeFeatures handlers w)) < fuel) ->
  exists r',
    socketOpens call fuel (start (PicnicApp.setupRealTimeFeatures handlers w)) =
      Normal tt r' /\
    connected (world r') = true /\
    active (world r') = PicnicApp.feeds handlers /\
    framesSent (world r') = sent socket.
Proof.
  intros Hstill Hws Hstate Hactive Hfuel.
  assert (Hclosed : connected w = false).
  { unfold connected, isOpen. rewrite Hws, Hstate. reflexivity. }
  destruct (setupRealTimeFeatures_registers handlers w Hactive Hclosed)
    as [Hfeeds Hsocket].
  revert Hfuel Hfeeds Hsocket.
  generalize (PicnicApp.setupRealTimeFeatures handlers w). intros ready Hfuel Hfeeds Hsocket.
  rewrite Hws in Hsocket.
  destruct (socketOpens_still call Hstill fuel (start ready) Hfuel)
    as (r' & Hrun & Hworld & _).
  exists r'. split; [exact Hrun|]. rewrite Hworld.
  unfold connected, framesSent, active, setReadyState in *.
  cbn [start world]. rewrite Hsocket. cbn. rewrite Hfeeds. auto.
Qed.

Lemma handlerCalls_not_subscriber w event payload key callback data :
  ~ In (SubscriberCalled key callback data) (handlerCalls w event payload).
Proof.
  unfold handlerCalls. rewrite in_map_iff. intros (cb & Heq & _). discriminate.
Qed.

Lemma subscriberCalls_In message entries key callback data :
  In (SubscriberCalled key callback data) (subscriberCalls message entries) <->
  In (key, callback) entries /\ matches message key = true /\
  data = messagePayload message.
Proof.
  unfold subscriberCalls. rewrite in_map_iff. split.
  - intros ([k c] & Heq & Hin). apply filter_In in Hin as [Hin Hmatch].
    simpl in *. inversion Heq; subst. auto.
  - intros (Hin & Hmatch & ->). exists (key, callback). split; [reflexivity|].
    apply filter_In. auto.
Qed.

(** X18. Each message reaches the feed of its collection and no other: of the
    four callbacks that [setupRealTimeFeatures] subscribes, the one of the
    collection of the message is called, with the message, whatever its
    type is; a message of another collection, or of none, reaches none of
    them. *)
Theorem feeds_are_routed_by_collection call fuel handlers message w :
  quiet call ->
  active w = [] ->
  connected w = false ->
  enough fuel (PicnicApp.setupRealTimeFeatures handlers w) ->
  exists r',
    handleWebSocketMessage call fuel message
      (start (PicnicApp.setupRealTimeFeatures handlers w)) = Normal tt r' /\
    forall key callback data,
      In (SubscriberCalled key callback data) (trace r') <->
      In (key, callback) (PicnicApp.feeds handlers) /\
      msg_collection message = Some key /\
      data = messagePayload message.
Proof.
  intros Hquiet Hactive Hclosed Hfuel.
  destruct (setupRealTimeFeatures_registers handlers w Hactive Hclosed) as [Hfeeds _].
  revert Hfuel Hfeeds.
  generalize (PicnicApp.setupRealTimeFeatures handlers w). intros ready Hfuel Hfeeds.
  rewrite (handleWebSocketMessage_quiet call Hquiet fuel message (start ready) Hfuel).
  eexists. split; [reflexivity|]. intros key callback data. cbn [start world trace].
  unfold active in Hfeeds. rewrite Hfeeds. rewrite app_nil_l.
  rewrite !in_app_iff, subscriberCalls_In.
  assert (Hmatch : In (key, callback) (PicnicApp.feeds handlers) ->
            (matches message key = true <-> msg_collection message = Some key)).
  { intros Hin.
    assert (Hlacks : JsString.lacks key ":" = true).
    { simpl in Hin.
      destruct Hin as [Heq|[Heq|[Heq|[Heq|[]]]]]; inversion Heq; reflexivity. }
    pose proof (matches_key message key None Hlacks) as Hkey. simpl in Hkey.
    rewrite Hkey by discriminate. split; [tauto|].
    intros Hc. split; [exact Hc|]. left. reflexivity. }
  split.
  - intros [Hin|[Hin|(Hin & Hm & Hdata)]].
    + exfalso. exact (handlerCalls_not_subscriber _ _ _ _ _ _ Hin).
    + exfalso. unfold collectionCalls in Hin.
      destruct (msg_collection message) as [c|]; [|exact Hin].
      destruct (JsString.truthy c); [|exact Hin].
      exact (handlerCalls_not_subscriber _ _ _ _ _ _ Hin).
    + split; [exact Hin|]. split; [|exact Hdata]. apply Hmatch; assumption.
  - intros (Hin & Hc & Hdata). right. right. split; [exact Hin|].
    split; [|exact Hdata]. apply Hmatch; assumption.
Qed.

Section Throwing.
Variable call : Callback -> Payload -> World -> World * option JsError.
Hypothesis Hstill : still call.

Lemma emitForType_still fuel message r :
  (forall ref, length (setEntries ref (world r)) < fuel) ->
  exists r',
    emitForType call fuel message r = Normal tt r' /\
    world r' = world r /\
    calls (trace r') = calls (trace r) ++ typeCalls message (world r).
Proof.
  intros Hfuel. unfold emitForType, typeCalls. apply emit_still; assumption.
Qed.

Lemma emitForCollection_still fuel message r :
  (forall ref, length (setEntries ref (world r)) < fuel) ->
  exists r',
    emitForCollection call fuel message r = Normal tt r' /\
    world r' = world r /\
    calls (trace r') = calls (trace r) ++ collectionCalls message (world r).
Proof.
  intros Hfuel. unfold emitForCollection, collectionCalls.
  destruct (msg_collection message) as [collection|].
  - destruct (JsString.truthy collection).
    + apply emit_still; assumption.
    + exists r. rewrite app_nil_r. auto.
  - exists r. rewrite app_nil_r. auto.
Qed.

(** The subscribers are called in the order of the subscriptions up to
    the first that throws. *)
Lemma visitAll_subscribers_throw message key callback error after before : forall r,
  matches message key = true ->
  snd (call callback (messagePayload message) (world r)) = Some error ->
  (forall k c, In (k, c) before -> matches message k = true ->
     snd (call c (messagePayload message) (world r)) = None) ->
  exists r',
    visitAll (notifySubscriber call message) (before ++ (key, callback) :: after) r =
      Throw error r' /\
    world r' = world r /\
    calls (trace r') =
      calls (trace r) ++ subscriberCalls message (before ++ [(key, callback)]).
Proof.
  induction before as [|[k c] before IH]; intros r Hmatch Hthrows Hbefore;
    cbn [visitAll app]; unfold bind; rewrite notifySubscriber_run.
  - rewrite Hmatch, Hthrows. cbv beta iota zeta. eexists. split; [reflexivity|].
    cbn [world trace]. split; [apply Hstill|].
    rewrite calls_app. unfold subscriberCalls. simpl. rewrite Hmatch. reflexivity.
  - destruct (matches message k) eqn:Hk.
    + rewrite (Hbefore k c (or_introl eq_refl) Hk). cbv beta iota zeta.
      match goal with |- context [visitAll _ _ ?r1] =>
        destruct (IH r1) as (r' & Hrun & Hworld & Hcalls)
      end.
      * exact Hmatch.
      * cbn [world]. rewrite Hstill. exact Hthrows.
      * intros k' c' Hin Hk'. cbn [world]. rewrite Hstill.
        apply (Hbefore k' c'); [right; exact Hin|exact Hk'].
      * exists r'. split; [exact Hrun|]. cbn [world trace] in *.
        rewrite Hworld, Hstill. split; [reflexivity|].
        rewrite Hcalls, calls_app. unfold subscriberCalls. simpl. rewrite Hk.
        simpl. rewrite <- app_assoc. reflexivity.
    + destruct (IH r Hmatch Hthrows) as (r' & Hrun & Hworld & Hcalls).
      * intros k' c' Hin Hk'. apply (Hbefore k' c'); [right; exact Hin|exact Hk'].
      * exists r'. split; [exact Hrun|]. split; [exact Hworld|].
        rewrite Hcalls. unfold subscriberCalls. simpl. rewrite Hk. reflexivity.
Qed.

Lemma notifySubscribers_still fuel message r :
  length (subscriptions (this (world r))) < fuel ->
  notifySubscribers call fuel message 0 r =
    visitAll (notifySubscriber call message) (present (subscriptions (this (world r)))) r.
Proof.
  intros Hfuel. unfold notifySubscribers. rewrite forEach_stable.
  - rewrite drop_0. reflexivity.
  - intros [k c] r0 a r0'. rewrite notifySubscriber_run.
    destruct (matches message k); [|intros Heq; injection Heq as Heq; subst r0'; reflexivity].
    cbv zeta. destruct (snd (call c _ _)); [discriminate|].
    intros Heq. injection Heq as Heq. subst r0'. cbn [world]. rewrite Hstill.
    reflexivity.
  - lia.
Qed.

End Throwing.

(** X19. A subscriber that throws ends the dispatch of the message: the
    handlers of the two events and the subscribers before it have been
    called, the subscribers after it are not called. The socket handler
    catches the error and writes it to the console as a message that could
    not be parsed. *)
Theorem throwing_subscriber_ends_dispatch
    call fuel message r before key callback after error :
  still call ->
  enough fuel (world r) ->
  present (subscriptions (this (world r))) = before ++ (key, callback) :: after ->
  matches message key = true ->
  snd (call callback (messagePayload message) (world r)) = Some error ->
  (forall k c, In (k, c) before -> matches message k = true ->
     snd (call c (messagePayload message) (world r)) = None) ->
  exists r',
    handleWebSocketMessage call fuel message r = Throw error r' /\
    world r' = world r /\
    calls (trace r') =
      calls (trace r) ++ typeCalls message (world r) ++
      collectionCalls message (world r) ++
      subscriberCalls message (before ++ [(key, callback)]) /\
    onmessage call fuel (Some message) r =
      Normal tt
        {| world := world r';
           trace := trace r' ++ [Console "error" "Failed to parse WebSocket message:"] |}.
Proof.
  intros Hstill [Hsubs Hsets] Hentries Hmatch Hthrows Hbefore.
  assert (Hrun : exists r',
            handleWebSocketMessage call fuel message r = Throw error r' /\
            world r' = world r /\
            calls (trace r') =
              calls (trace r) ++ typeCalls message (world r) ++
              collectionCalls message (world r) ++
              subscriberCalls message (before ++ [(key, callback)])).
  { unfold handleWebSocketMessage, bind.
    destruct (emitForType_still call Hstill fuel message r Hsets)
      as (r1 & -> & Hw1 & Hc1).
    destruct (emitForCollection_still call Hstill fuel message r1)
      as (r2 & -> & Hw2 & Hc2); [rewrite Hw1; exact Hsets|].
    rewrite notifySubscribers_still by (try exact Hstill; rewrite Hw2, Hw1; exact Hsubs).
    rewrite Hw2, Hw1, Hentries.
    destruct (visitAll_subscribers_throw call Hstill message key callback error after
                before r2 Hmatch)
      as (r3 & -> & Hw3 & Hc3).
    - rewrite Hw2, Hw1. exact Hthrows.
    - intros k c Hin Hk. rewrite Hw2, Hw1. apply (Hbefore k c); assumption.
    - exists r3. split; [reflexivity|]. split; [congruence|].
      rewrite Hc3, Hc2, Hc1, Hw1, <- !app_assoc. reflexivity. }
  destruct Hrun as (r' & Hrun & Hworld & Hcalls).
  exists r'. split; [exact Hrun|]. split; [exact Hworld|]. split; [exact Hcalls|].
  unfold onmessage, try_catch. rewrite Hrun. reflexivity.
Qed.

Section Failing.
Variable platform : Platform.
Variable error : JsError.
Hypothesis Hfails : forall address, webSocketError platform address = Some error.

Lemma connectWebSocket_fails r :
  connected (world r) = false ->
  connectWebSocket platform r =
    Normal tt
      {| world := scheduleReconnect (world r);
         trace := trace r ++ [Console "error" "Failed to connect WebSocket:"] |}.
Proof.
  unfold connected. intros Hclosed.
  unfold connectWebSocket, bind, getThis, try_catch, throw, console, record, modify.
  rewrite Hclosed, Hfails. reflexivity.
Qed.

Lemma reconnects_fail w0 rounds : forall attempts r,
  timers (world r) = [] ->
  ws (this (world r)) = ws (this w0) ->
  connected w0 = false ->
  wsReconnectAttempts (this (world r)) = attempts ->
  maxWsReconnectAttempts (this (world r)) = maxWsReconnectAttempts (this w0) ->
  wsReconnectDelay (this (world r)) = wsReconnectDelay (this w0) ->
  attempts <= maxWsReconnectAttempts (this w0) ->
  exists r',
    (connectWebSocket platform ;; reconnects platform rounds) r =
      Normal
        (map (backoff w0)
           (seq attempts (Nat.min rounds (maxWsReconnectAttempts (this w0) - attempts))))
        r' /\
    ws (this (world r')) = ws (this w0) /\
    (maxWsReconnectAttempts (this w0) - attempts < rounds -> timers (world r') = []).
Proof.
  induction rounds as [|rounds IH];
    intros attempts r Htimers Hws Hclosed Hattempts Hmax Hdelay Hle;
    unfold bind; rewrite connectWebSocket_fails
      by (unfold connected in *; rewrite Hws; exact Hclosed).
  - simpl. eexists. split; [reflexivity|]. simpl.
    unfold scheduleReconnect. destruct (Nat.ltb _ _); simpl; split; auto; lia.
  - destruct (Nat.ltb attempts (maxWsReconnectAttempts (this w0))) eqn:Hlt.
    + assert (Hscheduled :
                scheduleReconnect (world r) =
                  set_timers (world r) [(backoff w0 attempts, Reconnect)]).
      { unfold scheduleReconnect, backoff.
        rewrite Hattempts, Hmax, Hdelay, Htimers, Hlt. reflexivity. }
      rewrite Hscheduled. apply Nat.ltb_lt in Hlt.
      cbn [reconnects]. unfold bind, getWorld. cbn [world trace timers set_timers].
      unfold timerFires. cbn [world trace timers set_timers].
      unfold runTask, bind, modify. cbn [world trace].
      match goal with
      | |- context [connectWebSocket platform ?r1] =>
          destruct (IH (attempts + 1) r1) as (r' & Hrun & Hws' & Hgives);
            [reflexivity|exact Hws|exact Hclosed|simpl; rewrite Hattempts; reflexivity
            |exact Hmax|exact Hdelay|lia|];
          unfold bind in Hrun;
          destruct (connectWebSocket platform r1) as [[] r2|e r2|]; try discriminate
      end.
      rewrite Hrun. eexists. split; [|split; [exact Hws'|]].
      * unfold ret. f_equal.
        replace (Nat.min (S rounds) (maxWsReconnectAttempts (this w0) - attempts))
          with (S (Nat.min rounds (maxWsReconnectAttempts (this w0) - (attempts + 1))))
          by lia.
        replace (attempts + 1) with (S attempts) by lia. reflexivity.
      * intros Hrounds. apply Hgives. lia.
    + assert (Hscheduled : scheduleReconnect (world r) = world r).
      { unfold scheduleReconnect. rewrite Hattempts, Hmax, Hlt. reflexivity. }
      rewrite Hscheduled. apply Nat.ltb_ge in Hlt.
      cbn [reconnects]. unfold bind, getWorld. cbn [world trace]. rewrite Htimers.
      eexists. split; [|split].
      * unfold ret. f_equal.
        replace (maxWsReconnectAttempts (this w0) - attempts) with 0 by lia.
        rewrite Nat.min_0_r. reflexivity.
      * exact Hws.
      * intros _. exact Htimers.
Qed.

End Failing.

(** X20. A socket that cannot be made is tried again on the schedule of a lost
    connection: when [new WebSocket] throws every time, the reconnects
    follow each other after [wsReconnectDelay * 2 ^ k] for the attempts
    left, and after [maxWsReconnectAttempts] the client stops, without a
    socket and without a timer. *)
Theorem failed_socket_backs_off platform error rounds w :
  (forall address, webSocketError platform address = Some error) ->
  connected w = false ->
  timers w = [] ->
  wsReconnectAttempts (this w) <= maxWsReconnectAttempts (this w) ->
  exists r',
    (connectWebSocket platform ;; reconnects platform rounds) (start w) =
      Normal
        (map (backoff w)
           (seq (wsReconnectAttempts (this w))
              (Nat.min rounds
                 (maxWsReconnectAttempts (this w) - wsReconnectAttempts (this w)))))
        r' /\
    ws (this (world r')) = ws (this w) /\
    (maxWsReconnectAttempts (this w) - wsReconnectAttempts (this w) < rounds ->
     timers (world r') = []).
Proof.
  intros Hfails Hclosed Htimers Hle.
  apply (reconnects_fail platform error Hfails w rounds
           (wsReconnectAttempts (this w)) (start w)); auto.
Qed.

(** X21. What is sent while the socket is not open is lost: the client keeps
    no queue, so the message is not sent when the socket opens either. On
    an open socket the message is sent at once. *)
Theorem unsent_messages_are_dropped call fuel message w :
  still call ->
  (forall ref, length (setEntries ref w) < fuel) ->
  (connected w = true ->
   framesSent (sendWebSocketMessage message w) = framesSent w ++ [message]) /\
  (connected w = false ->
   sendWebSocketMessage message w = w /\
   exists r',
     socketOpens call fuel (start (sendWebSocketMessage message w)) = Normal tt r' /\
     framesSent (world r') = framesSent w).
Proof.
  intros Hstill Hfuel. unfold sendWebSocketMessage. split.
  - intros Hopen. destruct (sendIfOpen_frames message w) as [-> _].
    rewrite Hopen. reflexivity.
  - intros Hclosed. rewrite sendIfOpen_closed by exact Hclosed.
    split; [reflexivity|].
    destruct (socketOpens_still call Hstill fuel (start w) Hfuel)
      as (r' & Hrun & Hworld & _).
    exists r'. split; [exact Hrun|]. rewrite Hworld.
    unfold framesSent, setReadyState. cbn [start world].
    destruct (ws (this w)) as [socket|] eqn:Hws; simpl; [reflexivity|].
    rewrite Hws. reflexivity.
Qed.

(** X22. A connection that was open starts the schedule of its reconnects
    anew: the close that follows an open is answered after
    [wsReconnectDelay], however many attempts the connection had taken. *)
Theorem open_connection_restarts_backoff call fuel socket w :
  still call ->
  ws (this w) = Some socket ->
  0 < maxWsReconnectAttempts (this w) ->
  (forall ref, length (setEntries ref w) < fuel) ->
  exists r',
    (socketOpens call fuel ;; socketCloses call fuel) (start w) = Normal tt r' /\
    timers (world r') = timers w ++ [(wsReconnectDelay (this w), Reconnect)] /\
    wsReconnectAttempts (this (world r')) = 0.
Proof.
  intros Hstill Hws Hmax Hfuel. unfold bind.
  destruct (socketOpens_still call Hstill fuel (start w) Hfuel)
    as (r1 & -> & Hworld1 & _).
  destruct (socketCloses_still call Hstill fuel r1) as (r2 & -> & Hworld2 & _).
  { intros ref. rewrite Hworld1. unfold setEntries, setReadyState in *. cbn [start world].
    rewrite Hws. exact (Hfuel ref). }
  exists r2. split; [reflexivity|]. rewrite Hworld2, Hworld1.
  unfold scheduleReconnect, setReadyState. cbn [start world]. rewrite Hws. simpl.
  apply Nat.ltb_lt in Hmax. rewrite Hmax. simpl.
  rewrite Z.mul_1_r. auto.
Qed.

(** *** The socket in the scenarios *)

Lemma destroy_silences_the_client_witness :
  active (destroy observed) = [] /\
  (forall name, handlersOf (destroy observed) name = []) /\
  handleWebSocketMessage inert 5 deletion {| world := destroy observed; trace := [] |} =
    Normal tt {| world := destroy observed; trace := [] |} /\
  emit inert 5 "ws:document_deleted" NoData {| world := destroy observed; trace := [] |} =
    Normal tt {| world := destroy observed; trace := [] |}.
Proof.
  apply (destroy_silences_the_client inert 5 deletion "ws:document_deleted" NoData
           observed []).
  simpl. lia.
Defined.

Lemma destroyed_client_reconnects_witness :
  timers (destroy connecting) = timers connecting /\
  onclose inert 5 (start (destroy connecting)) =
    Normal tt
      {| world := set_timers (destroy connecting)
           (timers connecting ++
            [(backoff connecting (wsReconnectAttempts (this connecting)), Reconnect)]);
         trace := [Console "log" "WebSocket disconnected:"] |} /\
  exists r',
    (onclose inert 5 ;; timerFires offline) (start (destroy connecting)) = Normal tt r' /\
    ws (this (world r')) =
      Some {| url := wsAddress offline (this connecting);
              readyState := CONNECTING; sent := [] |} /\
    wsReconnectAttempts (this (world r')) = wsReconnectAttempts (this connecting) + 1.
Proof.
  apply (destroyed_client_reconnects offline inert 5
           {| url := "ws://localhost/ws?token=null"; readyState := CONNECTING; sent := [] |}
           connecting).
  - reflexivity.
  - discriminate.
  - simpl. lia.
  - reflexivity.
Defined.

Lemma still_inert : still inert.
Proof. intros callback data w. reflexivity. Qed.

Lemma quiet_inert : quiet inert.
Proof. intros callback data w. reflexivity. Qed.

Lemma enough_ready : enough 5 (PicnicApp.setupRealTimeFeatures appHandlers dialing).
Proof. split; [simpl; lia|]. intros [|[|[|ref]]]; simpl; lia. Qed.

Lemma startup_subscriptions_are_not_announced_witness :
  exists r',
    socketOpens inert 5 (start (PicnicApp.setupRealTimeFeatures appHandlers dialing)) =
      Normal tt r' /\
    connected (world r') = true /\
    active (world r') = PicnicApp.feeds appHandlers /\
    framesSent (world r') = [].
Proof.
  apply (startup_subscriptions_are_not_announced inert 5 appHandlers
           {| url := "ws://localhost/ws?token=null"; readyState := CONNECTING; sent := [] |}
           dialing).
  - exact still_inert.
  - reflexivity.
  - reflexivity.
  - reflexivity.
  - apply enough_ready.
Defined.

Lemma feeds_are_routed_by_collection_witness :
  exists r',
    handleWebSocketMessage inert 5 itemAssigned
      (start (PicnicApp.setupRealTimeFeatures appHandlers dialing)) = Normal tt r' /\
    forall key callback data,
      In (SubscriberCalled key callback data) (trace r') <->
      In (key, callback) (PicnicApp.feeds appHandlers) /\
      msg_collection itemAssigned = Some key /\
      data = messagePayload itemAssigned.
Proof.
  apply (feeds_are_routed_by_collection inert 5 appHandlers itemAssigned dialing).
  - exact quiet_inert.
  - reflexivity.
  - reflexivity.
  - exact enough_ready.
Defined.

(** The message about an item reaches callback 3, the feed of the items,
    and nobody else. *)
Example item_message_reaches_item_feed :
  traceOf (handleWebSocketMessage inert 5 itemAssigned
             (start (PicnicApp.setupRealTimeFeatures appHandlers dialing))) =
    [SubscriberCalled "picnic_items" 3 (messagePayload itemAssigned)].
Proof. reflexivity. Qed.

Lemma still_faulty : still faulty.
Proof.
  intros callback data w. unfold faulty. destruct (Nat.eqb callback 1); reflexivity.
Qed.

Lemma throwing_subscriber_ends_dispatch_witness :
  exists r',
    handleWebSocketMessage faulty 5 deletion (start watched) =
      Throw (Error "handler failed") r' /\
    world r' = watched /\
    calls (trace r') =
      calls [] ++ typeCalls deletion watched ++ collectionCalls deletion watched ++
      subscriberCalls deletion ([] ++ [("todos", 1)]) /\
    onmessage faulty 5 (Some deletion) (start watched) =
      Normal tt
        {| world := world r';
           trace := trace r' ++ [Console "error" "Failed to parse WebSocket message:"] |}.
Proof.
  apply (throwing_subscriber_ends_dispatch faulty 5 deletion (start watched)
           [] "todos" 1
           [("todos:document_deleted", 2); ("todos:document_updated", 3)]
           (Error "handler failed")).
  - exact still_faulty.
  - exact enough_watched.
  - reflexivity.
  - reflexivity.
  - reflexivity.
  - intros k c [].
Defined.

(** Callback 2 is subscribed to the deletions of todos and is not
    called, because callback 1 threw before it. *)
Example later_subscriber_is_not_called :
  calls (traceOf (handleWebSocketMessage faulty 5 deletion (start watched))) =
    [SubscriberCalled "todos" 1 (messagePayload deletion)] /\
  calls (traceOf (handleWebSocketMessage inert 5 deletion (start watched))) =
    [SubscriberCalled "todos" 1 (messagePayload deletion);
     SubscriberCalled "todos:document_deleted" 2 (messagePayload deletion)].
Proof. split; reflexivity. Qed.

Lemma failed_socket_backs_off_witness :
  exists r',
    (connectWebSocket walled ;; reconnects walled 12) (start blank) =
      Normal
        (map (backoff blank)
           (seq (wsReconnectAttempts (this blank))
              (Nat.min 12
                 (maxWsReconnectAttempts (this blank) -
                  wsReconnectAttempts (this blank)))))
        r' /\
    ws (this (world r')) = ws (this blank) /\
    (maxWsReconnectAttempts (this blank) - wsReconnectAttempts (this blank) < 12 ->
     timers (world r') = []).
Proof.
  apply (failed_socket_backs_off walled
           (mkError "SecurityError" "The operation is insecure.") 12 blank).
  - reflexivity.
  - reflexivity.
  - reflexivity.
  - simpl. lia.
Defined.

(** Ten reconnects, from one second to 512 seconds, and no more. *)
Example delays_of_failed_sockets :
  match (connectWebSocket walled ;; reconnects walled 12) (start blank) with
  | Normal waits r' => waits = map (fun k => (1000 * 2 ^ Z.of_nat k)%Z) (seq 0 10)
  | _ => False
  end.
Proof. vm_compute. reflexivity. Qed.

Lemma unsent_messages_are_dropped_witness :
  (connected dialing = true ->
   framesSent (sendWebSocketMessage (mkFrame "ping" "picnics" None) dialing) =
     framesSent dialing ++ [mkFrame "ping" "picnics" None]) /\
  (connected dialing = false ->
   sendWebSocketMessage (mkFrame "ping" "picnics" None) dialing = dialing /\
   exists r',
     socketOpens inert 5
       (start (sendWebSocketMessage (mkFrame "ping" "picnics" None) dialing)) =
       Normal tt r' /\
     framesSent (world r') = framesSent dialing).
Proof.
  apply (unsent_messages_are_dropped inert 5 (mkFrame "ping" "picnics" None) dialing).
  - exact still_inert.
  - intros [|ref]; simpl; lia.
Defined.

Lemma open_connection_restarts_backoff_witness :
  exists r',
    (socketOpens inert 5 ;; socketCloses inert 5) (start worn) = Normal tt r' /\
    timers (world r') = timers worn ++ [(wsReconnectDelay (this worn), Reconnect)] /\
    wsReconnectAttempts (this (world r')) = 0.
Proof.
  apply (open_connection_restarts_backoff inert 5
           {| url := "ws://localhost/ws?token=null"; readyState := CONNECTING; sent := [] |}
           worn).
  - exact still_inert.
  - reflexivity.
  - simpl. lia.
  - intros [|ref]; simpl; lia.
Defined.

(** Without the open in between, the fourth close of a row is answered
    after eight seconds. *)
Example backoff_of_worn_connection :
  timers (scheduleReconnect worn) = [(8000%Z, Reconnect)].
Proof. reflexivity. Qed.

(** ** The filters of the todo app *)





(** One todo of the three is done; the todo without the field counts as
    pending. *)
Example filtered_sample_todos :
  TodoAPI.getFilteredTodos sampleTodos "completed" =
    TodoAPI.Resolved [TodoAPI.Todo.mk "1" "milk" (TodoAPI.Boolean true) "low"] /\
  TodoAPI.getFilteredTodos sampleTodos "pending" =
    TodoAPI.Resolved
      [TodoAPI.Todo.mk "2" "bread" (TodoAPI.Boolean false) "high";
       TodoAPI.Todo.mk "3" "eggs" TodoAPI.Undefined "medium"].
Proof. split; reflexivity. Qed.

(** When the server answers with the body [null], reading its [documents]
    throws: the statistics and the filters are rejected with that
    [TypeError]. *)
Example null_body_of_todos :
  TodoAPI.getTodoStats nullTodos =
    TodoAPI.Rejected (TypeError "Cannot read properties of null (reading 'documents')") /\
  TodoAPI.getFilteredTodos nullTodos "pending" =
    TodoAPI.Rejected (TypeError "Cannot read properties of null (reading 'documents')").
Proof. split; reflexivity. Qed.
(** ** The deletion of a picnic *)

Section Cascade.
Variable platform : Platform.
Variable stringify : Data -> string.
Variable resultsOf : Body -> option Listing.

Lemma makeRequest_accepts response body endpoint method data fuel w events :
  fetch platform events (buildOptions (this w) endpoint method data) =
    FetchResolves response ->
  accepted response body ->
  makeRequest platform (S fuel) endpoint method data 0 {| world := w; trace := events |} =
    Normal body
      {| world := w;
         trace := events ++
           [Fetched (buildOptions (this w) endpoint method data)
              (FetchResolves response)] |}.
Proof.
  intros Hfetch (Hstatus & Hok & Hjson).
  exact (makeRequest_accepted platform response endpoint method data 0
           {| world := w; trace := events |} Hfetch Hstatus fuel body Hok Hjson).
Qed.

Lemma makeRequest_refuses response endpoint method data fuel w events :
  fetch platform events (buildOptions (this w) endpoint method data) =
    FetchResolves response ->
  refused response ->
  makeRequest platform (S fuel) endpoint method data 0 {| world := w; trace := events |} =
    Throw (failureOf response)
      {| world := w;
         trace := events ++
           [Fetched (buildOptions (this w) endpoint method data)
              (FetchResolves response)] |}.
Proof.
  intros Hfetch (Hstatus & Hok & Hfinal).
  exact (makeRequest_refused_once platform response endpoint method data 0
           {| world := w; trace := events |} Hfetch Hstatus fuel Hok Hfinal).
Qed.

(** [map] over documents of which none is [null], and over documents of
    which one is. *)
Lemma mapAll_stored collection documents ids r :
  idsOf documents = Some ids ->
  mapAll (deletionOf collection) documents r =
    Normal (map (DeleteDocument collection) ids) r.
Proof.
  revert ids. induction documents as [|[|id] documents IH]; intros ids; simpl.
  - intros [= <-]. reflexivity.
  - discriminate.
  - destruct (idsOf documents) as [rest|]; [|discriminate].
    intros [= <-]. unfold bind. simpl. rewrite (IH rest eq_refl). reflexivity.
Qed.

Lemma mapAll_null collection documents r :
  idsOf documents = None ->
  mapAll (deletionOf collection) documents r = Throw (TypeError (nullRead "id")) r.
Proof.
  induction documents as [|[|id] documents IH]; simpl.
  - discriminate.
  - reflexivity.
  - destruct (idsOf documents) as [rest|]; [discriminate|].
    intros _. unfold bind. simpl. rewrite (IH eq_refl). reflexivity.
Qed.

(** What [deletePicnic] does with the body of a listing. *)
Lemma listed_documents body ids :
  listed resultsOf body = inr ids ->
  exists listing,
    (forall r, readResults resultsOf body r = Normal listing r) /\
    (forall collection r,
       deletionsOf collection listing r =
         Normal (map (DeleteDocument collection) ids) r).
Proof.
  unfold listed, readResults. destruct body as [|message text]; [discriminate|].
  destruct (resultsOf (mkBody message text)) as [[documents|]|]; simpl.
  - destruct (idsOf documents) as [found|] eqn:Hids; [|discriminate].
    intros [= <-]. exists (Documents documents). split; [reflexivity|].
    intros collection r. apply mapAll_stored. exact Hids.
  - discriminate.
  - intros [= <-]. exists (Documents []). split; reflexivity.
Qed.

Lemma listed_error body error :
  listed resultsOf body = inl error ->
  (forall r, readResults resultsOf body r = Throw error r) \/
  exists listing,
    (forall r, readResults resultsOf body r = Normal listing r) /\
    (forall collection r, deletionsOf collection listing r = Throw error r).
Proof.
  unfold listed, readResults. destruct body as [|message text].
  - intros [= <-]. left. reflexivity.
  - destruct (resultsOf (mkBody message text)) as [[documents|]|]; simpl.
    + destruct (idsOf documents) as [found|] eqn:Hids; [discriminate|].
      intros [= <-]. right. exists (Documents documents). split; [reflexivity|].
      intros collection r. apply mapAll_null. exact Hids.
    + intros [= <-]. right. exists NotAnArray. split; reflexivity.
    + discriminate.
Qed.

End Cascade.

(** X24. [deletePicnic] lists the participants, the items and the expenses of
    the picnic, in this order, and, when each answer lists documents (its
    body is not [null], its [results] are an array or missing, and no
    document is [null]), sends one batch that deletes the picnic first and
    after it every document listed, as the listings returned them; a
    listing without [results] adds nothing. It returns the body of the
    answer to the batch. *)
Theorem picnic_is_deleted_with_its_documents
    platform stringify resultsOf fuel id w
    (answers : Request -> Response) participants items expenses
    ofParticipants ofItems ofExpenses deleted :
  (forall history request, fetch platform history request = FetchResolves (answers request)) ->
  accepted (answers (queryOf stringify (this w) "picnic_participants" id [])) participants ->
  listed resultsOf participants = inr ofParticipants ->
  accepted (answers (queryOf stringify (this w) "picnic_items" id
                       [("priority", "desc"); ("created_at", "asc")])) items ->
  listed resultsOf items = inr ofItems ->
  accepted (answers (queryOf stringify (this w) "picnic_expenses" id [("date", "desc")]))
    expenses ->
  listed resultsOf expenses = inr ofExpenses ->
  accepted
    (answers (batchOf stringify (this w) (cascade id ofParticipants ofItems ofExpenses)))
    deleted ->
  deletePicnic platform stringify resultsOf (S fuel) id (start w) =
    Normal deleted
      {| world := w;
         trace :=
           map (fun request => Fetched request (FetchResolves (answers request)))
             (listings stringify (this w) id ++
              [batchOf stringify (this w)
                 (cascade id ofParticipants ofItems ofExpenses)]) |}.
Proof.
  intros Hserver Hp Hlp Hi Hli He Hle Hb.
  destruct (listed_documents resultsOf _ _ Hlp) as (lp & Hrp & Hdp).
  destruct (listed_documents resultsOf _ _ Hli) as (li & Hri & Hdi).
  destruct (listed_documents resultsOf _ _ Hle) as (le & Hre & Hde).
  unfold deletePicnic, getParticipantsByPicnic, getItemsByPicnic, getExpensesByPicnic,
    batchOperations, bind, ret, start.
  rewrite (makeRequest_accepts platform _ participants) by (rewrite ?Hserver; auto).
  rewrite Hrp, Hdp.
  rewrite (makeRequest_accepts platform _ items) by (rewrite ?Hserver; auto).
  rewrite Hri, Hdi.
  rewrite (makeRequest_accepts platform _ expenses) by (rewrite ?Hserver; auto).
  rewrite Hre, Hde.
  rewrite (makeRequest_accepts platform _ deleted) by (rewrite ?Hserver; auto).
  reflexivity.
Qed.

(** X25. When a listing fails, nothing is deleted. Whether the server refuses
    the listing with an error that is not retried, or answers it with a
    body that does not list documents (the body is [null], its [results]
    are no array, or a document is [null], each of which throws a
    [TypeError]), [deletePicnic] throws the error of the listing, after
    the listings before it, and sends no batch. *)
Theorem failed_listing_deletes_nothing
    platform stringify resultsOf fuel id w (answers : Request -> Response)
    k failed error :
  (forall history request, fetch platform history request = FetchResolves (answers request)) ->
  listings stringify (this w) id !! k = Some failed ->
  unlisted resultsOf (answers failed) error ->
  (forall j request, j < k -> listings stringify (this w) id !! j = Some request ->
     exists body ids,
       accepted (answers request) body /\ listed resultsOf body = inr ids) ->
  deletePicnic platform stringify resultsOf (S fuel) id (start w) =
    Throw error
      {| world := w;
         trace :=
           map (fun request => Fetched request (FetchResolves (answers request)))
             (take (S k) (listings stringify (this w) id)) |}.
Proof.
  intros Hserver Hfailed Hunlisted Hbefore.
  unfold deletePicnic, getParticipantsByPicnic, getItemsByPicnic, getExpensesByPicnic,
    batchOperations, bind, ret, start.
  destruct k as [|[|[|k]]]; simpl in Hfailed; [| | |discriminate];
    injection Hfailed as <-.
  2, 3: destruct (Hbefore 0 _ ltac:(lia) eq_refl) as (participants & ps & Hp & Hlp);
        destruct (listed_documents resultsOf _ _ Hlp) as (lp & Hrp & Hdp);
        rewrite (makeRequest_accepts platform _ participants)
          by (rewrite ?Hserver; auto);
        rewrite Hrp, Hdp.
  3: destruct (Hbefore 1 _ ltac:(lia) eq_refl) as (items & its & Hi & Hli);
     destruct (listed_documents resultsOf _ _ Hli) as (li & Hri & Hdi);
     rewrite (makeRequest_accepts platform _ items) by (rewrite ?Hserver; auto);
     rewrite Hri, Hdi.
  all: destruct Hunlisted as [[Hrefused ->]|(body & Haccepted & Hlisted)];
    [ rewrite (makeRequest_refuses platform _) by (rewrite ?Hserver; auto);
      reflexivity
    | rewrite (makeRequest_accepts platform _ body) by (rewrite ?Hserver; auto);
      destruct (listed_error resultsOf _ _ Hlisted) as [Hthrow|(l & Hr & Hd)];
      [rewrite Hthrow|rewrite Hr, Hd]; reflexivity ].
Qed.

Lemma picnic_is_deleted_with_its_documents_witness :
  deletePicnic archived render documentsOf 1 "picnic-1" (start blank) =
    Normal (mkBody None "deleted")
      {| world := blank;
         trace :=
           map (fun request => Fetched request (FetchResolves (archive request)))
             (listings render (this blank) "picnic-1" ++
              [batchOf render (this blank)
                 (cascade "picnic-1" [Some "p1"; Some "p2"] [] [Some "e1"])]) |}.
Proof.
  apply (picnic_is_deleted_with_its_documents archived render documentsOf 0 "picnic-1"
           blank archive (mkBody None "p1,p2") (mkBody None "") (mkBody None "e1")
           [Some "p1"; Some "p2"] [] [Some "e1"] (mkBody None "deleted")).
  - reflexivity.
  - split; [simpl; lia|split; reflexivity].
  - reflexivity.
  - split; [simpl; lia|split; reflexivity].
  - reflexivity.
  - split; [simpl; lia|split; reflexivity].
  - reflexivity.
  - split; [simpl; lia|split; reflexivity].
Defined.

(** The batch deletes the picnic, its two participants and its expense. *)
Example operations_of_the_batch :
  cascade "picnic-1" [Some "p1"; Some "p2"] [] [Some "e1"] =
    [DeleteDocument "picnics" (Some "picnic-1");
     DeleteDocument "picnic_participants" (Some "p1");
     DeleteDocument "picnic_participants" (Some "p2");
     DeleteDocument "picnic_expenses" (Some "e1")].
Proof. reflexivity. Qed.

Lemma failed_listing_deletes_nothing_witness :
  deletePicnic guardedArchive render documentsOf 1 "picnic-1" (start blank) =
    Throw (Error "Insufficient permissions")
      {| world := blank;
         trace :=
           map (fun request => Fetched request (FetchResolves (guarded request)))
             (take 2 (listings render (this blank) "picnic-1")) |}.
Proof.
  apply (failed_listing_deletes_nothing guardedArchive render documentsOf 0 "picnic-1"
           blank guarded 1
           (queryOf render (this blank) "picnic_items" "picnic-1"
              [("priority", "desc"); ("created_at", "asc")])).
  - reflexivity.
  - reflexivity.
  - left. split; [|reflexivity]. split; [simpl; lia|split; reflexivity].
  - intros [|j] request Hj Hrequest; [|lia].
    injection Hrequest as <-. exists (mkBody None "p1,p2"), [Some "p1"; Some "p2"].
    split; [|reflexivity]. split; [simpl; lia|split; reflexivity].
Defined.

(** A listing that is answered with the body [null] ends the call with the
    [TypeError] of reading its [results]; the listings after it and the
    batch are not sent. *)
Example null_listing_deletes_nothing :
  deletePicnic emptiedArchive render documentsOf 1 "picnic-1" (start blank) =
    Throw (TypeError "Cannot read properties of null (reading 'results')")
      {| world := blank;
         trace :=
           map (fun request => Fetched request (FetchResolves (emptied request)))
             (take 2 (listings render (this blank) "picnic-1")) |}.
Proof. reflexivity. Qed.

(** So do [results] that are no array, and a document that is [null]. *)
Example malformed_listing_deletes_nothing :
  deletePicnic muddledArchive render documentsOf 1 "picnic-1" (start blank) =
    Throw (TypeError "(intermediate value).map is not a function")
      {| world := blank;
         trace :=
           map (fun request => Fetched request (FetchResolves (muddled request)))
             (listings render (this blank) "picnic-1") |} /\
  deletePicnic tornArchive render documentsOf 1 "picnic-1" (start blank) =
    Throw (TypeError "Cannot read properties of null (reading 'id')")
      {| world := blank;
         trace :=
           map (fun request => Fetched request (FetchResolves (torn request)))
             (take 1 (listings render (this blank) "picnic-1")) |}.
Proof. split; reflexivity. Qed.
